(** * Teaching-Apps / hld: the retrieval pipeline behind the HTTP routes

    A shallow embedding of [services/langchain.ts] and of the four route
    handlers that call it ([/api/ingest/upload], [/api/ingest/text],
    [/api/ingest/youtube], [/api/query]), of the token route
    ([/api/hume/token]) with [services/hume.ts], and of the handlers of the
    two components of the page that call the routes.

    The handlers are JavaScript [async] functions over one module-level
    variable ([vectorStorePromise]) and three third-party collaborators:
    LangChain's text splitter, the OpenAI embedder and the HNSWLib vector
    store.  The collaborators are not part of the repository; they enter the
    model as the fields of the class [Env].  Handlers are written in a small
    state-and-exception monad over the record [World]; a request is served
    to its end before the next one starts, and an [await] is read at the
    outcome its promise settles to.

    The file has three parts: the program; the vector index as the
    specification describes it, which stands in for the absent third-party
    store where a property is about the store itself; and the properties. *)

From Stdlib Require Import String Ascii DecimalString.
From Stdlib Require Import List Bool Arith NArith ZArith Lia.
From Stdlib Require Import Sorted Permutation.
From Stdlib Require Import Floats.
Import ListNotations.

Set Implicit Arguments.
Set Warnings "-register-all".

(* ------------------------------------------------------------------ *)
(** ** JavaScript strings *)

(** A JavaScript string is a sequence of UTF-16 code units. *)
Definition JsString := list N.

Definition ch (a : ascii) : N := N_of_ascii a.

(** The code units of an ASCII literal of the source. *)
Definition lit (s : string) : JsString := map N_of_ascii (list_ascii_of_string s).

Fixpoint str_eqb (a b : JsString) : bool :=
  match a, b with
  | [], [] => true
  | x :: a', y :: b' => N.eqb x y && str_eqb a' b'
  | _, _ => false
  end.

(** ECMAScript WhiteSpace and LineTerminator code points: what
    [String.prototype.trim] strips. *)
Definition isWhiteSpace (c : N) : bool :=
  ((9 <=? c) && (c <=? 13) || (c =? 32) || (c =? 160) || (c =? 5760)
   || (8192 <=? c) && (c <=? 8202) || (c =? 8232) || (c =? 8233)
   || (c =? 8239) || (c =? 8287) || (c =? 12288) || (c =? 65279))%N.

Fixpoint dropWhile (p : N -> bool) (s : JsString) : JsString :=
  match s with
  | [] => []
  | c :: rest => if p c then dropWhile p rest else s
  end.

Fixpoint takeWhile (p : N -> bool) (s : JsString) : JsString :=
  match s with
  | [] => []
  | c :: rest => if p c then c :: takeWhile p rest else []
  end.

(** [s.trim()] *)
Definition trim (s : JsString) : JsString :=
  rev (dropWhile isWhiteSpace (rev (dropWhile isWhiteSpace s))).

(** [parts.join(sep)] on an array of strings. *)
Fixpoint join (sep : JsString) (parts : list JsString) : JsString :=
  match parts with
  | [] => []
  | [p] => p
  | p :: rest => p ++ sep ++ join sep rest
  end.

(** [Some rest] when [s = prefix ++ rest]. *)
Fixpoint stripPrefix (prefix s : JsString) : option JsString :=
  match prefix, s with
  | [], _ => Some s
  | p :: prefix', c :: s' => if N.eqb p c then stripPrefix prefix' s' else None
  | _ :: _, [] => None
  end.

(* ------------------------------------------------------------------ *)
(** ** JavaScript values that reach the handlers *)

(** What [JSON.parse] produces.  [undefined] (a missing property) is the
    [None] of [option JsValue]. *)
Inductive JsValue : Type :=
| JNull
| JBool (b : bool)
| JNum (x : float)
| JStr (s : JsString)
| JArr (items : list JsValue)
| JObj (fields : list (JsString * JsValue)).

Fixpoint lookup (key : JsString) (fields : list (JsString * JsValue)) : option JsValue :=
  match fields with
  | [] => None
  | (k, v) :: rest => if str_eqb key k then Some v else lookup key rest
  end.

(** Truthiness, the negation of [!x]. *)
Definition truthy (v : option JsValue) : bool :=
  match v with
  | None => false
  | Some JNull => false
  | Some (JBool b) => b
  | Some (JNum x) => negb (PrimFloat.is_zero x || PrimFloat.is_nan x)
  | Some (JStr s) => negb (N.of_nat (length s) =? 0)%N
  | Some (JArr _) => true
  | Some (JObj _) => true
  end.

Inductive JsType := TUndefined | TObject | TBoolean | TNumber | TString.

Definition typeof (v : option JsValue) : JsType :=
  match v with
  | None => TUndefined
  | Some JNull => TObject
  | Some (JBool _) => TBoolean
  | Some (JNum _) => TNumber
  | Some (JStr _) => TString
  | Some (JArr _) => TObject
  | Some (JObj _) => TObject
  end.

Definition isString (v : option JsValue) : bool :=
  match typeof v with TString => true | _ => false end.

(** The characters of a value already known to be a string. *)
Definition asString (v : option JsValue) : JsString :=
  match v with Some (JStr s) => s | _ => [] end.

(** [x ?? d] *)
Definition nullish (v : option JsValue) (d : JsValue) : JsValue :=
  match v with
  | None => d
  | Some JNull => d
  | Some x => x
  end.

(** A thrown value: an [Error] (with its message) or anything else. *)
Inductive Thrown := JsError (message : JsString) | NonError.

Inductive Outcome (A : Type) : Type :=
| Returned (a : A)
| Threw (e : Thrown).
Arguments Returned {A} a.
Arguments Threw {A} e.

(** Runtime errors raised by the engine itself; their wording is the
    engine's. *)
Inductive EngineFault :=
| DestructureNull (property : JsString)
| NotAFunction (callee : JsString)
| CannotConvertToPrimitive.

(** LangChain's [Document]. *)
Record Document := { pageContent : JsString; metadata : list (JsString * JsValue) }.

(** The JSON of a [Document] in a response. *)
Definition documentJSON (d : Document) : JsValue :=
  JObj [(lit "pageContent", JStr (pageContent d)); (lit "metadata", JObj (metadata d))].

Record SplitterParams := { chunkSize : N; chunkOverlap : N }.

(** The response of [fetch]: its [ok] flag and what [resp.json()] settles to. *)
Record FetchResponse := { ok : bool; resp_json : Outcome JsValue }.

(* ------------------------------------------------------------------ *)
(** ** The collaborators *)

(** Everything the repository's code calls but does not define.  [Ext] is the
    state of the outside world (network, credentials, quota); every effectful
    collaborator may read and change it, so a call can succeed once and fail
    the next time. *)
Class Env : Type := {
  Ext : Type;
  Embeddings : Type;
  (** the state of one [HNSWLib] object *)
  HNSWLib : Type;
  (** [new RecursiveCharacterTextSplitter(params).createDocuments(texts)]:
      a deterministic, local computation *)
  createDocuments : SplitterParams -> list JsString -> list Document;
  (** [new OpenAIEmbeddings()] *)
  newOpenAIEmbeddings : Ext -> Outcome Embeddings * Ext;
  (** [HNSWLib.fromDocuments(docs, embeddings)], settled *)
  HNSWLib_fromDocuments : list Document -> Embeddings -> Ext -> Outcome HNSWLib * Ext;
  (** [store.addDocuments(docs)]: the outcome and the store it leaves *)
  HNSWLib_addDocuments : HNSWLib -> list Document -> Ext -> Outcome unit * HNSWLib * Ext;
  (** [store.similaritySearch(query, k)] *)
  HNSWLib_similaritySearch :
    HNSWLib -> JsValue -> JsValue -> Ext -> Outcome (list Document) * HNSWLib * Ext;
  (** the global [fetch(url)] *)
  fetch : JsString -> Ext -> Outcome FetchResponse * Ext;
  (** [String(x)] on a number *)
  Number_toString : float -> JsString;
  (** the message of an engine [TypeError] *)
  engineMessage : EngineFault -> JsString
}.

(** Outcomes in the order they were produced: the first that threw, or
    all the values. *)
Fixpoint allReturned {A} (l : list (Outcome A)) : Outcome (list A) :=
  match l with
  | [] => Returned []
  | Returned a :: rest =>
      match allReturned rest with
      | Returned values => Returned (a :: values)
      | Threw e => Threw e
      end
  | Threw e :: _ => Threw e
  end.

(** [String(v)].  An object is converted by its [toString]: a parsed
    object that has a property of this name of its own (never a function)
    cannot be converted, and the engine throws a [TypeError]; any other
    gives ["[object Object]"].  An array joins the conversions of its
    elements, [null] counting as empty, and throws where one of them
    does. *)
Fixpoint ToString `{Env} (v : JsValue) : Outcome JsString :=
  match v with
  | JNull => Returned (lit "null")
  | JBool true => Returned (lit "true")
  | JBool false => Returned (lit "false")
  | JNum x => Returned (Number_toString x)
  | JStr s => Returned s
  | JArr items =>
      match allReturned
              (map (fun x => match x with JNull => Returned [] | _ => ToString x end) items)
      with
      | Returned parts => Returned (join (lit ",") parts)
      | Threw e => Threw e
      end
  | JObj fields =>
      match lookup (lit "toString") fields with
      | Some _ => Threw (JsError (engineMessage CannotConvertToPrimitive))
      | None => Returned (lit "[object Object]")
      end
  end.

(* ------------------------------------------------------------------ *)
(** ** Process state and the handler monad *)

(** A settled [Promise<HNSWLib>]: fulfilled with a reference to a store
    object, or rejected. *)
Inductive Promise := Fulfilled (ref : nat) | Rejected (e : Thrown).

(** Calls made to the store and to the network, most recent first.  The log
    is ghost state: no handler reads it. *)
Inductive Call :=
| CallFromDocuments (docs : list Document)
| CallAddDocuments (ref : nat) (docs : list Document)
| CallSimilaritySearch (ref : nat) (query k : JsValue)
| CallFetch (url : JsString).

Record World `{Env} := {
  (** the module variable of [services/langchain.ts]; [None] is [null] *)
  vectorStorePromise : option Promise;
  (** the [HNSWLib] objects allocated so far; a reference is an index *)
  heap : list HNSWLib;
  ext : Ext;
  calls : list Call
}.

(** The process as it starts: the variable is [null], nothing allocated. *)
Definition initialWorld `{Env} (e : Ext) : World :=
  {| vectorStorePromise := None; heap := []; ext := e; calls := [] |}.

Definition M `{Env} (A : Type) : Type := World -> Outcome A * World.

Definition ret `{Env} {A} (a : A) : M A := fun w => (Returned a, w).

Definition throw `{Env} {A} (e : Thrown) : M A := fun w => (Threw e, w).

Definition bind `{Env} {A B} (m : M A) (k : A -> M B) : M B :=
  fun w =>
    match m w with
    | (Returned a, w') => k a w'
    | (Threw e, w') => (Threw e, w')
    end.

Declare Scope js_scope.
Delimit Scope js_scope with js.
Notation "x <- m ;; k" := (bind m (fun x => k))
  (at level 100, m at next level, right associativity) : js_scope.
Notation "m ;;; k" := (bind m (fun _ => k))
  (at level 100, right associativity) : js_scope.
Open Scope js_scope.

(** [await p] on a settled outcome. *)
Definition await `{Env} {A} (o : Outcome A) : M A :=
  match o with
  | Returned a => ret a
  | Threw e => throw e
  end.

Definition awaitPromise `{Env} (p : Promise) : M nat :=
  match p with
  | Fulfilled r => ret r
  | Rejected e => throw e
  end.

Fixpoint setNth {A} (n : nat) (x : A) (l : list A) : list A :=
  match l, n with
  | [], _ => []
  | _ :: t, O => x :: t
  | h :: t, S n' => h :: setNth n' x t
  end.

(** The collaborators as monadic actions; each store call is logged. *)

Definition new_OpenAIEmbeddings `{Env} : M Embeddings :=
  fun w =>
    let '(o, e') := newOpenAIEmbeddings (ext w) in
    (o, {| vectorStorePromise := vectorStorePromise w; heap := heap w;
           ext := e'; calls := calls w |}).

(** [HNSWLib.fromDocuments] returns a promise; a fulfilled one refers to a
    freshly allocated store. *)
Definition call_fromDocuments `{Env} (docs : list Document) (emb : Embeddings) : M Promise :=
  fun w =>
    let '(o, e') := HNSWLib_fromDocuments docs emb (ext w) in
    match o with
    | Returned s =>
        (Returned (Fulfilled (length (heap w))),
         {| vectorStorePromise := vectorStorePromise w; heap := heap w ++ [s];
            ext := e'; calls := CallFromDocuments docs :: calls w |})
    | Threw err =>
        (Returned (Rejected err),
         {| vectorStorePromise := vectorStorePromise w; heap := heap w;
            ext := e'; calls := CallFromDocuments docs :: calls w |})
    end.

Definition store_addDocuments `{Env} (ref : nat) (docs : list Document) : M unit :=
  fun w =>
    match nth_error (heap w) ref with
    | None => (Threw NonError, w)
    | Some s =>
        let '(o, s', e') := HNSWLib_addDocuments s docs (ext w) in
        (o, {| vectorStorePromise := vectorStorePromise w;
               heap := setNth ref s' (heap w);
               ext := e'; calls := CallAddDocuments ref docs :: calls w |})
    end.

Definition store_similaritySearch `{Env} (ref : nat) (query k : JsValue) : M (list Document) :=
  fun w =>
    match nth_error (heap w) ref with
    | None => (Threw NonError, w)
    | Some s =>
        let '(o, s', e') := HNSWLib_similaritySearch s query k (ext w) in
        (o, {| vectorStorePromise := vectorStorePromise w;
               heap := setNth ref s' (heap w);
               ext := e'; calls := CallSimilaritySearch ref query k :: calls w |})
    end.

Definition call_fetch `{Env} (url : JsString) : M FetchResponse :=
  fun w =>
    let '(o, e') := fetch url (ext w) in
    (o, {| vectorStorePromise := vectorStorePromise w; heap := heap w;
           ext := e'; calls := CallFetch url :: calls w |}).

Definition read_vectorStorePromise `{Env} : M (option Promise) :=
  fun w => (Returned (vectorStorePromise w), w).

Definition write_vectorStorePromise `{Env} (p : option Promise) : M unit :=
  fun w => (Returned tt,
            {| vectorStorePromise := p; heap := heap w; ext := ext w; calls := calls w |}).

(* ------------------------------------------------------------------ *)
(** ** services/langchain.ts *)

Module Langchain.

Definition splitToDocuments `{Env} (text : JsString) : M (list Document) :=
  ret (createDocuments {| chunkSize := 1000; chunkOverlap := 200 |} [text]).

(** [new OpenAIEmbeddings()] is evaluated before the assignment, so a throw
    there leaves the variable [null]; a rejection of
    [HNSWLib.fromDocuments] is stored with the promise. *)
Definition getVectorStore `{Env} : M nat :=
  p <- read_vectorStorePromise ;;
  match p with
  | None =>
      emb <- new_OpenAIEmbeddings ;;
      pr <- call_fromDocuments [] emb ;;
      write_vectorStorePromise (Some pr) ;;;
      awaitPromise pr
  | Some pr => awaitPromise pr
  end.

Definition addDocumentsToStore `{Env} (docs : list Document) : M unit :=
  store <- getVectorStore ;;
  store_addDocuments store docs.

(** [k = 4] is the default of a missing second argument. *)
Definition similaritySearch `{Env} (query : JsValue) (k : option JsValue)
  : M (list Document) :=
  let k := match k with None => JNum 4%float | Some k' => k' end in
  store <- getVectorStore ;;
  store_similaritySearch store query k.

End Langchain.

(* ------------------------------------------------------------------ *)
(** ** The route handlers *)

Inductive ResponseBody :=
| ErrorBody (error : JsString)                 (* { error } *)
| AddedBody (added : nat)                      (* { ok: true, added } *)
| ResultsBody (results : list Document).       (* { results } *)

Record Response := { status : N; body : ResponseBody }.

(** [NextResponse.json(body)] and [NextResponse.json(body, { status })] *)
Definition json200 (b : ResponseBody) : Response := {| status := 200; body := b |}.
Definition jsonStatus (b : ResponseBody) (s : N) : Response := {| status := s; body := b |}.

Record File := { file_text : JsString }.

Inductive FormValue := FormString (s : JsString) | FormFile (f : File).

(** A request, by what its body readers settle to. *)
Record Request := {
  request_json : Outcome JsValue;
  request_formData : Outcome (list (JsString * FormValue))
}.

(** [form.get(name)] *)
Fixpoint form_get (form : list (JsString * FormValue)) (name : JsString) : option FormValue :=
  match form with
  | [] => None
  | (k, v) :: rest => if str_eqb name k then Some v else form_get rest name
  end.

(** [v.p] for the property names the handlers ask for: a primitive or an
    array has none of them. *)
Definition property (p : JsString) (v : JsValue) : option JsValue :=
  match v with
  | JObj fields => lookup p fields
  | _ => None
  end.

(** [const { p, ... } = v]: reading property [p] of [v]; [null] cannot be
    destructured ([first] is the property the engine names in its message). *)
Definition destructure `{Env} (v : JsValue) (first p : JsString) : M (option JsValue) :=
  match v with
  | JNull => throw (JsError (engineMessage (DestructureNull first)))
  | _ => ret (property p v)
  end.

(** [try { ... } catch (err) { message = err instanceof Error ? err.message :
    fallback; return 500 }] *)
Definition tryCatch `{Env} (fallback : JsString) (m : M Response) : World -> Response * World :=
  fun w =>
    match m w with
    | (Returned r, w') => (r, w')
    | (Threw err, w') =>
        let message := match err with JsError msg => msg | NonError => fallback end in
        (jsonStatus (ErrorBody message) 500, w')
    end.

(** app/api/ingest/upload/route.ts *)
Module UploadRoute.

Definition POST `{Env} (request : Request) : World -> Response * World :=
  tryCatch (lit "Failed to ingest file")
    (form <- await (request_formData request) ;;
     match form_get form (lit "file") with
     | Some (FormFile file) =>
         let text := file_text file in
         docs <- Langchain.splitToDocuments text ;;
         Langchain.addDocumentsToStore docs ;;;
         ret (json200 (AddedBody (length docs)))
     | _ => ret (jsonStatus (ErrorBody (lit "No file provided")) 400)
     end).

End UploadRoute.

(** app/api/ingest/text/route.ts *)
Module TextRoute.

Definition POST `{Env} (request : Request) : World -> Response * World :=
  tryCatch (lit "Failed to ingest text")
    (json <- await (request_json request) ;;
     text <- destructure json (lit "text") (lit "text") ;;
     if negb (truthy text) || negb (isString text)
        || (N.of_nat (length (trim (asString text))) =? 0)%N
     then ret (jsonStatus (ErrorBody (lit "Missing text")) 400)
     else
       docs <- Langchain.splitToDocuments (asString text) ;;
       Langchain.addDocumentsToStore docs ;;;
       ret (json200 (AddedBody (length docs)))).

End TextRoute.

(** app/api/ingest/youtube/route.ts *)
Module YoutubeRoute.

(** The pattern [/[?&]v=([^&]+)/] tried at the start of [s]: its group, the
    longest run of non-[&] code units after [v=]. *)
Definition v_param_at (s : JsString) : option JsString :=
  match s with
  | [] => None
  | c :: rest =>
      if ((c =? ch "?") || (c =? ch "&"))%N then
        match stripPrefix (lit "v=") rest with
        | Some tail =>
            match takeWhile (fun x => negb (x =? ch "&")%N) tail with
            | [] => None
            | g => Some g
            end
        | None => None
        end
      else None
  end.

(** [url.match(/[?&]v=([^&]+)/)?.[1]]: the group at the leftmost position
    where the pattern matches. *)
Fixpoint match_v_param (url : JsString) : option JsString :=
  match url with
  | [] => None
  | _ :: rest =>
      match v_param_at url with
      | Some g => Some g
      | None => match_v_param rest
      end
  end.

(** The pattern [/youtu\.be\/([^?]+)/] tried at the start of [s]. *)
Definition short_path_at (s : JsString) : option JsString :=
  match stripPrefix (lit "youtu.be/") s with
  | Some tail =>
      match takeWhile (fun x => negb (x =? ch "?")%N) tail with
      | [] => None
      | g => Some g
      end
  | None => None
  end.

(** [url.match(/youtu\.be\/([^?]+)/)?.[1]] *)
Fixpoint match_youtu_be (url : JsString) : option JsString :=
  match url with
  | [] => None
  | _ :: rest =>
      match short_path_at url with
      | Some g => Some g
      | None => match_youtu_be rest
      end
  end.

(** [a || b] on match results: a match array is truthy, [null] is not. *)
Definition videoIdOf (url : JsString) : option JsString :=
  match match_v_param url with
  | Some g => Some g
  | None => match_youtu_be url
  end.

(** [typeof item === "object" && item !== null && "text" in item
     ? String(item.text ?? "") : ""] *)
Definition itemText `{Env} (item : JsValue) : Outcome JsString :=
  match item with
  | JObj fields =>
      match lookup (lit "text") fields with
      | Some v => ToString (nullish (Some v) (JStr []))
      | None => Returned []
      end
  | _ => Returned []
  end.

(** The address of the transcript service for [videoId]. *)
Definition transcriptUrl (videoId : JsString) : JsString :=
  lit "https://youtubetranscriptdata.sumanjay.workers.dev/?video_id=" ++ videoId.

Definition fetchTranscriptFromYouTube `{Env} (url : JsValue) : M JsString :=
  match url with
  | JStr url =>
      let videoId := videoIdOf url in
      if negb (truthy (option_map JStr videoId))
      then throw (JsError (lit "Invalid YouTube URL"))
      else
        resp <- call_fetch (transcriptUrl (asString (option_map JStr videoId))) ;;
        if negb (ok resp) then throw (JsError (lit "Transcript not available"))
        else
          data <- await (resp_json resp) ;;
          match data with
          | JArr items =>
              texts <- await (allReturned (map itemText items)) ;;
              ret (join (lit " ") texts)
          | _ => throw (JsError (lit "Unexpected transcript format"))
          end
  | _ => throw (JsError (engineMessage (NotAFunction (lit "url.match"))))
  end.

Definition POST `{Env} (request : Request) : World -> Response * World :=
  tryCatch (lit "Failed to ingest YouTube")
    (json <- await (request_json request) ;;
     url <- destructure json (lit "url") (lit "url") ;;
     match url with
     | Some u =>
         if negb (truthy url)
         then ret (jsonStatus (ErrorBody (lit "Missing url")) 400)
         else
           transcript <- fetchTranscriptFromYouTube u ;;
           docs <- Langchain.splitToDocuments transcript ;;
           Langchain.addDocumentsToStore docs ;;;
           ret (json200 (AddedBody (length docs)))
     | None => ret (jsonStatus (ErrorBody (lit "Missing url")) 400)
     end).

End YoutubeRoute.

(** app/api/query/route.ts *)
Module QueryRoute.

Definition POST `{Env} (request : Request) : World -> Response * World :=
  tryCatch (lit "Failed to query store")
    (json <- await (request_json request) ;;
     query <- destructure json (lit "query") (lit "query") ;;
     k <- destructure json (lit "query") (lit "k") ;;
     match query with
     | Some q =>
         if negb (truthy query)
         then ret (jsonStatus (ErrorBody (lit "Missing query")) 400)
         else
           results <- Langchain.similaritySearch q (Some (nullish k (JNum 4%float))) ;;
           ret (json200 (ResultsBody results))
     | None => ret (jsonStatus (ErrorBody (lit "Missing query")) 400)
     end).

End QueryRoute.

(** One request of the process, and the handler that serves it. *)
Inductive Operation :=
| IngestUpload (request : Request)
| IngestText (request : Request)
| IngestYoutube (request : Request)
| Query (request : Request).

Definition serve `{Env} (op : Operation) : World -> Response * World :=
  match op with
  | IngestUpload request => UploadRoute.POST request
  | IngestText request => TextRoute.POST request
  | IngestYoutube request => YoutubeRoute.POST request
  | Query request => QueryRoute.POST request
  end.

(** The world after serving [ops] one after the other. *)
Fixpoint serveAll `{Env} (ops : list Operation) (w : World) : World :=
  match ops with
  | [] => w
  | op :: rest => serveAll rest (snd (serve op w))
  end.

(** Requests as the client builds them ([components/KnowledgeUploader]). *)
Definition jsonRequest (v : JsValue) : Request :=
  {| request_json := Returned v;
     request_formData := Threw (JsError (lit "Content-Type was not multipart/form-data")) |}.

Definition textRequest (text : JsString) : Request :=
  jsonRequest (JObj [(lit "text", JStr text)]).

Definition queryRequest (query : JsString) : Request :=
  jsonRequest (JObj [(lit "query", JStr query)]).

Definition youtubeRequest (url : JsString) : Request :=
  jsonRequest (JObj [(lit "url", JStr url)]).

Definition uploadRequest (text : JsString) : Request :=
  {| request_json := Threw (JsError (lit "Unexpected token in JSON"));
     request_formData := Returned [(lit "file", FormFile {| file_text := text |})] |}.

(* ------------------------------------------------------------------ *)
(** ** services/hume.ts and app/api/hume/token/route.ts *)

(** What the token service calls but does not define: the environment
    variables of the server process ([process.env.NAME] is a string, or
    [undefined]) and [fetchAccessToken] of the [hume] package, settled. *)
Class HumeSdk `{Env} : Type := {
  process_env : JsString -> option JsString;
  fetchAccessToken : JsString -> JsString -> Ext -> Outcome JsString * Ext
}.

(** A response whose body is given as JSON. *)
Record JsonResponse := { json_status : N; json_body : JsValue }.

Module Hume.

(** [fetchAccessToken({ apiKey, secretKey })] as an action on the world. *)
Definition call_fetchAccessToken `{HumeSdk} (apiKey secretKey : JsString) : M JsString :=
  fun w =>
    let '(o, e') := fetchAccessToken apiKey secretKey (ext w) in
    (o, {| vectorStorePromise := vectorStorePromise w; heap := heap w;
           ext := e'; calls := calls w |}).

(** services/hume.ts *)
Definition getHumeAccessToken `{HumeSdk} : M JsString :=
  let apiKey := option_map JStr (process_env (lit "HUME_API_KEY")) in
  let secretKey := option_map JStr (process_env (lit "HUME_SECRET_KEY")) in
  if negb (truthy apiKey) || negb (truthy secretKey)
  then throw (JsError (lit "Missing HUME_API_KEY or HUME_SECRET_KEY environment variables"))
  else
    token <- call_fetchAccessToken (asString apiKey) (asString secretKey) ;;
    ret token.

(** app/api/hume/token/route.ts *)
Definition GET `{HumeSdk} : World -> JsonResponse * World :=
  fun w =>
    match getHumeAccessToken w with
    | (Returned token, w') =>
        ({| json_status := 200; json_body := JObj [(lit "token", JStr token)] |}, w')
    | (Threw err, w') =>
        let message :=
          match err with JsError msg => msg | NonError => lit "Failed to get token" end in
        ({| json_status := 500; json_body := JObj [(lit "error", JStr message)] |}, w')
    end.

End Hume.

(* ------------------------------------------------------------------ *)
(** ** The page: components/KnowledgeUploader and components/VoiceChat

    The components run in the browser.  A handler is read at the state it
    leaves once it has run to its end (or thrown), with no other event of
    the page in between; the values it reads from the component ([file],
    [query], ...) are those of the render it was created in. *)

Inductive Method := MethodGET | MethodPOST.

(** The body of a request: none, [JSON.stringify] of an object whose
    properties are strings, or a [FormData]. *)
Inductive RequestBody :=
| NoBody
| JsonBody (fields : list (JsString * JsString))
| FormDataBody (form : list (JsString * FormValue)).

(** The second argument of [fetch]. *)
Record RequestInit := {
  method : Method;
  init_body : RequestBody;
  contentType : option JsString
}.

(** [fetch(url)] without a second argument. *)
Definition noInit : RequestInit :=
  {| method := MethodGET; init_body := NoBody; contentType := None |}.

(** [{ method: "POST", body: JSON.stringify(fields),
       headers: { "Content-Type": "application/json" } }] *)
Definition postJson (fields : list (JsString * JsString)) : RequestInit :=
  {| method := MethodPOST; init_body := JsonBody fields;
     contentType := Some (lit "application/json") |}.

(** [{ method: "POST", body: fd }] *)
Definition postForm (fd : list (JsString * FormValue)) : RequestInit :=
  {| method := MethodPOST; init_body := FormDataBody fd; contentType := None |}.

(** What the page calls but does not define.  [Net] is everything outside
    the page: the network, the server behind it, the voice service. *)
Class Browser : Type := {
  Net : Type;
  (** the browser's [fetch(url, init)], settled *)
  window_fetch : JsString -> RequestInit -> Net -> Outcome FetchResponse * Net;
  (** [connect({ auth: { type: "accessToken", value } })] of [useVoice()] *)
  voice_connect : option JsValue -> Net -> Outcome unit * Net;
  (** the message of the [TypeError] for reading a property of [null] *)
  nullReadMessage : JsString -> JsString
}.

(** A mounted component: its state, the outside, and what it did so far
    (most recent first).  The three logs are ghost state. *)
Record Page `{Browser} (S : Type) : Type := {
  component : S;
  net : Net;
  requests : list (JsString * RequestInit);
  connections : list (option JsValue);
  console_error : list Thrown
}.

(** [String(v)] with [undefined], as in a template literal. *)
Definition templateString `{Env} (v : option JsValue) : Outcome JsString :=
  match v with
  | None => Returned (lit "undefined")
  | Some x => ToString x
  end.

(** [v || d] *)
Definition orElse (v : option JsValue) (d : JsValue) : JsValue :=
  match v with
  | Some x => if truthy v then x else d
  | None => d
  end.

Module Client.

Definition CM `{Browser} (S A : Type) : Type := Page S -> Outcome A * Page S.

Definition ret `{Browser} {S A} (a : A) : CM S A := fun p => (Returned a, p).

Definition throw `{Browser} {S A} (e : Thrown) : CM S A := fun p => (Threw e, p).

Definition bind `{Browser} {S A B} (m : CM S A) (k : A -> CM S B) : CM S B :=
  fun p =>
    match m p with
    | (Returned a, p') => k a p'
    | (Threw e, p') => (Threw e, p')
    end.

Definition await `{Browser} {S A} (o : Outcome A) : CM S A :=
  match o with
  | Returned a => ret a
  | Threw e => throw e
  end.

(** The values of the current render. *)
Definition getState `{Browser} {S} : CM S S := fun p => (Returned (component p), p).

(** A [useState] setter. *)
Definition setState `{Browser} {S} (f : S -> S) : CM S unit :=
  fun p =>
    (Returned tt,
     {| component := f (component p); net := net p; requests := requests p;
        connections := connections p; console_error := console_error p |}).

(** [fetch(url, init)] *)
Definition fetch `{Browser} {S} (url : JsString) (init : RequestInit) : CM S FetchResponse :=
  fun p =>
    let '(o, n') := window_fetch url init (net p) in
    (o, {| component := component p; net := n';
           requests := (url, init) :: requests p;
           connections := connections p; console_error := console_error p |}).

(** [connect({ auth: { type: "accessToken", value } })] *)
Definition connect `{Browser} {S} (value : option JsValue) : CM S unit :=
  fun p =>
    let '(o, n') := voice_connect value (net p) in
    (o, {| component := component p; net := n'; requests := requests p;
           connections := value :: connections p; console_error := console_error p |}).

(** [console.error(e)] *)
Definition consoleError `{Browser} {S} (e : Thrown) : CM S unit :=
  fun p =>
    (Returned tt,
     {| component := component p; net := net p; requests := requests p;
        connections := connections p; console_error := e :: console_error p |}).

(** [json.name]: reading a property of [null] throws. *)
Definition get `{Browser} {S} (json : JsValue) (name : JsString) : CM S (option JsValue) :=
  match json with
  | JNull => throw (JsError (nullReadMessage name))
  | _ => ret (property name json)
  end.

(** [try { body } catch (e) { handler(e) } finally { finalizer }] *)
Definition tryCatchFinally `{Browser} {S}
           (body : CM S unit) (handler : Thrown -> CM S unit) (finalizer : CM S unit)
  : CM S unit :=
  fun p =>
    let '(o, p1) :=
      match body p with
      | (Returned u, p') => (Returned u, p')
      | (Threw e, p') => handler e p'
      end in
    match finalizer p1 with
    | (Returned _, p2) => (o, p2)
    | (Threw e, p2) => (Threw e, p2)
    end.

End Client.

Declare Scope client_scope.
Delimit Scope client_scope with client.
Notation "x <- m ;; k" := (Client.bind m (fun x => k))
  (at level 100, m at next level, right associativity) : client_scope.
Notation "m ;;; k" := (Client.bind m (fun _ => k))
  (at level 100, right associativity) : client_scope.

(** components/KnowledgeUploader.tsx *)
Module KnowledgeUploader.

Record State := {
  file : option File;
  youtubeUrl : JsString;
  pastedText : JsString;
  query : JsString;
  results : JsValue;
  status : JsValue
}.

(** The state of the first render. *)
Definition initialState : State :=
  {| file := None; youtubeUrl := []; pastedText := []; query := [];
     results := JArr []; status := JStr [] |}.

Definition setPastedText `{Browser} (v : JsString) : Client.CM State unit :=
  Client.setState (fun s =>
    {| file := file s; youtubeUrl := youtubeUrl s; pastedText := v; query := query s;
       results := results s; status := status s |}).

Definition setResults `{Browser} (v : JsValue) : Client.CM State unit :=
  Client.setState (fun s =>
    {| file := file s; youtubeUrl := youtubeUrl s; pastedText := pastedText s;
       query := query s; results := v; status := status s |}).

Definition setStatus `{Browser} (v : JsValue) : Client.CM State unit :=
  Client.setState (fun s =>
    {| file := file s; youtubeUrl := youtubeUrl s; pastedText := pastedText s;
       query := query s; results := results s; status := v |}).

(** [resp.ok ? `Added ${json.added} chunks` : json.error || fallback], the
    argument of the last [setStatus] of the three ingestion handlers. *)
Definition addedOrError `{Env} `{Browser} (resp : FetchResponse) (json : JsValue)
           (fallback : string) : Client.CM State JsValue :=
  (if ok resp then
     added <- Client.get json (lit "added") ;;
     count <- Client.await (templateString added) ;;
     Client.ret (JStr (lit "Added " ++ count ++ lit " chunks"))
   else
     error <- Client.get json (lit "error") ;;
     Client.ret (orElse error (JStr (lit fallback))))%client.

Definition uploadFile `{Env} `{Browser} : Client.CM State unit :=
  (st <- Client.getState ;;
   match file st with
   | None => Client.ret tt
   | Some f =>
       setStatus (JStr (lit "Uploading...")) ;;;
       let fd := [(lit "file", FormFile f)] in
       resp <- Client.fetch (lit "/api/ingest/upload") (postForm fd) ;;
       json <- Client.await (resp_json resp) ;;
       message <- addedOrError resp json "Upload failed" ;;
       setStatus message
   end)%client.

Definition addYouTube `{Env} `{Browser} : Client.CM State unit :=
  (st <- Client.getState ;;
   if negb (truthy (Some (JStr (youtubeUrl st)))) then Client.ret tt
   else
     setStatus (JStr (lit "Fetching transcript...")) ;;;
     resp <- Client.fetch (lit "/api/ingest/youtube")
                          (postJson [(lit "url", youtubeUrl st)]) ;;
     json <- Client.await (resp_json resp) ;;
     message <- addedOrError resp json "YouTube ingest failed" ;;
     setStatus message)%client.

Definition addText `{Env} `{Browser} : Client.CM State unit :=
  (st <- Client.getState ;;
   if negb (truthy (Some (JStr (trim (pastedText st))))) then Client.ret tt
   else
     setStatus (JStr (lit "Adding text...")) ;;;
     resp <- Client.fetch (lit "/api/ingest/text")
                          (postJson [(lit "text", pastedText st)]) ;;
     json <- Client.await (resp_json resp) ;;
     message <- addedOrError resp json "Text ingest failed" ;;
     setStatus message ;;;
     if ok resp then setPastedText [] else Client.ret tt)%client.

Definition runQuery `{Env} `{Browser} : Client.CM State unit :=
  (st <- Client.getState ;;
   if negb (truthy (Some (JStr (query st)))) then Client.ret tt
   else
     setStatus (JStr (lit "Searching...")) ;;;
     resp <- Client.fetch (lit "/api/query") (postJson [(lit "query", query st)]) ;;
     json <- Client.await (resp_json resp) ;;
     if ok resp then
       found <- Client.get json (lit "results") ;;
       setResults (orElse found (JArr [])) ;;;
       setStatus (JStr [])
     else
       error <- Client.get json (lit "error") ;;
       setStatus (orElse error (JStr (lit "Query failed"))))%client.

(** The four buttons of the component. *)
Inductive Button := Upload | Add | AddText | Search.

Definition onClick `{Env} `{Browser} (b : Button) : Client.CM State unit :=
  match b with
  | Upload => uploadFile
  | Add => addYouTube
  | AddText => addText
  | Search => runQuery
  end.

End KnowledgeUploader.

(** components/VoiceChat.tsx *)
Module VoiceChat.

Record State := { loading : bool }.

Definition setLoading `{Browser} (v : bool) : Client.CM State unit :=
  Client.setState (fun _ => {| loading := v |}).

(** [start] of [StartStop].  [new Error(m)] has the message [String(m)]. *)
Definition start `{Env} `{Browser} : Client.CM State unit :=
  (setLoading true ;;;
   Client.tryCatchFinally
     (resp <- Client.fetch (lit "/api/hume/token") noInit ;;
      json <- Client.await (resp_json resp) ;;
      (if negb (ok resp) then
         error <- Client.get json (lit "error") ;;
         message <- Client.await (ToString (orElse error (JStr (lit "Failed to get token")))) ;;
         Client.throw (JsError message)
       else Client.ret tt) ;;;
      token <- Client.get json (lit "token") ;;
      Client.connect token)
     (fun e => Client.consoleError e)
     (setLoading false))%client.

End VoiceChat.

(* ------------------------------------------------------------------ *)
(** ** The vector index of the specification

    The store behind [HNSWLib] and the embedder behind [OpenAIEmbeddings]
    are third-party code.  The definitions of this part follow the
    specification's sections 3, 4.2, 4.3 and 4.4 instead. *)

Module VectorIndex.

(** Modelled from the spec: HNSWLib's vector arithmetic is absent; an
    EmbeddingVector is an ordered sequence of floating-point numbers. *)
Definition Vec := list float.

(** Modelled from the spec: HNSWLib's distance is absent; the dot product
    of two vectors. *)
Definition dot (a b : Vec) : float :=
  fold_left (fun acc p => (acc + fst p * snd p)%float) (combine a b) 0%float.

(** Modelled from the spec: HNSWLib's distance is absent; the magnitude of
    a vector. *)
Definition magnitude (a : Vec) : float := PrimFloat.sqrt (dot a a).

(** Modelled from the spec: HNSWLib's distance is absent; cosine similarity
    is the dot product divided by the product of the magnitudes. *)
Definition cosineSimilarity (a b : Vec) : float :=
  (dot a b / (magnitude a * magnitude b))%float.

(** Modelled from the spec: HNSWLib's records are absent; an IndexRecord is
    [{ id, vector, chunk }]. *)
Record IndexRecord := { id : nat; vector : Vec; chunk : Document }.

(** Modelled from the spec: HNSWLib's results are absent; a SearchResult is
    [{ chunk, score }]. *)
Record SearchResult := { result_chunk : Document; score : float }.

(** Modelled from the spec: the error kinds of section 7; an embedding
    failure is annotated with the offending chunk index when there is one. *)
Inductive CoreError :=
| InvalidConfig
| EmptyInput
| DimensionMismatch
| EmbeddingFailure (chunkIndex : option nat)
| UpstreamTimeout.

(** Modelled from the spec: HNSWLib's storage is absent; the index owns an
    ordered collection of records, insertion order = id order. *)
Definition t := list IndexRecord.

(** Modelled from the spec: HNSWLib's dimension check is absent; the first
    inserted vector fixes the dimension. *)
Definition dimension (idx : t) : option nat :=
  match idx with
  | [] => None
  | r :: _ => Some (length (vector r))
  end.

(** Modelled from the spec: HNSWLib's dimension check is absent; a vector
    fits when its length agrees with the established dimension. *)
Definition fits (v : Vec) (idx : t) : bool :=
  match dimension idx with
  | None => true
  | Some d => Nat.eqb (length v) d
  end.

(** Modelled from the spec: HNSWLib's insertion is absent; [add] appends,
    assigns the next sequential id and never rejects on duplicate content. *)
Definition add (v : Vec) (c : Document) (idx : t) : CoreError + t :=
  if fits v idx
  then inr (idx ++ [{| id := length idx; vector := v; chunk := c |}])
  else inl DimensionMismatch.

(** Modelled from the spec: HNSWLib's insertion is absent; [addBatch] is
    repeated [add]. *)
Fixpoint addBatch (pairs : list (Vec * Document)) (idx : t) : option CoreError * t :=
  match pairs with
  | [] => (None, idx)
  | (v, c) :: rest =>
      match add v c idx with
      | inl e => (Some e, idx)
      | inr idx' => addBatch rest idx'
      end
  end.

(** Modelled from the spec: HNSWLib's ordering is absent; descending
    score, ties broken by ascending insertion id. *)
Definition ranksBefore (a b : IndexRecord * float) : bool :=
  (snd b <? snd a)%float
  || ((snd a =? snd b)%float && Nat.ltb (id (fst a)) (id (fst b))).

(** Modelled from the spec: HNSWLib's ordering is absent; insertion into a
    ranking, after every entry that ranks before the new one. *)
Fixpoint insertRanked (x : IndexRecord * float) (l : list (IndexRecord * float))
  : list (IndexRecord * float) :=
  match l with
  | [] => [x]
  | y :: rest => if ranksBefore y x then y :: insertRanked x rest else x :: l
  end.

(** Modelled from the spec: HNSWLib's search is absent; every stored vector
    is scored against the query and the records are sorted by descending
    score, ties by ascending id. *)
Definition rank (q : Vec) (idx : t) : list (IndexRecord * float) :=
  fold_right insertRanked [] (map (fun r => (r, cosineSimilarity q (vector r))) idx).

(** Modelled from the spec: HNSWLib's results are absent; the result of a
    ranked record. *)
Definition toResult (p : IndexRecord * float) : SearchResult :=
  {| result_chunk := chunk (fst p); score := snd p |}.

(** Modelled from the spec: HNSWLib's search is absent; [search] returns
    the top [k] of the ranking, and fails with DimensionMismatch on a query
    whose length disagrees with the index's dimension. *)
Definition search (q : Vec) (k : nat) (idx : t) : CoreError + list SearchResult :=
  if fits q idx
  then inr (map toResult (firstn k (rank q idx)))
  else inl DimensionMismatch.

(** Ids are the positions of insertion. *)
Definition wellFormed (idx : t) : Prop := map id idx = seq 0 (length idx).

(** No score of the ranking is NaN (a zero vector has no cosine). *)
Definition scoresDefined (q : Vec) (idx : t) : bool :=
  forallb (fun r => negb (PrimFloat.is_nan (cosineSimilarity q (vector r)))) idx.

End VectorIndex.

(** The collaborators the specification leaves open: the splitter, the
    embedder (a failure is [None]), the wording of error messages, the
    network and the engine. *)
Record Capabilities := {
  cap_split : SplitterParams -> list JsString -> list Document;
  cap_embed : JsString -> option VectorIndex.Vec;
  cap_describe : VectorIndex.CoreError -> JsString;
  cap_fetch : JsString -> Outcome FetchResponse;
  cap_numberToString : float -> JsString;
  cap_engineMessage : EngineFault -> JsString
}.

Module SpecStore.

(** Modelled from the spec: HNSWLib.addDocuments is absent; the embedder is
    called once per chunk, and the first failure is reported with the
    index of its chunk. *)
Fixpoint embedAll (embed : JsString -> option VectorIndex.Vec) (i : nat)
         (docs : list Document) : nat + list (VectorIndex.Vec * Document) :=
  match docs with
  | [] => inr []
  | d :: rest =>
      match embed (pageContent d) with
      | None => inl i
      | Some v =>
          match embedAll embed (S i) rest with
          | inl j => inl j
          | inr pairs => inr ((v, d) :: pairs)
          end
      end
  end.

(** Modelled from the spec: HNSWLib.addDocuments is absent; ingestion
    embeds every chunk and then calls [addBatch] with the paired results. *)
Definition addDocuments (c : Capabilities) (idx : VectorIndex.t) (docs : list Document)
  : Outcome unit * VectorIndex.t :=
  match embedAll (cap_embed c) 0 docs with
  | inl i => (Threw (JsError (cap_describe c (VectorIndex.EmbeddingFailure (Some i)))), idx)
  | inr pairs =>
      match VectorIndex.addBatch pairs idx with
      | (None, idx') => (Returned tt, idx')
      | (Some e, idx') => (Threw (JsError (cap_describe c e)), idx')
      end
  end.

(** Modelled from the spec: HNSWLib.similaritySearch is absent; [k] is a
    positive integer, here read off the number the route passes. *)
Definition toCount (k : JsValue) : option nat :=
  match k with
  | JNum x =>
      match Prim2SF x with
      | S754_finite false m e =>
          if (0 <=? e)%Z then Some (Z.to_nat (Z.pos m * 2 ^ e))
          else if (Z.pos m mod 2 ^ (- e) =? 0)%Z
               then Some (Z.to_nat (Z.pos m / 2 ^ (- e)))
               else None
      | _ => None
      end
  | _ => None
  end.

(** Modelled from the spec: HNSWLib.similaritySearch is absent; the query
    text is embedded once and the index searched.  The route's response
    keeps the chunks. *)
Definition similaritySearch (c : Capabilities) (idx : VectorIndex.t) (query k : JsValue)
  : Outcome (list Document) :=
  match query, toCount k with
  | JStr text, Some n =>
      match cap_embed c text with
      | None => Threw (JsError (cap_describe c (VectorIndex.EmbeddingFailure None)))
      | Some q =>
          match VectorIndex.search q n idx with
          | inl e => Threw (JsError (cap_describe c e))
          | inr results => Returned (map VectorIndex.result_chunk results)
          end
      end
  | _, _ => Threw NonError
  end.

End SpecStore.

(** Modelled from the spec: HNSWLib and OpenAIEmbeddings are absent; the
    environment in which the store is the specification's index,
    [HNSWLib.fromDocuments(docs)] is ingestion into the empty index, and the
    embedder is [cap_embed]. *)
Definition specEnv (c : Capabilities) : Env :=
  {| Ext := unit;
     Embeddings := unit;
     HNSWLib := VectorIndex.t;
     createDocuments := cap_split c;
     newOpenAIEmbeddings := fun e => (Returned tt, e);
     HNSWLib_fromDocuments := fun docs _ e =>
       (match SpecStore.addDocuments c [] docs with
        | (Returned _, idx) => Returned idx
        | (Threw err, _) => Threw err
        end, e);
     HNSWLib_addDocuments := fun idx docs e => (SpecStore.addDocuments c idx docs, e);
     HNSWLib_similaritySearch := fun idx query k e =>
       (SpecStore.similaritySearch c idx query k, idx, e);
     fetch := fun url e => (cap_fetch c url, e);
     Number_toString := cap_numberToString c;
     engineMessage := cap_engineMessage c |}.

(** The records of the process's index; none before the index exists. *)
Definition indexRecords (c : Capabilities) (w : @World (specEnv c)) : VectorIndex.t :=
  match @heap (specEnv c) w with
  | [] => []
  | idx :: _ => idx
  end.
Arguments indexRecords c w : clear implicits.

(** Test doubles: every non-blank text is one chunk, every text embeds to
    the vector [1, 0], and the network is down. *)
Definition demoCapabilities : Capabilities :=
  {| cap_split := fun _ texts =>
       map (fun t => {| pageContent := t; metadata := [] |})
           (filter (fun t => negb (N.of_nat (length (trim t)) =? 0)%N) texts);
     cap_embed := fun _ => Some [1%float; 0%float];
     cap_describe := fun e =>
       match e with
       | VectorIndex.InvalidConfig => lit "InvalidConfig"
       | VectorIndex.EmptyInput => lit "EmptyInput"
       | VectorIndex.DimensionMismatch => lit "DimensionMismatch"
       | VectorIndex.EmbeddingFailure None => lit "EmbeddingFailure"
       | VectorIndex.EmbeddingFailure (Some i) =>
           lit "EmbeddingFailure at chunk " ++ lit (NilEmpty.string_of_uint (Nat.to_uint i))
       | VectorIndex.UpstreamTimeout => lit "UpstreamTimeout"
       end;
     cap_fetch := fun _ => Threw (JsError (lit "fetch failed"));
     cap_numberToString := fun _ => lit "0";
     cap_engineMessage := fun _ => lit "TypeError" |}.

(** The demonstration process, and its world as the process starts. *)
Definition demoEnv : Env := specEnv demoCapabilities.

(** As [demoCapabilities], with a splitter that cuts at every ['|'] and an
    embedder that fails on the chunk ["bad"]. *)
Fixpoint splitAtBar (current : JsString) (s : JsString) : list JsString :=
  match s with
  | [] => [rev current]
  | x :: rest =>
      if (x =? ch "|")%N then rev current :: splitAtBar [] rest
      else splitAtBar (x :: current) rest
  end.

Definition flakyCapabilities : Capabilities :=
  {| cap_split := fun _ texts =>
       map (fun t => {| pageContent := t; metadata := [] |})
           (flat_map (splitAtBar []) texts);
     cap_embed := fun t => if str_eqb t (lit "bad") then None else Some [1%float; 0%float];
     cap_describe := cap_describe demoCapabilities;
     cap_fetch := cap_fetch demoCapabilities;
     cap_numberToString := cap_numberToString demoCapabilities;
     cap_engineMessage := cap_engineMessage demoCapabilities |}.

Definition demoWorld : @World demoEnv := @initialWorld demoEnv tt.

(** The demonstration process after one pasted text. *)
Definition demoWorldWithHello : @World demoEnv :=
  snd (@TextRoute.POST demoEnv (textRequest (lit "hello")) demoWorld).

(** With the service answering, the fetcher succeeds: two captions, a stray
    number and a caption whose text is null give ["a b  "]. *)
Definition onlineCapabilities : Capabilities :=
  {| cap_split := cap_split demoCapabilities;
     cap_embed := cap_embed demoCapabilities;
     cap_describe := cap_describe demoCapabilities;
     cap_fetch := fun _ =>
       Returned {| ok := true;
                   resp_json := Returned (JArr [JObj [(lit "text", JStr (lit "a"))];
                                                JObj [(lit "text", JStr (lit "b"))];
                                                JNum 5%float;
                                                JObj [(lit "text", JNull)]]) |};
     cap_numberToString := cap_numberToString demoCapabilities;
     cap_engineMessage := cap_engineMessage demoCapabilities |}.

(** A chunk with the content [name] and no metadata. *)
Definition chunkNamed (name : string) : Document :=
  {| pageContent := lit name; metadata := [] |}.

(** Three records: [1, 0], then [2, 0], then [1, 0] again. *)
Definition exampleIndex : VectorIndex.t :=
  snd (VectorIndex.addBatch
         [([1%float; 0%float], chunkNamed "first");
          ([2%float; 0%float], chunkNamed "second");
          ([1%float; 0%float], chunkNamed "third")] []).

(* ------------------------------------------------------------------ *)
(** * The vocabulary of the properties *)

(** *** Hoare triples and the invariant of the process *)

(** [hoare P m Q R]: from a world in [P], [m] returns [a] in a world in
    [Q a], or throws [e] in a world in [R e]. *)
Definition hoare `{Env} {A} (P : World -> Prop) (m : M A)
           (Q : A -> World -> Prop) (R : Thrown -> World -> Prop) : Prop :=
  forall w, P w ->
    match m w with
    | (Returned a, w') => Q a w'
    | (Threw e, w') => R e w'
    end.

(** A call to a store object is a call to the object at reference 0. *)
Definition onTheStore (c : Call) : Prop :=
  match c with
  | CallAddDocuments r _ => r = 0
  | CallSimilaritySearch r _ _ => r = 0
  | _ => True
  end.

(** The calls that create a store, and the calls that touch one. *)
Definition isCreation (c : Call) : bool :=
  match c with CallFromDocuments _ => true | _ => false end.

Definition isStoreCall (c : Call) : bool :=
  match c with CallFetch _ => false | _ => true end.

(** How many times [HNSWLib.fromDocuments] was called. *)
Definition creations `{Env} (w : World) : nat := length (filter isCreation (calls w)).

(** The invariant of the process.  While the variable is null no store
    exists and no store was called; a fulfilled promise refers to the only
    store there is; a rejected one carries what [HNSWLib.fromDocuments]
    threw.  Every store call went to the store at reference 0. *)
Record Inv `{Env} (w : World) : Prop := {
  inv_state :
    match vectorStorePromise w with
    | None => heap w = [] /\ filter isStoreCall (calls w) = []
    | Some (Fulfilled r) => r = 0 /\ length (heap w) = 1 /\ creations w = 1
    | Some (Rejected err) =>
        heap w = [] /\ creations w = 1
        /\ exists emb e1 e2, HNSWLib_fromDocuments [] emb e1 = (Threw err, e2)
    end;
  inv_calls : Forall onTheStore (calls w)
}.

(** [w] still holds the promise that [o] held. *)
Definition Keeps `{Env} (o : option Promise) (w : World) : Prop :=
  forall p, o = Some p -> vectorStorePromise w = Some p.

(** The invariant, together with the promise that [o] held. *)
Definition Inv' `{Env} (o : option Promise) (w : World) : Prop := Inv w /\ Keeps o w.

(** *** The ingestion tail and the claims about validation *)

(** The searches and the insertions of a log. *)
Definition isSearch (c : Call) : bool :=
  match c with CallSimilaritySearch _ _ _ => true | _ => false end.

Definition isAdd (c : Call) : bool :=
  match c with CallAddDocuments _ _ => true | _ => false end.

(** The tail shared by the three ingestion routes. *)
Definition ingest `{Env} (text : JsString) : M Response :=
  docs <- Langchain.splitToDocuments text ;;
  Langchain.addDocumentsToStore docs ;;;
  ret (json200 (AddedBody (length docs))).

(** What a successful ingestion of [text] answers and leaves in the log. *)
Definition ingested `{Env} (text : JsString) (r : Response) (w' : World) : Prop :=
  let docs := createDocuments {| chunkSize := 1000; chunkOverlap := 200 |} [text] in
  r = json200 (AddedBody (length docs))
  /\ exists ref, hd_error (calls w') = Some (CallAddDocuments ref docs).

(** C1 as the specification states it, for the query text [text] arriving in
    world [w]: a text that is empty after trimming is answered with the
    validation error and no search is made. *)
Definition blank_query_is_rejected `{Env} (w : World) (text : JsString) : Prop :=
  trim text = [] ->
  let (r, w') := QueryRoute.POST (queryRequest text) w in
  status r = 400%N /\ filter isSearch (calls w') = filter isSearch (calls w).

(** C4 as the specification states it, for the text [text] arriving in world
    [w] through the entry point [entry]: a text that is empty after trimming
    is answered with the validation error and nothing is handed to the
    store. *)
Definition blank_ingest_is_rejected `{Env} (entry : JsString -> Operation)
           (w : World) (text : JsString) : Prop :=
  trim text = [] ->
  let (r, w') := serve (entry text) w in
  status r = 400%N /\ filter isAdd (calls w') = filter isAdd (calls w).

(** C3 as the specification states it, for [request] arriving in world [w]:
    every element of a successful query's results carries a numeric score. *)
Definition results_carry_scores `{Env} (request : Request) (w : World) : Prop :=
  match body (fst (QueryRoute.POST request w)) with
  | ResultsBody docs =>
      Forall (fun d => exists x, property (lit "score") (documentJSON d) = Some (JNum x)) docs
  | _ => True
  end.

(** *** The transcript fetcher *)

(** [url] holds [?v=] or [&v=] followed by a code unit other than [&]. *)
Definition HasVParam (url : JsString) : Prop :=
  exists pre c x post,
    url = pre ++ c :: lit "v=" ++ x :: post
    /\ (c = ch "?" \/ c = ch "&") /\ x <> ch "&".

(** [url] holds [youtu.be/] followed by a code unit other than [?]. *)
Definition HasShortPath (url : JsString) : Prop :=
  exists pre x post, url = pre ++ lit "youtu.be/" ++ x :: post /\ x <> ch "?".

(** Whether the first pattern matches at the very start of [s]. *)
Definition v_param_here (s : JsString) : Prop :=
  exists c x post, s = c :: lit "v=" ++ x :: post /\ (c = ch "?" \/ c = ch "&") /\ x <> ch "&".

(** Whether the second pattern matches at the very start of [s]. *)
Definition short_path_here (s : JsString) : Prop :=
  exists x post, s = lit "youtu.be/" ++ x :: post /\ x <> ch "?".

(** Whether [String(v)] throws: [v] is an object with a property
    [toString] of its own, or an array that holds such a value. *)
Fixpoint unprintable (v : JsValue) : bool :=
  match v with
  | JArr items => existsb unprintable items
  | JObj fields =>
      match lookup (lit "toString") fields with
      | Some _ => true
      | None => false
      end
  | _ => false
  end.

(** C10 as the specification states it, for [url] arriving in world [w]: the
    fetcher fails exactly when no video id can be extracted, the service
    responds non-ok, or the body of its response is not an array. *)
Definition claimed_failure `{Env} (url : JsString) (w : World) : Prop :=
  YoutubeRoute.videoIdOf url = None
  \/ exists id resp e',
      YoutubeRoute.videoIdOf url = Some id
      /\ fetch (YoutubeRoute.transcriptUrl id) (ext w) = (Returned resp, e')
      /\ (ok resp = false \/ forall items, resp_json resp <> Returned (JArr items)).

Definition fails_exactly_as_claimed `{Env} (url : JsString) (w : World) : Prop :=
  (exists err w', YoutubeRoute.fetchTranscriptFromYouTube (JStr url) w = (Threw err, w'))
  <-> claimed_failure url w.

(** *** The order of scores and the ranking *)

(** A binary64 number that is not NaN, as a key in [Z * Z * Z]: its class
    and sign, then exponent, then mantissa.  Both zeros share a key. *)
Definition floatKey (x : spec_float) : Z * Z * Z :=
  match x with
  | S754_zero _ => (0, 0, 0)%Z
  | S754_infinity false => (2, 0, 0)%Z
  | S754_infinity true => (-2, 0, 0)%Z
  | S754_nan => (0, 0, 0)%Z
  | S754_finite false m e => (1, e, Z.pos m)%Z
  | S754_finite true m e => (-1, - e, Z.neg m)%Z
  end.

(** Keys are ordered lexicographically. *)
Definition keyLt (a b : Z * Z * Z) : Prop :=
  let '(a1, a2, a3) := a in
  let '(b1, b2, b3) := b in
  (a1 < b1 \/ (a1 = b1 /\ (a2 < b2 \/ (a2 = b2 /\ a3 < b3))))%Z.

Definition scoreKey (x : float) : Z * Z * Z := floatKey (Prim2SF x).

Module Ranking.

Import VectorIndex.

(** An entry of a ranking: a record and its score. *)
Definition Entry : Type := IndexRecord * float.

(** The score of an entry is a number. *)
Definition wellScored (e : Entry) : Prop := PrimFloat.is_nan (snd e) = false.

(** [ranksBefore] read on keys. *)
Definition Before (a b : Entry) : Prop :=
  keyLt (scoreKey (snd b)) (scoreKey (snd a))
  \/ (scoreKey (snd a) = scoreKey (snd b) /\ id (fst a) < id (fst b)).

(** The order a ranking is sorted by. *)
Definition Ranked (a b : Entry) : Prop := ranksBefore a b = true.

(** A record with its cosine similarity to the query [q]. *)
Definition scored (q : Vec) (r : IndexRecord) : Entry := (r, cosineSimilarity q (vector r)).

End Ranking.

(** Whether the records with ids [i] and [j] stand next to each other. *)
Fixpoint adjacentIds (i j : nat) (l : list (VectorIndex.IndexRecord * float)) : bool :=
  match l with
  | x :: rest =>
      match rest with
      | y :: _ =>
          (Nat.eqb (VectorIndex.id (fst x)) i && Nat.eqb (VectorIndex.id (fst y)) j)
          || (Nat.eqb (VectorIndex.id (fst x)) j && Nat.eqb (VectorIndex.id (fst y)) i)
          || adjacentIds i j rest
      | [] => false
      end
  | [] => false
  end.

(** C2 as the specification states it, for the query [q], the bound [k] and
    the index [idx]: the ranking behind the results is sorted by descending
    score, ties by ascending id, and any two of its records holding
    identical vectors have equal scores and stand next to each other. *)
Definition ranking_as_claimed (q : VectorIndex.Vec) (k : nat) (idx : VectorIndex.t) : Prop :=
  let ranked := firstn k (VectorIndex.rank q idx) in
  StronglySorted Ranking.Ranked ranked
  /\ forall a b,
      In a ranked -> In b ranked ->
      VectorIndex.id (fst a) <> VectorIndex.id (fst b) ->
      VectorIndex.vector (fst a) = VectorIndex.vector (fst b) ->
      PrimFloat.eqb (snd a) (snd b) = true
      /\ adjacentIds (VectorIndex.id (fst a)) (VectorIndex.id (fst b)) ranked = true.

(** *** The process over the specification's index *)

(** Every vector of a batch has length [d]. *)
Definition allFit (d : nat) (pairs : list (VectorIndex.Vec * Document)) : Prop :=
  Forall (fun p => length (fst p) = d) pairs.

(** The process can use its index: the variable is null and nothing is
    allocated, or it holds the fulfilled promise of the one store. *)
Definition StoreReady (c : Capabilities) (w : @World (specEnv c)) : Prop :=
  (@vectorStorePromise (specEnv c) w = None /\ @heap (specEnv c) w = [])
  \/ (exists idx, @vectorStorePromise (specEnv c) w = Some (Fulfilled 0)
                  /\ @heap (specEnv c) w = [idx]).
Arguments StoreReady c w : clear implicits.

(** The store's answer to [addDocuments], and the index it leaves. *)
Definition added (c : Capabilities) (w : @World (specEnv c)) (docs : list Document)
  : Outcome unit * VectorIndex.t :=
  SpecStore.addDocuments c (indexRecords c w) docs.

(** *** Answers of the routes *)

(** [err instanceof Error ? err.message : fallback] *)
Definition messageOf (err : Thrown) (fallback : string) : JsString :=
  match err with
  | JsError msg => msg
  | NonError => lit fallback
  end.

(** The fallback message of each route. *)
Definition fallbackOf (op : Operation) : string :=
  match op with
  | IngestUpload _ => "Failed to ingest file"
  | IngestText _ => "Failed to ingest text"
  | IngestYoutube _ => "Failed to ingest YouTube"
  | Query _ => "Failed to query store"
  end.

(** The validation message of each route. *)
Definition validationMessage (op : Operation) : string :=
  match op with
  | IngestUpload _ => "No file provided"
  | IngestText _ => "Missing text"
  | IngestYoutube _ => "Missing url"
  | Query _ => "Missing query"
  end.

(** The input a route refuses: no [File] under [file]; a [text] that is
    not a string or is blank; a falsy [url]; a falsy [query]. *)
Definition refused (op : Operation) : Prop :=
  match op with
  | IngestUpload request =>
      exists form, request_formData request = Returned form
                   /\ forall f, form_get form (lit "file") <> Some (FormFile f)
  | IngestText request =>
      exists json, request_json request = Returned json /\ json <> JNull
                   /\ (isString (property (lit "text") json) = false
                       \/ trim (asString (property (lit "text") json)) = [])
  | IngestYoutube request =>
      exists json, request_json request = Returned json /\ json <> JNull
                   /\ truthy (property (lit "url") json) = false
  | Query request =>
      exists json, request_json request = Returned json /\ json <> JNull
                   /\ truthy (property (lit "query") json) = false
  end.

(** The shape of a response: a body with [error] comes with 400 or 500,
    [{ ok, added }] with 200 from an ingestion route, [{ results }] with 200
    from the query route. *)
Definition answerShape (op : Operation) (r : Response) : Prop :=
  match body r with
  | ErrorBody _ => status r = 400%N \/ status r = 500%N
  | AddedBody _ => status r = 200%N /\ (forall request, op <> Query request)
  | ResultsBody _ => status r = 200%N /\ (exists request, op = Query request)
  end.

(** The calls a route may make, most recent first: one insertion (for an
    ingestion) or one search (for a query); before it the creation of the
    store, from no documents; before that, for a YouTube ingestion, one
    request to the transcript service with a non-empty video id.  Each of
    the three may be absent. *)
Definition skipIf (p : Call -> bool) (l : list Call) : list Call :=
  match l with
  | c :: rest => if p c then rest else l
  | [] => []
  end.

Definition isLastCall (op : Operation) (c : Call) : bool :=
  match c, op with
  | CallAddDocuments _ _, Query _ => false
  | CallAddDocuments _ _, _ => true
  | CallSimilaritySearch _ _ _, Query _ => true
  | _, _ => false
  end.

Definition isEmptyCreation (c : Call) : bool :=
  match c with CallFromDocuments [] => true | _ => false end.

Definition isTranscriptFetch (op : Operation) (c : Call) : bool :=
  match c, op with
  | CallFetch url, IngestYoutube _ =>
      match stripPrefix (lit "https://youtubetranscriptdata.sumanjay.workers.dev/?video_id=")
                        url with
      | Some (_ :: _) => true
      | _ => false
      end
  | _, _ => false
  end.

Definition callsInOrder (op : Operation) (new : list Call) : bool :=
  match skipIf (isTranscriptFetch op) (skipIf isEmptyCreation (skipIf (isLastCall op) new)) with
  | [] => true
  | _ :: _ => false
  end.

(** The log of [w] is the log of [w0] with new calls in [S] in front. *)
Definition Logged `{Env} (w0 : World) (S : list Call -> Prop) (w : World) : Prop :=
  exists new, calls w = new ++ calls w0 /\ S new.

(** The logs of [S], possibly with one more call satisfying [p]. *)
Definition andThen (p : Call -> bool) (S : list Call -> Prop) (new : list Call) : Prop :=
  S new \/ exists c old, new = c :: old /\ p c = true /\ S old.

(** No match of a pattern starts within [pre] in the string [pre ++ rest];
    [here] says that the pattern matches at the very start of a string. *)
Definition noEarlier (here : JsString -> Prop) (pre rest : JsString) : Prop :=
  forall a b, pre ++ rest = a ++ b -> length a < length pre -> ~ here b.

(** [id] is the text after the first [?v=] or [&v=] of [url] that is
    followed by a code unit other than [&], up to the next [&] or the end. *)
Definition FirstVParam (url id : JsString) : Prop :=
  exists pre sep tail,
    url = pre ++ sep :: lit "v=" ++ id ++ tail
    /\ (sep = ch "?" \/ sep = ch "&")
    /\ id <> [] /\ ~ In (ch "&") id
    /\ (tail = [] \/ exists t, tail = ch "&" :: t)
    /\ noEarlier v_param_here pre (sep :: lit "v=" ++ id ++ tail).

(** [id] is the text after the first [youtu.be/] of [url] that is followed
    by a code unit other than [?], up to the next [?] or the end. *)
Definition FirstShortPath (url id : JsString) : Prop :=
  exists pre tail,
    url = pre ++ lit "youtu.be/" ++ id ++ tail
    /\ id <> [] /\ ~ In (ch "?") id
    /\ (tail = [] \/ exists t, tail = ch "?" :: t)
    /\ noEarlier short_path_here pre (lit "youtu.be/" ++ id ++ tail).

(** A process whose OpenAI key is missing, so that [new OpenAIEmbeddings()]
    throws, and one whose native index cannot be loaded, so that
    [HNSWLib.fromDocuments] rejects. *)
Definition noKeyEnv : Env :=
  {| Ext := unit;
     Embeddings := unit;
     HNSWLib := unit;
     createDocuments := cap_split demoCapabilities;
     newOpenAIEmbeddings := fun e => (Threw (JsError (lit "OpenAI API key not found")), e);
     HNSWLib_fromDocuments := fun _ _ e => (Returned tt, e);
     HNSWLib_addDocuments := fun _ _ e => (Returned tt, tt, e);
     HNSWLib_similaritySearch := fun _ _ _ e => (Returned [], tt, e);
     fetch := fun _ e => (Threw (JsError (lit "fetch failed")), e);
     Number_toString := cap_numberToString demoCapabilities;
     engineMessage := cap_engineMessage demoCapabilities |}.

Definition noIndexEnv : Env :=
  {| Ext := unit;
     Embeddings := unit;
     HNSWLib := unit;
     createDocuments := cap_split demoCapabilities;
     newOpenAIEmbeddings := fun e => (Returned tt, e);
     HNSWLib_fromDocuments := fun _ _ e =>
       (Threw (JsError (lit "Could not import hnswlib-node")), e);
     HNSWLib_addDocuments := fun _ _ e => (Returned tt, tt, e);
     HNSWLib_similaritySearch := fun _ _ _ e => (Returned [], tt, e);
     fetch := fun _ e => (Threw (JsError (lit "fetch failed")), e);
     Number_toString := cap_numberToString demoCapabilities;
     engineMessage := cap_engineMessage demoCapabilities |}.

(** *** The token route *)

(** An environment variable that is unset or empty. *)
Definition unset `{HumeSdk} (name : string) : Prop :=
  process_env (lit name) = None \/ process_env (lit name) = Some [].

(** The demonstration process with both keys set, and with none. *)
Definition demoHume : @HumeSdk demoEnv :=
  {| process_env := fun name =>
       if str_eqb name (lit "HUME_API_KEY") then Some (lit "key")
       else if str_eqb name (lit "HUME_SECRET_KEY") then Some (lit "secret")
       else None;
     fetchAccessToken := fun apiKey secretKey e =>
       (Returned (apiKey ++ lit ":" ++ secretKey), e) |}.

Definition noKeysHume : @HumeSdk demoEnv :=
  {| process_env := fun _ => None;
     fetchAccessToken := fun apiKey secretKey e =>
       (Returned (apiKey ++ lit ":" ++ secretKey), e) |}.

(** *** The page *)

(** The request a click sends, read off the component's state; none when
    the input of the button is empty. *)
Definition requestOfClick (b : KnowledgeUploader.Button) (st : KnowledgeUploader.State)
  : option (JsString * RequestInit) :=
  match b with
  | KnowledgeUploader.Upload =>
      match KnowledgeUploader.file st with
      | Some f => Some (lit "/api/ingest/upload", postForm [(lit "file", FormFile f)])
      | None => None
      end
  | KnowledgeUploader.Add =>
      match KnowledgeUploader.youtubeUrl st with
      | [] => None
      | url => Some (lit "/api/ingest/youtube", postJson [(lit "url", url)])
      end
  | KnowledgeUploader.AddText =>
      match trim (KnowledgeUploader.pastedText st) with
      | [] => None
      | _ => Some (lit "/api/ingest/text",
                   postJson [(lit "text", KnowledgeUploader.pastedText st)])
      end
  | KnowledgeUploader.Search =>
      match KnowledgeUploader.query st with
      | [] => None
      | q => Some (lit "/api/query", postJson [(lit "query", q)])
      end
  end.

(** The message a button shows while its request is under way. *)
Definition progress (b : KnowledgeUploader.Button) : JsValue :=
  JStr (lit match b with
            | KnowledgeUploader.Upload => "Uploading..."
            | KnowledgeUploader.Add => "Fetching transcript..."
            | KnowledgeUploader.AddText => "Adding text..."
            | KnowledgeUploader.Search => "Searching..."
            end).

(** The message a button shows when the server's error is empty. *)
Definition failure (b : KnowledgeUploader.Button) : JsValue :=
  JStr (lit match b with
            | KnowledgeUploader.Upload => "Upload failed"
            | KnowledgeUploader.Add => "YouTube ingest failed"
            | KnowledgeUploader.AddText => "Text ingest failed"
            | KnowledgeUploader.Search => "Query failed"
            end).

(** [st] with another status. *)
Definition withStatus (st : KnowledgeUploader.State) (v : JsValue) : KnowledgeUploader.State :=
  {| KnowledgeUploader.file := KnowledgeUploader.file st;
     KnowledgeUploader.youtubeUrl := KnowledgeUploader.youtubeUrl st;
     KnowledgeUploader.pastedText := KnowledgeUploader.pastedText st;
     KnowledgeUploader.query := KnowledgeUploader.query st;
     KnowledgeUploader.results := KnowledgeUploader.results st;
     KnowledgeUploader.status := v |}.

(** Whether the request of a click fails before the page has a JSON object
    in hand: [fetch] rejects, the body is not JSON, or it is [null]. *)
Definition requestFails `{Browser} (rq : JsString * RequestInit) (n : Net) : Prop :=
  match fst (window_fetch (fst rq) (snd rq) n) with
  | Threw _ => True
  | Returned resp =>
      match resp_json resp with
      | Threw _ => True
      | Returned JNull => True
      | Returned _ => False
      end
  end.

(** *** The page against the server

    The page and the routes of one deployment: a request of the page is
    served by the route at its path, and the page reads the JSON that the
    route answered. *)

(** [docs.length] as a number. *)
Definition lengthNumber (n : nat) : float := PrimFloat.of_uint63 (Uint63.of_Z (Z.of_nat n)).

(** [JSON.parse(JSON.stringify(v))]: a number that is not finite comes
    back as [null], and [-0] as [0]. *)
Fixpoint throughJSON (v : JsValue) : JsValue :=
  match v with
  | JNum x =>
      if PrimFloat.is_nan x || PrimFloat.is_infinity x then JNull
      else if PrimFloat.is_zero x then JNum 0%float
      else JNum x
  | JArr items => JArr (map throughJSON items)
  | JObj fields => JObj (map (fun kv => (fst kv, throughJSON (snd kv))) fields)
  | _ => v
  end.

(** What [resp.json()] yields for [NextResponse.json(body)]. *)
Definition received (b : ResponseBody) : JsValue :=
  match b with
  | ErrorBody error => JObj [(lit "error", JStr error)]
  | AddedBody added => JObj [(lit "ok", JBool true); (lit "added", JNum (lengthNumber added))]
  | ResultsBody results =>
      JObj [(lit "results", JArr (map (fun d => throughJSON (documentJSON d)) results))]
  end.

(** [resp.ok]: the status is in the range 200-299. *)
Definition isOk (s : N) : bool := ((200 <=? s) && (s <=? 299))%N.

Definition delivered (r : Response) : FetchResponse :=
  {| ok := isOk (status r); resp_json := Returned (received (body r)) |}.

Definition deliveredJson (r : JsonResponse) : FetchResponse :=
  {| ok := isOk (json_status r); resp_json := Returned (json_body r) |}.

(** The request as the route reads it. *)
Definition arriving (init : RequestInit) : Request :=
  match init_body init with
  | JsonBody fields => jsonRequest (JObj (map (fun kv => (fst kv, JStr (snd kv))) fields))
  | FormDataBody form =>
      {| request_json := Threw (JsError (lit "Unexpected token in JSON"));
         request_formData := Returned form |}
  | NoBody =>
      {| request_json := Threw (JsError (lit "Unexpected end of JSON input"));
         request_formData := Threw (JsError (lit "Content-Type was not multipart/form-data")) |}
  end.

(** The route that serves [POST url]. *)
Definition operationOf (url : JsString) (init : RequestInit) : option Operation :=
  match method init with
  | MethodPOST =>
      if str_eqb url (lit "/api/ingest/upload") then Some (IngestUpload (arriving init))
      else if str_eqb url (lit "/api/ingest/text") then Some (IngestText (arriving init))
      else if str_eqb url (lit "/api/ingest/youtube") then Some (IngestYoutube (arriving init))
      else if str_eqb url (lit "/api/query") then Some (Query (arriving init))
      else None
  | MethodGET => None
  end.

(** The server's answer to a request of the page; a path without a route
    is answered with a page that is not JSON. *)
Definition answer `{HumeSdk} (url : JsString) (init : RequestInit) (w : World)
  : FetchResponse * World :=
  match operationOf url init with
  | Some op => let '(r, w') := serve op w in (delivered r, w')
  | None =>
      match method init with
      | MethodGET =>
          if str_eqb url (lit "/api/hume/token")
          then let '(r, w') := Hume.GET w in (deliveredJson r, w')
          else ({| ok := false; resp_json := Threw (JsError (lit "Unexpected token <")) |}, w)
      | MethodPOST =>
          ({| ok := false; resp_json := Threw (JsError (lit "Unexpected token <")) |}, w)
      end
  end.

(** What the deployment leaves open on the browser's side: the voice
    service and the wording of the engine. *)
Record Device := {
  VoiceState : Type;
  device_connect : option JsValue -> VoiceState -> Outcome unit * VoiceState;
  device_nullRead : JsString -> JsString
}.

(** The browser of a page served by the process itself, over a network
    that delivers every request and every answer. *)
Definition sameOrigin `{HumeSdk} (d : Device) : Browser :=
  {| Net := World * VoiceState d;
     window_fetch := fun url init n =>
       let '(r, w') := answer url init (fst n) in (Returned r, (w', snd n));
     voice_connect := fun value n =>
       let '(o, v') := device_connect d value (snd n) in (o, (fst n, v'));
     nullReadMessage := device_nullRead d |}.

(** What the page shows after the route answered [r] to a click on [b]. *)
Definition shown `{Env} (b : KnowledgeUploader.Button) (r : Response) : JsValue :=
  match body r with
  | AddedBody n => JStr (lit "Added " ++ Number_toString (lengthNumber n) ++ lit " chunks")
  | ResultsBody _ => JStr []
  | ErrorBody [] => failure b
  | ErrorBody msg => JStr msg
  end.

(** The component after the route answered [r] to a click on [b]: the new
    status; the text area emptied by a successful Add Text; the results of
    a successful Search. *)
Definition afterClick `{Env} (b : KnowledgeUploader.Button) (r : Response)
           (st : KnowledgeUploader.State) : KnowledgeUploader.State :=
  {| KnowledgeUploader.file := KnowledgeUploader.file st;
     KnowledgeUploader.youtubeUrl := KnowledgeUploader.youtubeUrl st;
     KnowledgeUploader.pastedText :=
       match b, body r with
       | KnowledgeUploader.AddText, AddedBody _ => []
       | _, _ => KnowledgeUploader.pastedText st
       end;
     KnowledgeUploader.query := KnowledgeUploader.query st;
     KnowledgeUploader.results :=
       match b, body r with
       | KnowledgeUploader.Search, ResultsBody docs =>
           JArr (map (fun d => throughJSON (documentJSON d)) docs)
       | _, _ => KnowledgeUploader.results st
       end;
     KnowledgeUploader.status := shown b r |}.

(** A device whose voice service accepts every token, and a browser whose
    network is down. *)
Definition demoDevice : Device :=
  {| VoiceState := unit;
     device_connect := fun _ v => (Returned tt, v);
     device_nullRead := fun name => lit "Cannot read properties of null" |}.

Definition offlineBrowser : Browser :=
  {| Net := unit;
     window_fetch := fun _ _ n => (Threw (JsError (lit "Failed to fetch")), n);
     voice_connect := fun _ n => (Returned tt, n);
     nullReadMessage := fun name => lit "Cannot read properties of null" |}.

(** A freshly mounted component in state [st]. *)
Definition mount `{Browser} {S : Type} (st : S) (n : Net) : Page S :=
  {| component := st; net := n; requests := []; connections := []; console_error := [] |}.

(** The error thrown while a route reads its body, if any: the rejection
    of [request.formData()] or [request.json()], or the [TypeError] of
    destructuring [null]. *)
Definition bodyFault `{Env} (op : Operation) : option Thrown :=
  let ofJson (request : Request) (first : string) :=
    match request_json request with
    | Threw err => Some err
    | Returned JNull => Some (JsError (engineMessage (DestructureNull (lit first))))
    | Returned _ => None
    end in
  match op with
  | IngestUpload request =>
      match request_formData request with
      | Threw err => Some err
      | Returned _ => None
      end
  | IngestText request => ofJson request "text"%string
  | IngestYoutube request => ofJson request "url"%string
  | Query request => ofJson request "query"%string
  end.

(** What the transcript fetcher throws for an outcome of its [fetch], if it
    throws: the rejection of [fetch] or of [resp.json()], "Transcript not
    available" for a response that is not ok, "Unexpected transcript
    format" for a body that is not an array. *)
Definition transcriptFailure (o : Outcome FetchResponse) : option Thrown :=
  match o with
  | Threw err => Some err
  | Returned resp =>
      if ok resp then
        match resp_json resp with
        | Returned (JArr _) => None
        | Returned _ => Some (JsError (lit "Unexpected transcript format"))
        | Threw err => Some err
        end
      else Some (JsError (lit "Transcript not available"))
  end.

(* ------------------------------------------------------------------ *)
(** * Properties *)

(** ** Strings *)

Lemma str_eqb_refl (s : JsString) : str_eqb s s = true.
Proof. induction s as [|c s IH]; simpl; [reflexivity|]. now rewrite N.eqb_refl. Qed.

Lemma str_eqb_eq (a b : JsString) : str_eqb a b = true <-> a = b.
Proof.
  split; [|intros ->; apply str_eqb_refl].
  revert b; induction a as [|x a IH]; intros [|y b]; simpl; try discriminate; auto.
  intros H; apply andb_prop in H as [Hx Hs].
  apply N.eqb_eq in Hx; f_equal; auto.
Qed.

Lemma length_zero_eqb (s : JsString) : (N.of_nat (length s) =? 0)%N = true <-> s = [].
Proof.
  destruct s; simpl; split; auto; try discriminate.
Qed.

(** ** A Hoare logic for handlers *)

Section HandlerLogic.

Context {E : Env}.

Lemma hoare_ret {A} (P : World -> Prop) (a : A) Q R :
  (forall w, P w -> Q a w) -> hoare P (ret a) Q R.
Proof. intros H w Hw; simpl; auto. Qed.

Lemma hoare_throw {A} (P : World -> Prop) (e : Thrown) (Q : A -> World -> Prop) R :
  (forall w, P w -> R e w) -> hoare P (throw e) Q R.
Proof. intros H w Hw; simpl; auto. Qed.

Lemma hoare_bind {A B} (P : World -> Prop) (m : M A) (k : A -> M B)
      (Q : A -> World -> Prop) (Q' : B -> World -> Prop) R :
  hoare P m Q R -> (forall a, hoare (Q a) (k a) Q' R) -> hoare P (bind m k) Q' R.
Proof.
  intros Hm Hk w Hw. unfold bind. specialize (Hm w Hw).
  destruct (m w) as [[a|e] w']; [apply (Hk a w' Hm) | exact Hm].
Qed.

Lemma hoare_weaken {A} (P P' : World -> Prop) (m : M A)
      (Q Q' : A -> World -> Prop) (R R' : Thrown -> World -> Prop) :
  hoare P' m Q' R' ->
  (forall w, P w -> P' w) -> (forall a w, Q' a w -> Q a w) ->
  (forall e w, R' e w -> R e w) -> hoare P m Q R.
Proof.
  intros H HP HQ HR w Hw. specialize (H w (HP w Hw)).
  destruct (m w) as [[a|e] w']; auto.
Qed.

Lemma hoare_await {A} (P : World -> Prop) (o : Outcome A) :
  hoare P (await o) (fun _ => P) (fun _ => P).
Proof. intros w Hw; destruct o; simpl; auto. Qed.

Lemma hoare_destructure (P : World -> Prop) (v : JsValue) (first p : JsString) :
  hoare P (destructure v first p) (fun _ => P) (fun _ => P).
Proof. intros w Hw; destruct v; simpl; auto. Qed.

Lemma hoare_tryCatch (P I : World -> Prop) fallback (m : M Response) :
  hoare P m (fun _ => I) (fun _ => I) ->
  forall w, P w -> I (snd (tryCatch fallback m w)).
Proof.
  intros H w Hw. unfold tryCatch. specialize (H w Hw).
  destruct (m w) as [[a|e] w']; simpl; auto.
Qed.

(** *** The invariant of the process *)

Lemma filter_isCreation_nil (l : list Call) :
  filter isStoreCall l = [] -> filter isCreation l = [].
Proof.
  induction l as [|c l IH]; simpl; auto.
  destruct c; simpl; try discriminate; auto.
Qed.

Lemma Inv_initial (e : Ext) : Inv (initialWorld e).
Proof. split; simpl; auto. Qed.

Lemma hoare_getVectorStore (o : option Promise) :
  hoare (Inv' o) Langchain.getVectorStore
        (fun r w => Inv' o w /\ vectorStorePromise w = Some (Fulfilled r))
        (fun _ w => Inv' o w).
Proof.
  intros w [[Hst Hc] Hk]. unfold Langchain.getVectorStore, bind, read_vectorStorePromise.
  destruct (vectorStorePromise w) as [[r|e]|] eqn:Hp; simpl.
  - repeat split; auto; rewrite Hp; auto.
  - repeat split; auto; rewrite Hp; auto.
  - assert (Ho : o = None).
    { destruct o as [p|]; auto. specialize (Hk p eq_refl). congruence. }
    subst o. destruct Hst as [Hh Hl].
    unfold new_OpenAIEmbeddings.
    destruct (newOpenAIEmbeddings (ext w)) as [[emb|e] e1]; simpl.
    + unfold call_fromDocuments; simpl.
      destruct (HNSWLib_fromDocuments [] emb e1) as [[s|e] e2] eqn:Hf; simpl.
      * rewrite Hh; simpl.
        repeat split; simpl; auto; try discriminate; try (constructor; simpl; auto).
        unfold creations; simpl. now rewrite (filter_isCreation_nil _ Hl).
      * split; [split; simpl|intros p Hp'; discriminate].
        -- split; [exact Hh|]. split; [|now exists emb, e1, e2].
           unfold creations; simpl. now rewrite (filter_isCreation_nil _ Hl).
        -- constructor; simpl; auto.
    + repeat split; simpl; auto; try discriminate. rewrite Hp; auto.
Qed.

Lemma length_setNth {A} (n : nat) (x : A) (l : list A) : length (setNth n x l) = length l.
Proof. revert n; induction l as [|h t IH]; intros [|n]; simpl; auto. Qed.

Lemma hoare_store_addDocuments (o : option Promise) (r : nat) (docs : list Document) :
  hoare (fun w => Inv' o w /\ vectorStorePromise w = Some (Fulfilled r))
        (store_addDocuments r docs)
        (fun _ w => Inv' o w) (fun _ w => Inv' o w).
Proof.
  intros w [[[Hst Hc] Hk] Hp]. unfold store_addDocuments.
  rewrite Hp in Hst. destruct Hst as [-> [Hlen Hcr]].
  destruct (heap w) as [|s [|s2 t]] eqn:Hh; try discriminate. simpl.
  destruct (HNSWLib_addDocuments s docs (ext w)) as [[ou s'] e']; simpl.
  assert (Inv' o {| vectorStorePromise := vectorStorePromise w; heap := [s'];
                    ext := e'; calls := CallAddDocuments 0 docs :: calls w |}).
  { split; [split|]; simpl.
    - rewrite Hp. repeat split; auto.
    - constructor; simpl; auto.
    - exact Hk. }
  destruct ou; auto.
Qed.

Lemma hoare_store_similaritySearch (o : option Promise) (r : nat) (q k : JsValue) :
  hoare (fun w => Inv' o w /\ vectorStorePromise w = Some (Fulfilled r))
        (store_similaritySearch r q k)
        (fun _ w => Inv' o w) (fun _ w => Inv' o w).
Proof.
  intros w [[[Hst Hc] Hk] Hp]. unfold store_similaritySearch.
  rewrite Hp in Hst. destruct Hst as [-> [Hlen Hcr]].
  destruct (heap w) as [|s [|s2 t]] eqn:Hh; try discriminate. simpl.
  destruct (HNSWLib_similaritySearch s q k (ext w)) as [[ou s'] e']; simpl.
  assert (Inv' o {| vectorStorePromise := vectorStorePromise w; heap := [s'];
                    ext := e'; calls := CallSimilaritySearch 0 q k :: calls w |}).
  { split; [split|]; simpl.
    - rewrite Hp. repeat split; auto.
    - constructor; simpl; auto.
    - exact Hk. }
  destruct ou; auto.
Qed.

Lemma hoare_call_fetch (o : option Promise) (url : JsString) :
  hoare (Inv' o) (call_fetch url) (fun _ w => Inv' o w) (fun _ w => Inv' o w).
Proof.
  intros w [[Hst Hc] Hk]. unfold call_fetch.
  destruct (fetch url (ext w)) as [ou e']; simpl.
  assert (Inv' o {| vectorStorePromise := vectorStorePromise w; heap := heap w;
                    ext := e'; calls := CallFetch url :: calls w |}).
  { split; [split|]; simpl; auto. constructor; simpl; auto. }
  destruct ou; auto.
Qed.

Lemma hoare_addDocumentsToStore (o : option Promise) (docs : list Document) :
  hoare (Inv' o) (Langchain.addDocumentsToStore docs)
        (fun _ w => Inv' o w) (fun _ w => Inv' o w).
Proof.
  unfold Langchain.addDocumentsToStore.
  eapply hoare_bind; [apply hoare_getVectorStore|].
  intros r. apply hoare_store_addDocuments.
Qed.

Lemma hoare_similaritySearch (o : option Promise) (q : JsValue) (k : option JsValue) :
  hoare (Inv' o) (Langchain.similaritySearch q k)
        (fun _ w => Inv' o w) (fun _ w => Inv' o w).
Proof.
  unfold Langchain.similaritySearch.
  eapply hoare_bind; [apply hoare_getVectorStore|].
  intros r. apply hoare_store_similaritySearch.
Qed.

Lemma hoare_splitToDocuments (P : World -> Prop) (text : JsString) :
  hoare P (Langchain.splitToDocuments text) (fun _ => P) (fun _ => P).
Proof. apply hoare_ret; auto. Qed.

Lemma hoare_ingest (o : option Promise) (text : JsString) :
  hoare (Inv' o)
        (docs <- Langchain.splitToDocuments text ;;
         Langchain.addDocumentsToStore docs ;;;
         ret (json200 (AddedBody (length docs))))
        (fun _ w => Inv' o w) (fun _ w => Inv' o w).
Proof.
  eapply hoare_bind; [apply hoare_splitToDocuments|]. intros docs.
  eapply hoare_bind; [apply hoare_addDocumentsToStore|]. intros u.
  apply hoare_ret; auto.
Qed.

Lemma hoare_fetchTranscript (o : option Promise) (url : JsValue) :
  hoare (Inv' o) (YoutubeRoute.fetchTranscriptFromYouTube url)
        (fun _ w => Inv' o w) (fun _ w => Inv' o w).
Proof.
  unfold YoutubeRoute.fetchTranscriptFromYouTube.
  destruct url; try (apply hoare_throw; auto).
  destruct (negb _); [apply hoare_throw; auto|].
  eapply hoare_bind; [apply hoare_call_fetch|]. intros resp. simpl.
  destruct (negb (ok resp)); [apply hoare_throw; auto|].
  eapply hoare_bind; [apply hoare_await|]. intros data. simpl.
  destruct data; try (apply hoare_throw; auto).
  eapply hoare_bind; [apply hoare_await|]. intros texts. apply hoare_ret; auto.
Qed.

Lemma serve_Inv' (o : option Promise) (op : Operation) (w : World) :
  Inv' o w -> Inv' o (snd (serve op w)).
Proof.
  intros Hw. destruct op as [rq|rq|rq|rq]; unfold serve;
    [unfold UploadRoute.POST | unfold TextRoute.POST
     | unfold YoutubeRoute.POST | unfold QueryRoute.POST];
    (apply (hoare_tryCatch (P := Inv' o) (I := Inv' o)); [|exact Hw]).
  - eapply hoare_bind; [apply hoare_await|]. intros form. simpl.
    destruct (form_get form (lit "file")) as [[s|f]|];
      try (apply hoare_ret; auto). apply hoare_ingest.
  - eapply hoare_bind; [apply hoare_await|]. intros json. simpl.
    eapply hoare_bind; [apply hoare_destructure|]. intros text. simpl.
    destruct (_ || _); [apply hoare_ret; auto|]. apply hoare_ingest.
  - eapply hoare_bind; [apply hoare_await|]. intros json. simpl.
    eapply hoare_bind; [apply hoare_destructure|]. intros url. simpl.
    destruct url as [u|]; [|apply hoare_ret; auto].
    destruct (negb _); [apply hoare_ret; auto|].
    eapply hoare_bind; [apply hoare_fetchTranscript|]. intros tr.
    apply hoare_ingest.
  - eapply hoare_bind; [apply hoare_await|]. intros json. simpl.
    eapply hoare_bind; [apply hoare_destructure|]. intros q. simpl.
    eapply hoare_bind; [apply hoare_destructure|]. intros k. simpl.
    destruct q as [q|]; [|apply hoare_ret; auto].
    destruct (negb _); [apply hoare_ret; auto|].
    eapply hoare_bind; [apply hoare_similaritySearch|]. intros docs.
    apply hoare_ret; auto.
Qed.

Lemma Keeps_refl (w : World) : Keeps (vectorStorePromise w) w.
Proof. intros p Hp; exact Hp. Qed.

Lemma serveAll_Inv' (o : option Promise) (ops : list Operation) (w : World) :
  Inv' o w -> Inv' o (serveAll ops w).
Proof.
  revert w; induction ops as [|op ops IH]; intros w Hw; simpl; auto.
  apply IH. now apply serve_Inv'.
Qed.

Lemma reachable_Inv (e : Ext) (ops : list Operation) :
  Inv (serveAll ops (initialWorld e)).
Proof.
  apply (serveAll_Inv' (o := None)). split; [apply Inv_initial|].
  intros p Hp; discriminate.
Qed.

End HandlerLogic.

(* ------------------------------------------------------------------ *)
(** ** The shared vector store *)

Section SharedStore.

Context {E : Env}.

Lemma getVectorStore_cached (w : World) (p : Promise) :
  vectorStorePromise w = Some p ->
  Langchain.getVectorStore w
  = (match p with Fulfilled r => Returned r | Rejected e => Threw e end, w).
Proof.
  intros Hp. unfold Langchain.getVectorStore, bind, read_vectorStorePromise.
  rewrite Hp. destruct p; reflexivity.
Qed.

Lemma getVectorStore_creates (w : World) emb e1 s e2 :
  vectorStorePromise w = None -> heap w = [] ->
  newOpenAIEmbeddings (ext w) = (Returned emb, e1) ->
  HNSWLib_fromDocuments [] emb e1 = (Returned s, e2) ->
  Langchain.getVectorStore w
  = (Returned 0,
     {| vectorStorePromise := Some (Fulfilled 0); heap := [s]; ext := e2;
        calls := CallFromDocuments [] :: calls w |}).
Proof.
  intros Hp Hh He Hf.
  unfold Langchain.getVectorStore, bind, read_vectorStorePromise, new_OpenAIEmbeddings,
    call_fromDocuments, write_vectorStorePromise.
  rewrite Hp, He; simpl. rewrite Hf; simpl. now rewrite Hh.
Qed.

Lemma addDocumentsToStore_on_store (w : World) (s : HNSWLib) (docs : list Document) :
  vectorStorePromise w = Some (Fulfilled 0) -> heap w = [s] ->
  Langchain.addDocumentsToStore docs w
  = (let '(o, s', e') := HNSWLib_addDocuments s docs (ext w) in
     (o, {| vectorStorePromise := Some (Fulfilled 0); heap := [s']; ext := e';
            calls := CallAddDocuments 0 docs :: calls w |})).
Proof.
  intros Hp Hh. unfold Langchain.addDocumentsToStore, bind.
  rewrite (getVectorStore_cached _ Hp). unfold store_addDocuments.
  rewrite Hh, Hp; simpl. now destruct (HNSWLib_addDocuments s docs (ext w)) as [[o s'] e'].
Qed.

Lemma similaritySearch_on_store (w : World) (s : HNSWLib) (q k : JsValue) :
  vectorStorePromise w = Some (Fulfilled 0) -> heap w = [s] ->
  Langchain.similaritySearch q (Some k) w
  = (let '(o, s', e') := HNSWLib_similaritySearch s q k (ext w) in
     (o, {| vectorStorePromise := Some (Fulfilled 0); heap := [s']; ext := e';
            calls := CallSimilaritySearch 0 q k :: calls w |})).
Proof.
  intros Hp Hh. unfold Langchain.similaritySearch, bind.
  rewrite (getVectorStore_cached _ Hp). unfold store_similaritySearch.
  rewrite Hh, Hp; simpl. now destruct (HNSWLib_similaritySearch s q k (ext w)) as [[o s'] e'].
Qed.

Lemma Inv_store (w : World) (r : nat) :
  Inv w -> vectorStorePromise w = Some (Fulfilled r) -> r = 0 /\ exists s, heap w = [s].
Proof.
  intros [Hst _] Hp. rewrite Hp in Hst. destruct Hst as [-> [Hl _]]. split; auto.
  destruct (heap w) as [|s [|s2 t]]; try discriminate. now exists s.
Qed.

Lemma Inv_bounds (w : World) : Inv w -> length (heap w) <= 1 /\ creations w <= 1.
Proof.
  intros [Hst _]. destruct (vectorStorePromise w) as [[r|e]|].
  - destruct Hst as [_ [-> ->]]; auto.
  - destruct Hst as [-> [-> _]]; simpl; auto.
  - destruct Hst as [-> Hl]. unfold creations. rewrite (filter_isCreation_nil _ Hl); simpl; auto.
Qed.

End SharedStore.

(** C7. The vector store is created lazily and is one shared object: in the
    world reached from the start of the process by any sequence of requests,
    (1) while the module variable is still null no store exists and no store
    call has been made, and the first [getVectorStore] whose collaborators
    succeed allocates the store and assigns the variable; (2) at most one
    store has been created; (3) every [addDocuments] and [similaritySearch]
    so far went to that store; (4) the promise, once assigned, survives every
    later request; (5) ingestion and query read the store's current state
    and leave its successor in the same place, so what an ingestion added is
    what later queries search. *)
Theorem vector_store_is_shared :
  forall (E : Env) (e : Ext) (ops : list Operation),
    let w := serveAll ops (initialWorld e) in
    (vectorStorePromise w = None ->
       heap w = [] /\ filter isStoreCall (calls w) = [] /\
       forall emb e1 s e2,
         newOpenAIEmbeddings (ext w) = (Returned emb, e1) ->
         HNSWLib_fromDocuments [] emb e1 = (Returned s, e2) ->
         Langchain.getVectorStore w
         = (Returned 0,
            {| vectorStorePromise := Some (Fulfilled 0); heap := [s]; ext := e2;
               calls := CallFromDocuments [] :: calls w |})) /\
    (length (heap w) <= 1 /\ creations w <= 1) /\
    Forall onTheStore (calls w) /\
    (forall p ops', vectorStorePromise w = Some p ->
       vectorStorePromise (serveAll ops' w) = Some p) /\
    (forall r, vectorStorePromise w = Some (Fulfilled r) ->
       r = 0 /\ Langchain.getVectorStore w = (Returned 0, w) /\
       exists s, heap w = [s] /\
         (forall docs,
            Langchain.addDocumentsToStore docs w
            = (let '(o, s', e') := HNSWLib_addDocuments s docs (ext w) in
               (o, {| vectorStorePromise := Some (Fulfilled 0); heap := [s']; ext := e';
                      calls := CallAddDocuments 0 docs :: calls w |}))) /\
         (forall q k,
            Langchain.similaritySearch q (Some k) w
            = (let '(o, s', e') := HNSWLib_similaritySearch s q k (ext w) in
               (o, {| vectorStorePromise := Some (Fulfilled 0); heap := [s']; ext := e';
                      calls := CallSimilaritySearch 0 q k :: calls w |})))).
Proof.
  intros E e ops w.
  assert (HI : Inv w) by apply reachable_Inv.
  split; [|split; [|split; [|split]]].
  - intros Hp. pose proof (inv_state HI) as Hst. rewrite Hp in Hst.
    destruct Hst as [Hh Hl]. repeat split; auto.
    intros emb e1 s e2 He Hf. now apply getVectorStore_creates with (emb := emb) (e1 := e1).
  - now apply Inv_bounds.
  - apply (inv_calls HI).
  - intros p ops' Hp.
    assert (H : Inv' (Some p) (serveAll ops' w)).
    { apply serveAll_Inv'. split; auto. intros p' Hp'. congruence. }
    apply (proj2 H). reflexivity.
  - intros r Hp. destruct (Inv_store HI Hp) as [-> [s Hs]].
    split; [reflexivity|]. split; [apply (getVectorStore_cached _ Hp)|].
    exists s. split; [exact Hs|]. split.
    + intros docs. now apply addDocumentsToStore_on_store.
    + intros q k. now apply similaritySearch_on_store.
Qed.

(* ------------------------------------------------------------------ *)
(** ** Validation in the routes *)

Section Validation.

Context {E : Env}.

Lemma destructure_not_null (w : World) (json : JsValue) (first p : JsString) :
  json <> JNull -> destructure json first p w = (Returned (property p json), w).
Proof. intros Hn. destruct json; try reflexivity. congruence. Qed.

(** A truthy query is never answered with the validation error. *)
Lemma QueryRoute_truthy (w : World) (request : Request) (json q : JsValue) :
  request_json request = Returned json ->
  property (lit "query") json = Some q -> truthy (Some q) = true ->
  QueryRoute.POST request w
  = match Langchain.similaritySearch q
            (Some (nullish (property (lit "k") json) (JNum 4%float))) w with
    | (Returned docs, w') => (json200 (ResultsBody docs), w')
    | (Threw err, w') =>
        (jsonStatus (ErrorBody (match err with
                                | JsError msg => msg
                                | NonError => lit "Failed to query store"
                                end)) 500, w')
    end.
Proof.
  intros Hj Hp Hq. unfold QueryRoute.POST, tryCatch, bind. rewrite Hj. simpl await.
  unfold ret at 1.
  assert (Hn : json <> JNull) by (intros ->; discriminate).
  rewrite !(destructure_not_null _ _ _ Hn). rewrite Hp, Hq.
  change (negb true) with false. cbv beta iota.
  destruct (Langchain.similaritySearch q _ w) as [[docs|err] w']; reflexivity.
Qed.

Lemma TextRoute_invalid (w : World) (request : Request) (json : JsValue) :
  request_json request = Returned json -> json <> JNull ->
  isString (property (lit "text") json) = false
  \/ trim (asString (property (lit "text") json)) = [] ->
  TextRoute.POST request w = (jsonStatus (ErrorBody (lit "Missing text")) 400, w).
Proof.
  intros Hj Hn Hc. unfold TextRoute.POST, tryCatch, bind. rewrite Hj. simpl await.
  unfold ret at 1. rewrite (destructure_not_null _ _ _ Hn).
  set (text := property (lit "text") json) in *.
  assert (Hg : negb (truthy text) || negb (isString text)
               || (N.of_nat (length (trim (asString text))) =? 0)%N = true).
  { destruct Hc as [Hs|Ht].
    - rewrite Hs. simpl. now rewrite orb_true_r.
    - rewrite Ht. simpl. now rewrite orb_true_r. }
  rewrite Hg. reflexivity.
Qed.

Lemma ingest_returns (text : JsString) (w : World) :
  match ingest text w with
  | (Returned r, w') => ingested text r w'
  | (Threw _, _) => True
  end.
Proof.
  unfold ingest, Langchain.splitToDocuments, bind, ret.
  set (docs := createDocuments _ [text]).
  unfold Langchain.addDocumentsToStore, bind.
  destruct (Langchain.getVectorStore w) as [[ref|e] w1]; [|exact I].
  unfold store_addDocuments. destruct (nth_error (heap w1) ref) as [s|]; [|exact I].
  destruct (HNSWLib_addDocuments s docs (ext w1)) as [[[u|e] s'] e']; [|exact I].
  split; [reflexivity|]. exists ref. reflexivity.
Qed.

Lemma tryCatch_200 (fallback : JsString) (m : M Response) (w : World) (r : Response) (w' : World) :
  tryCatch fallback m w = (r, w') -> status r = 200%N -> m w = (Returned r, w').
Proof.
  unfold tryCatch. destruct (m w) as [[a|e] w1]; intros H Hs; inversion H; subst; auto.
  simpl in Hs. discriminate.
Qed.

Lemma tryCatch_not_400 (fallback : JsString) (m : M Response) (w : World) :
  (forall r w', m w = (Returned r, w') -> status r <> 400%N) ->
  status (fst (tryCatch fallback m w)) <> 400%N.
Proof.
  unfold tryCatch. intros H. destruct (m w) as [[a|e] w1]; simpl.
  - now apply (H a w1).
  - discriminate.
Qed.

Lemma ingest_not_400 (text : JsString) (w : World) (r : Response) (w' : World) :
  ingest text w = (Returned r, w') -> status r <> 400%N.
Proof.
  intros H. pose proof (ingest_returns text w) as Hi. rewrite H in Hi.
  destruct Hi as [-> _]. discriminate.
Qed.

(** An upload that carries a file is never answered with the validation
    error, whatever the file holds. *)
Lemma UploadRoute_not_400 (w : World) (text : JsString) :
  status (fst (UploadRoute.POST (uploadRequest text) w)) <> 400%N.
Proof.
  unfold UploadRoute.POST. apply tryCatch_not_400. intros r w'.
  unfold uploadRequest, bind; simpl.
  exact (@ingest_not_400 text w r w').
Qed.

(** A non-empty query text is never answered with the validation error. *)
Lemma QueryRoute_not_400 (w : World) (text : JsString) :
  text <> [] -> status (fst (QueryRoute.POST (queryRequest text) w)) <> 400%N.
Proof.
  intros Ht.
  rewrite (@QueryRoute_truthy w (queryRequest text) _ (JStr text) eq_refl).
  - destruct (Langchain.similaritySearch _ _ w) as [[docs|err] w']; simpl; discriminate.
  - unfold property, lookup. now rewrite str_eqb_refl.
  - destruct text; [congruence|reflexivity].
Qed.

End Validation.

(** C1, as stated, fails: the whitespace-only query ["   "] is empty after
    trimming, yet the query route does not answer it with the validation
    error; it runs the search (and answers 200). *)
Lemma blank_query_reaches_search :
  ~ @blank_query_is_rejected demoEnv demoWorld (lit "   ").
Proof.
  unfold blank_query_is_rejected. intros H. specialize (H eq_refl).
  vm_compute in H. destruct H as [H _]. discriminate H.
Qed.

(** C1, amended: a query call whose [query] is missing or falsy, in
    particular the empty string (no trimming is applied), is answered with
    the validation error 400 "Missing query" and the world is left as it
    was: the store is not fetched and no search is invoked. *)
Theorem empty_query_is_rejected :
  forall (E : Env) (w : World) (request : Request) (json : JsValue),
    request_json request = Returned json -> json <> JNull ->
    truthy (property (lit "query") json) = false ->
    QueryRoute.POST request w = (jsonStatus (ErrorBody (lit "Missing query")) 400, w).
Proof.
  intros E w request json Hj Hn Hq.
  unfold QueryRoute.POST, tryCatch, bind. rewrite Hj. simpl await.
  unfold ret at 1. rewrite !(destructure_not_null _ _ _ Hn).
  destruct (property (lit "query") json) as [q|] eqn:Hp; [|reflexivity].
  rewrite Hq. reflexivity.
Qed.

Lemma empty_query_is_rejected_witness :
  request_json (queryRequest []) = Returned (JObj [(lit "query", JStr [])])
  /\ JObj [(lit "query", JStr [])] <> JNull
  /\ truthy (property (lit "query") (JObj [(lit "query", JStr [])])) = false
  /\ @QueryRoute.POST demoEnv (queryRequest []) demoWorld
     = (jsonStatus (ErrorBody (lit "Missing query")) 400, demoWorld).
Proof.
  split; [reflexivity|]. split; [discriminate|]. split; [reflexivity|].
  apply (@empty_query_is_rejected demoEnv demoWorld (queryRequest [])
           (JObj [(lit "query", JStr [])])); [reflexivity | discriminate | reflexivity].
Defined.

(** C4, as stated, fails: an uploaded file whose text is empty is not
    answered with the validation error; the upload route splits it, calls the
    store and answers 200. *)
Lemma blank_upload_is_ingested :
  ~ @blank_ingest_is_rejected demoEnv (fun text => IngestUpload (uploadRequest text))
      demoWorld [].
Proof.
  unfold blank_ingest_is_rejected. intros H. specialize (H eq_refl).
  vm_compute in H. destruct H as [H _]. discriminate H.
Qed.

(** C4, amended: on the pasted-text entry point, a text that is missing, not
    a string, or empty after trimming whitespace is answered with the
    validation error 400 "Missing text" and the world is left as it was:
    nothing is split, and nothing is added to the vector index. *)
Theorem blank_text_is_rejected :
  forall (E : Env) (w : World) (request : Request) (json : JsValue),
    request_json request = Returned json -> json <> JNull ->
    isString (property (lit "text") json) = false
    \/ trim (asString (property (lit "text") json)) = [] ->
    TextRoute.POST request w = (jsonStatus (ErrorBody (lit "Missing text")) 400, w).
Proof.
  intros E w request json Hj Hn Hc.
  unfold TextRoute.POST, tryCatch, bind. rewrite Hj. simpl await.
  unfold ret at 1. rewrite (destructure_not_null _ _ _ Hn).
  set (text := property (lit "text") json) in *.
  assert (Hg : negb (truthy text) || negb (isString text)
               || (N.of_nat (length (trim (asString text))) =? 0)%N = true).
  { destruct Hc as [Hs|Ht].
    - rewrite Hs. simpl. now rewrite orb_true_r.
    - rewrite Ht. simpl. now rewrite orb_true_r. }
  rewrite Hg. reflexivity.
Qed.

Lemma blank_text_is_rejected_witness :
  request_json (textRequest (lit "   ")) = Returned (JObj [(lit "text", JStr (lit "   "))])
  /\ JObj [(lit "text", JStr (lit "   "))] <> JNull
  /\ (isString (property (lit "text") (JObj [(lit "text", JStr (lit "   "))])) = false
      \/ trim (asString (property (lit "text") (JObj [(lit "text", JStr (lit "   "))]))) = [])
  /\ @TextRoute.POST demoEnv (textRequest (lit "   ")) demoWorldWithHello
     = (jsonStatus (ErrorBody (lit "Missing text")) 400, demoWorldWithHello).
Proof.
  split; [reflexivity|]. split; [discriminate|]. split; [right; reflexivity|].
  apply (@blank_text_is_rejected demoEnv demoWorldWithHello (textRequest (lit "   "))
           (JObj [(lit "text", JStr (lit "   "))]));
    [reflexivity | discriminate | right; reflexivity].
Defined.

(* ------------------------------------------------------------------ *)
(** ** What the routes answer on success *)

Section Success.

Context {E : Env}.

Lemma guard_false_text (text : option JsValue) :
  negb (truthy text) || negb (isString text)
  || (N.of_nat (length (trim (asString text))) =? 0)%N = false ->
  exists s, text = Some (JStr s) /\ trim s <> [].
Proof.
  intros H. apply orb_false_elim in H as [H Ht]. apply orb_false_elim in H as [_ Hs].
  destruct text as [[| | |s| |]|]; try discriminate. exists s. split; auto.
  intros Hn. simpl in Ht. rewrite Hn in Ht. discriminate.
Qed.

Lemma TextRoute_200 (w : World) (request : Request) (r : Response) (w' : World) :
  TextRoute.POST request w = (r, w') -> status r = 200%N ->
  exists json text,
    request_json request = Returned json
    /\ property (lit "text") json = Some (JStr text)
    /\ trim text <> []
    /\ ingested text r w'.
Proof.
  intros H Hs. apply tryCatch_200 in H; auto. unfold bind in H.
  destruct (request_json request) as [json|e]; simpl in H; [|discriminate].
  destruct (destructure json (lit "text") (lit "text") w) as [[text|e] w1] eqn:Hd;
    [|discriminate].
  assert (Hn : json <> JNull) by (intros ->; discriminate).
  rewrite (destructure_not_null _ _ _ Hn) in Hd. inversion Hd; subst; clear Hd.
  destruct (_ || _) eqn:Hg in H.
  - inversion H; subst. discriminate.
  - destruct (guard_false_text _ Hg) as [s [Hp Ht]].
    exists json, s. split; [reflexivity|]. split; [exact Hp|]. split; [exact Ht|].
    rewrite Hp in H. simpl asString in H.
    change (ingest s w1 = (Returned r, w')) in H.
    pose proof (ingest_returns s w1) as Hi. rewrite H in Hi. exact Hi.
Qed.

Lemma UploadRoute_200 (w : World) (request : Request) (r : Response) (w' : World) :
  UploadRoute.POST request w = (r, w') -> status r = 200%N ->
  exists form file,
    request_formData request = Returned form
    /\ form_get form (lit "file") = Some (FormFile file)
    /\ ingested (file_text file) r w'.
Proof.
  intros H Hs. apply tryCatch_200 in H; auto. unfold bind in H.
  destruct (request_formData request) as [form|e]; simpl in H; [|discriminate].
  destruct (form_get form (lit "file")) as [[s|file]|] eqn:Hf;
    try (inversion H; subst; discriminate).
  exists form, file. split; [reflexivity|]. split; [exact Hf|].
  change (ingest (file_text file) w = (Returned r, w')) in H.
  pose proof (ingest_returns (file_text file) w) as Hi. rewrite H in Hi. exact Hi.
Qed.

Lemma YoutubeRoute_200 (w : World) (request : Request) (r : Response) (w' : World) :
  YoutubeRoute.POST request w = (r, w') -> status r = 200%N ->
  exists json url transcript w1,
    request_json request = Returned json
    /\ property (lit "url") json = Some url
    /\ YoutubeRoute.fetchTranscriptFromYouTube url w = (Returned transcript, w1)
    /\ ingested transcript r w'.
Proof.
  intros H Hs. apply tryCatch_200 in H; auto. unfold bind in H.
  destruct (request_json request) as [json|e]; simpl in H; [|discriminate].
  destruct (destructure json (lit "url") (lit "url") w) as [[url|e] w1] eqn:Hd;
    [|discriminate].
  assert (Hn : json <> JNull) by (intros ->; discriminate).
  rewrite (destructure_not_null _ _ _ Hn) in Hd. inversion Hd; subst; clear Hd.
  destruct (property (lit "url") json) as [u|] eqn:Hp;
    [|inversion H; subst; discriminate].
  destruct (negb (truthy (Some u))); [inversion H; subst; discriminate|].
  destruct (YoutubeRoute.fetchTranscriptFromYouTube u w1) as [[tr|e] w2] eqn:Hf;
    [|discriminate].
  exists json, u, tr, w2. split; [reflexivity|]. split; [exact Hp|].
  split; [exact Hf|].
  change (ingest tr w2 = (Returned r, w')) in H.
  pose proof (ingest_returns tr w2) as Hi. rewrite H in Hi. exact Hi.
Qed.

Lemma QueryRoute_200 (w : World) (request : Request) (r : Response) (w' : World) :
  QueryRoute.POST request w = (r, w') -> status r = 200%N ->
  exists docs,
    r = json200 (ResultsBody docs)
    /\ exists s q k e, fst (fst (HNSWLib_similaritySearch s q k e)) = Returned docs.
Proof.
  intros H Hs. apply tryCatch_200 in H; auto. unfold bind in H.
  destruct (request_json request) as [json|e]; simpl in H; [|discriminate].
  destruct (destructure json (lit "query") (lit "query") w) as [[query|e] w1] eqn:Hd;
    [|discriminate].
  assert (Hn : json <> JNull) by (intros ->; discriminate).
  rewrite (destructure_not_null _ _ _ Hn) in Hd. inversion Hd; subst; clear Hd.
  rewrite (destructure_not_null _ _ _ Hn) in H.
  destruct (property (lit "query") json) as [q|] eqn:Hp;
    [|inversion H; subst; discriminate].
  destruct (negb (truthy (Some q))); [inversion H; subst; discriminate|].
  unfold Langchain.similaritySearch, bind in H.
  destruct (Langchain.getVectorStore w1) as [[ref|e] w2]; [|discriminate].
  unfold store_similaritySearch in H.
  destruct (nth_error (heap w2) ref) as [s|]; [|discriminate].
  destruct (HNSWLib_similaritySearch s q _ (ext w2)) as [[[docs|e] s'] e'] eqn:Hq;
    [|discriminate].
  inversion H; subst. exists docs. split; [reflexivity|].
  eexists s, q, _, (ext w2). rewrite Hq. reflexivity.
Qed.

End Success.

(** C9. A successful ingestion splits its text with the fixed configuration
    chunkSize = 1000, chunkOverlap = 200 and answers with the number of
    chunks the splitter produced, which are the documents it handed to the
    store: on each of the three ingestion routes a 200 response is
    [{ ok: true, added: docs.length }] for
    [docs = createDocuments {1000, 200} [text]], and the last call in the log
    is [addDocuments(docs)].  On the pasted-text route the text is moreover
    not blank. *)
Theorem ingest_counts_chunks :
  forall (E : Env) (w : World) (request : Request) (r : Response) (w' : World),
    (TextRoute.POST request w = (r, w') -> status r = 200%N ->
     exists json text,
       request_json request = Returned json
       /\ property (lit "text") json = Some (JStr text)
       /\ trim text <> []
       /\ ingested text r w')
    /\ (UploadRoute.POST request w = (r, w') -> status r = 200%N ->
        exists form file,
          request_formData request = Returned form
          /\ form_get form (lit "file") = Some (FormFile file)
          /\ ingested (file_text file) r w')
    /\ (YoutubeRoute.POST request w = (r, w') -> status r = 200%N ->
        exists json url transcript w1,
          request_json request = Returned json
          /\ property (lit "url") json = Some url
          /\ YoutubeRoute.fetchTranscriptFromYouTube url w = (Returned transcript, w1)
          /\ ingested transcript r w').
Proof.
  intros E w request r w'. split; [|split].
  - apply TextRoute_200.
  - apply UploadRoute_200.
  - apply YoutubeRoute_200.
Qed.

(** A successful ingestion exists: the demonstration process ingests
    ["hello"] as one chunk. *)
Example ingest_hello :
  @TextRoute.POST demoEnv (textRequest (lit "hello")) demoWorld
  = (json200 (AddedBody 1), demoWorldWithHello)
  /\ @ingested demoEnv (lit "hello") (json200 (AddedBody 1)) demoWorldWithHello.
Proof.
  split; [reflexivity|]. split; [reflexivity|]. exists 0. reflexivity.
Qed.

(** C3, as stated, fails: after ["hello"] was ingested, the query ["hello"]
    succeeds with one result, and that result has no score. *)
Lemma query_result_has_no_score :
  ~ @results_carry_scores demoEnv (queryRequest (lit "hello")) demoWorldWithHello.
Proof.
  unfold results_carry_scores. intros H. vm_compute in H.
  inversion H as [|d l [x Hx] Hl]. discriminate Hx.
Qed.

(** C3, amended: every element of the sequence returned by a successful
    query is a [Document], exactly as the store's [similaritySearch]
    returned it: it carries the chunk's [pageContent] and [metadata], and no
    score. *)
Theorem query_returns_documents :
  forall (E : Env) (w : World) (request : Request) (r : Response) (w' : World),
    QueryRoute.POST request w = (r, w') -> status r = 200%N ->
    exists docs,
      body r = ResultsBody docs
      /\ (exists s q k e, fst (fst (HNSWLib_similaritySearch s q k e)) = Returned docs)
      /\ Forall (fun d =>
                   property (lit "pageContent") (documentJSON d) = Some (JStr (pageContent d))
                   /\ property (lit "metadata") (documentJSON d) = Some (JObj (metadata d))
                   /\ property (lit "score") (documentJSON d) = None) docs.
Proof.
  intros E w request r w' H Hs.
  destruct (QueryRoute_200 _ _ H Hs) as [docs [-> Hlib]].
  exists docs. split; [reflexivity|]. split; [exact Hlib|].
  apply Forall_forall. intros d _. repeat split.
Qed.

Lemma query_returns_documents_witness :
  status (fst (@QueryRoute.POST demoEnv (queryRequest (lit "hello")) demoWorldWithHello))
  = 200%N
  /\ exists docs,
      body (fst (@QueryRoute.POST demoEnv (queryRequest (lit "hello")) demoWorldWithHello))
      = ResultsBody docs
      /\ (exists s q k e,
             fst (fst (@HNSWLib_similaritySearch demoEnv s q k e)) = Returned docs)
      /\ Forall (fun d =>
                   property (lit "pageContent") (documentJSON d) = Some (JStr (pageContent d))
                   /\ property (lit "metadata") (documentJSON d) = Some (JObj (metadata d))
                   /\ property (lit "score") (documentJSON d) = None) docs.
Proof.
  split; [reflexivity|].
  apply (@query_returns_documents demoEnv demoWorldWithHello (queryRequest (lit "hello"))
           _ (snd (@QueryRoute.POST demoEnv (queryRequest (lit "hello")) demoWorldWithHello)));
    [apply surjective_pairing | reflexivity].
Defined.

(* ------------------------------------------------------------------ *)
(** ** The YouTube transcript fetcher *)

Lemma stripPrefix_spec (p s t : JsString) : stripPrefix p s = Some t <-> s = p ++ t.
Proof.
  revert s; induction p as [|a p IH]; intros s; simpl.
  - split; [intros H; now inversion H | intros ->; reflexivity].
  - destruct s as [|c s]; [split; discriminate|].
    destruct (N.eqb a c) eqn:Hac.
    + apply N.eqb_eq in Hac; subst c. rewrite IH. split; [intros ->; reflexivity|].
      intros H; now inversion H.
    + apply N.eqb_neq in Hac. split; [discriminate|]. intros H; inversion H; congruence.
Qed.

Lemma takeWhile_nil (p : N -> bool) (s : JsString) :
  takeWhile p s = [] <-> (s = [] \/ exists x rest, s = x :: rest /\ p x = false).
Proof.
  destruct s as [|x rest]; simpl.
  - split; auto.
  - destruct (p x) eqn:Hp; split; try discriminate; auto.
    + intros [H|[y [r [H Hy]]]]; [discriminate|]. inversion H; subst; congruence.
    + intros _. right. now exists x, rest.
Qed.

Lemma takeWhile_head (p : N -> bool) (s : JsString) :
  takeWhile p s <> [] <-> exists x post, s = x :: post /\ p x = true.
Proof.
  destruct s as [|x post]; simpl.
  - split; [congruence|]. intros [x [post [H _]]]. discriminate.
  - destruct (p x) eqn:Hp.
    + split; [|discriminate]. intros _. now exists x, post.
    + split; [congruence|]. intros [y [r [H Hy]]]. inversion H; subst. congruence.
Qed.

Lemma option_nonempty_list (l : JsString) :
  match l with [] => @None JsString | x :: r => Some (x :: r) end <> None <-> l <> [].
Proof. destruct l; split; congruence. Qed.

Lemma v_param_at_spec (s : JsString) :
  YoutubeRoute.v_param_at s <> None <-> v_param_here s.
Proof.
  unfold YoutubeRoute.v_param_at, v_param_here. destruct s as [|c rest].
  - split; [congruence|]. intros [c [x [post [H _]]]]. discriminate.
  - destruct ((c =? ch "?") || (c =? ch "&"))%N eqn:Hc.
    + assert (Hc' : c = ch "?" \/ c = ch "&").
      { apply orb_prop in Hc. destruct Hc as [Hc|Hc]; apply N.eqb_eq in Hc; auto. }
      destruct (stripPrefix (lit "v=") rest) as [tail|] eqn:Hs.
      * apply stripPrefix_spec in Hs. subst rest.
        rewrite option_nonempty_list, takeWhile_head. split.
        -- intros [x [post [-> Hx]]]. apply negb_true_iff, N.eqb_neq in Hx.
           now exists c, x, post.
        -- intros [c0 [x [post [Hu [_ Hx]]]]]. inversion Hu as [[Hc0 Htail]].
           exists x, post. split; auto.
           now apply negb_true_iff, N.eqb_neq.
      * split; [congruence|]. intros [c0 [x [post [Hu _]]]]. inversion Hu as [[Hc0 Hrest]].
        assert (Hsome : stripPrefix (lit "v=") rest = Some (x :: post))
          by now apply stripPrefix_spec.
        congruence.
    + split; [congruence|]. intros [c0 [x [post [Hu [Hc0 _]]]]].
      assert (Hcc : c = c0) by (inversion Hu; reflexivity). subst c0.
      apply orb_false_elim in Hc as [Hq Ha]. apply N.eqb_neq in Hq, Ha.
      destruct Hc0; contradiction.
Qed.

Lemma HasVParam_cons (c : N) (s : JsString) :
  HasVParam (c :: s) <-> v_param_here (c :: s) \/ HasVParam s.
Proof.
  split.
  - intros [pre [c0 [x [post [Hu H]]]]]. destruct pre as [|p pre]; simpl in Hu.
    + left. exists c0, x, post. now split.
    + right. inversion Hu; subst. now exists pre, c0, x, post.
  - intros [[c0 [x [post [Hu H]]]]|[pre [c0 [x [post [Hu H]]]]]].
    + exists [], c0, x, post. now split.
    + exists (c :: pre), c0, x, post. subst s. now split.
Qed.

Lemma match_v_param_cons (c : N) (rest : JsString) :
  YoutubeRoute.match_v_param (c :: rest)
  = match YoutubeRoute.v_param_at (c :: rest) with
    | Some g => Some g
    | None => YoutubeRoute.match_v_param rest
    end.
Proof. reflexivity. Qed.

Lemma match_v_param_spec (url : JsString) :
  YoutubeRoute.match_v_param url <> None <-> HasVParam url.
Proof.
  induction url as [|c rest IH].
  - simpl. split; [congruence|]. intros [pre [c0 [x [post [Hu _]]]]].
    destruct pre; discriminate.
  - rewrite HasVParam_cons, <- IH, <- v_param_at_spec, match_v_param_cons.
    destruct (YoutubeRoute.v_param_at (c :: rest)).
    + split; [intros _; left|]; congruence.
    + split; [intros H; now right|]. intros [H|H]; congruence.
Qed.

Lemma short_path_at_spec (s : JsString) :
  YoutubeRoute.short_path_at s <> None <-> short_path_here s.
Proof.
  unfold YoutubeRoute.short_path_at, short_path_here.
  destruct (stripPrefix (lit "youtu.be/") s) as [tail|] eqn:Hs.
  - apply stripPrefix_spec in Hs. subst s.
    rewrite option_nonempty_list, takeWhile_head. split.
    + intros [x [post [-> Hx]]]. apply negb_true_iff, N.eqb_neq in Hx.
      now exists x, post.
    + intros [x [post [Hu Hx]]]. apply app_inv_head in Hu. exists x, post. split; auto.
      now apply negb_true_iff, N.eqb_neq.
  - split; [congruence|]. intros [x [post [Hu _]]].
    assert (Hsome : stripPrefix (lit "youtu.be/") s = Some (x :: post))
      by now apply stripPrefix_spec.
    congruence.
Qed.

Lemma HasShortPath_cons (c : N) (s : JsString) :
  HasShortPath (c :: s) <-> short_path_here (c :: s) \/ HasShortPath s.
Proof.
  split.
  - intros [pre [x [post [Hu H]]]]. destruct pre as [|p pre]; simpl in Hu.
    + left. exists x, post. now split.
    + right. inversion Hu; subst. now exists pre, x, post.
  - intros [[x [post [Hu H]]]|[pre [x [post [Hu H]]]]].
    + exists [], x, post. now split.
    + exists (c :: pre), x, post. subst s. now split.
Qed.

Lemma match_youtu_be_cons (c : N) (rest : JsString) :
  YoutubeRoute.match_youtu_be (c :: rest)
  = match YoutubeRoute.short_path_at (c :: rest) with
    | Some g => Some g
    | None => YoutubeRoute.match_youtu_be rest
    end.
Proof. reflexivity. Qed.

Lemma match_youtu_be_spec (url : JsString) :
  YoutubeRoute.match_youtu_be url <> None <-> HasShortPath url.
Proof.
  induction url as [|c rest IH].
  - simpl. split; [congruence|]. intros [pre [x [post [Hu _]]]].
    destruct pre; discriminate.
  - rewrite HasShortPath_cons, <- IH, <- short_path_at_spec, match_youtu_be_cons.
    destruct (YoutubeRoute.short_path_at (c :: rest)).
    + split; [intros _; left|]; congruence.
    + split; [intros H; now right|]. intros [H|H]; congruence.
Qed.

Lemma videoIdOf_none (url : JsString) :
  YoutubeRoute.videoIdOf url = None <-> ~ HasVParam url /\ ~ HasShortPath url.
Proof.
  unfold YoutubeRoute.videoIdOf. rewrite <- match_v_param_spec, <- match_youtu_be_spec.
  destruct (YoutubeRoute.match_v_param url) as [g|].
  - split; [discriminate|]. intros [H _]. exfalso. apply H. discriminate.
  - destruct (YoutubeRoute.match_youtu_be url) as [g|].
    + split; [discriminate|]. intros [_ H]. exfalso. apply H. discriminate.
    + split; auto.
Qed.

(** A matched video id is never empty, so [!videoId] is decided by the match. *)
Lemma match_v_param_nonempty (url : JsString) : YoutubeRoute.match_v_param url <> Some [].
Proof.
  induction url as [|c rest IH]; [discriminate|]. rewrite match_v_param_cons.
  unfold YoutubeRoute.v_param_at.
  destruct ((c =? ch "?") || (c =? ch "&"))%N; auto.
  destruct (stripPrefix (lit "v=") rest) as [tail|]; auto.
  destruct (takeWhile _ tail); auto. discriminate.
Qed.

Lemma match_youtu_be_nonempty (url : JsString) : YoutubeRoute.match_youtu_be url <> Some [].
Proof.
  induction url as [|c rest IH]; [discriminate|]. rewrite match_youtu_be_cons.
  unfold YoutubeRoute.short_path_at.
  destruct (stripPrefix (lit "youtu.be/") (c :: rest)) as [tail|]; auto.
  destruct (takeWhile _ tail); auto. discriminate.
Qed.

Lemma videoIdOf_nonempty (url : JsString) : YoutubeRoute.videoIdOf url <> Some [].
Proof.
  unfold YoutubeRoute.videoIdOf.
  pose proof (match_v_param_nonempty url). pose proof (match_youtu_be_nonempty url).
  destruct (YoutubeRoute.match_v_param url); auto.
Qed.

Section Transcript.

Context {E : Env}.

Lemma fetchTranscript_spec (url : JsString) (w : World) :
  YoutubeRoute.fetchTranscriptFromYouTube (JStr url) w
  = match YoutubeRoute.videoIdOf url with
    | None => (Threw (JsError (lit "Invalid YouTube URL")), w)
    | Some id =>
        let '(o, e') := fetch (YoutubeRoute.transcriptUrl id) (ext w) in
        (match o with
         | Threw err => Threw err
         | Returned resp =>
             if ok resp then
               match resp_json resp with
               | Returned (JArr items) =>
                   match allReturned (map YoutubeRoute.itemText items) with
                   | Returned texts => Returned (join (lit " ") texts)
                   | Threw err => Threw err
                   end
               | Returned _ => Threw (JsError (lit "Unexpected transcript format"))
               | Threw err => Threw err
               end
             else Threw (JsError (lit "Transcript not available"))
         end,
         {| vectorStorePromise := vectorStorePromise w; heap := heap w; ext := e';
            calls := CallFetch (YoutubeRoute.transcriptUrl id) :: calls w |})
    end.
Proof.
  unfold YoutubeRoute.fetchTranscriptFromYouTube.
  pose proof (videoIdOf_nonempty url) as Hne.
  destruct (YoutubeRoute.videoIdOf url) as [id|]; [|reflexivity].
  destruct id as [|c id]; [exfalso; apply Hne; reflexivity|].
  change (negb (truthy (option_map JStr (Some (c :: id))))) with false. cbv iota.
  change (asString (option_map JStr (Some (c :: id)))) with (c :: id).
  unfold bind, call_fetch.
  destruct (fetch (YoutubeRoute.transcriptUrl (c :: id)) (ext w)) as [[resp|err] e'];
    [|reflexivity].
  destruct (ok resp); simpl; [|reflexivity].
  destruct (resp_json resp) as [[| | | |items|]|err]; try reflexivity.
  simpl. destruct (allReturned (map YoutubeRoute.itemText items)); reflexivity.
Qed.

Lemma itemText_spec (item : JsValue) :
  YoutubeRoute.itemText item
  = match property (lit "text") item with
    | None => Returned []
    | Some JNull => Returned []
    | Some v => ToString v
    end.
Proof.
  destruct item; try reflexivity. simpl.
  destruct (lookup (lit "text") fields) as [[| | | | |]|]; reflexivity.
Qed.

(** *** When [String] throws *)

Lemma JsValue_nested_ind (P : JsValue -> Prop) :
  P JNull -> (forall b, P (JBool b)) -> (forall x, P (JNum x)) -> (forall s, P (JStr s)) ->
  (forall items, Forall P items -> P (JArr items)) ->
  (forall fields, P (JObj fields)) ->
  forall v, P v.
Proof.
  intros HN HB HX HS HA HO. fix IH 1.
  intros [|b|x|s|items|fields]; [apply HN|apply HB|apply HX|apply HS| |apply HO].
  apply HA. revert items. fix IHl 1. intros [|x items]; constructor; [apply IH|apply IHl].
Qed.

Lemma allReturned_Returned {A} (l : list (Outcome A)) (values : list A) :
  allReturned l = Returned values <-> l = map Returned values.
Proof.
  revert values; induction l as [|[a|e] l IH]; intros values; simpl.
  - split; [intros Hr; inversion Hr; reflexivity|].
    destruct values; [reflexivity|discriminate].
  - destruct (allReturned l) as [rest|e] eqn:Hl.
    + split.
      * intros Hr. inversion Hr; subst. simpl. f_equal. now apply IH.
      * destruct values as [|v values]; [discriminate|]. simpl. intros Hr.
        inversion Hr; subst. f_equal. f_equal.
        assert (Hm : Returned rest = Returned values) by (now apply IH).
        now inversion Hm.
    + split; [discriminate|].
      destruct values as [|v values]; [discriminate|]. simpl. intros Hr.
      inversion Hr; subst.
      assert (Hm : @Threw (list A) e = Returned values) by (now apply IH).
      discriminate Hm.
  - split; [discriminate|]. destruct values; discriminate.
Qed.

Lemma allReturned_Threw {A} (l : list (Outcome A)) :
  (exists err, allReturned l = Threw err) <-> exists err, In (Threw err) l.
Proof.
  induction l as [|[a|e] l IH]; simpl.
  - split; intros [err Hf]; [discriminate|destruct Hf].
  - destruct (allReturned l) as [rest|e] eqn:Hl.
    + split; [intros [err Hf]; discriminate|].
      intros [err [Hf|Hf]]; [discriminate|].
      assert (Hx : exists err0, @Returned (list A) rest = Threw err0)
        by (apply IH; now exists err).
      destruct Hx as [err0 Hx]. discriminate.
    + split; [|intros _; now exists e].
      intros _. assert (Hx : exists err, In (@Threw A err) l) by (apply IH; now exists e).
      destruct Hx as [err Hx]. exists err. now right.
  - split; [intros _; exists e; now left|intros _; now exists e].
Qed.

Lemma ToString_throws (v : JsValue) :
  (exists err, ToString v = Threw err) <-> unprintable v = true.
Proof.
  induction v as [|b|x|s|items IH|fields] using JsValue_nested_ind.
  - split; [intros [err Hf]; discriminate|discriminate].
  - split; [intros [err Hf]; destruct b; discriminate|discriminate].
  - split; [intros [err Hf]; discriminate|discriminate].
  - split; [intros [err Hf]; discriminate|discriminate].
  - cbn [ToString unprintable].
    set (f := fun x => match x with JNull => Returned [] | _ => ToString x end).
    assert (Hf : (exists err, allReturned (map f items) = Threw err)
                 <-> existsb unprintable items = true).
    { rewrite allReturned_Threw, existsb_exists. split.
      - intros [err Hin]. apply in_map_iff in Hin. destruct Hin as [x [Hx Hin]].
        exists x. split; [exact Hin|].
        rewrite Forall_forall in IH. apply (IH x Hin).
        exists err. destruct x; try exact Hx; discriminate Hx.
      - intros [x [Hin Hu]]. rewrite Forall_forall in IH.
        apply (IH x Hin) in Hu. destruct Hu as [err Hu]. exists err.
        apply in_map_iff. exists x. split; [|exact Hin].
        destruct x; try exact Hu; discriminate Hu. }
    rewrite <- Hf. destruct (allReturned (map f items)) as [parts|e].
    + split; intros [err Hx]; discriminate.
    + split; intros _; now exists e.
  - cbn [ToString unprintable]. destruct (lookup (lit "toString") fields).
    + split; [reflexivity|]. intros _. eexists. reflexivity.
    + split; [intros [err Hf]; discriminate|discriminate].
Qed.

Lemma itemText_throws (item : JsValue) :
  (exists err, YoutubeRoute.itemText item = Threw err)
  <-> exists text, property (lit "text") item = Some text /\ unprintable text = true.
Proof.
  rewrite itemText_spec. destruct (property (lit "text") item) as [text|].
  - assert (Hs : (exists err, ToString text = Threw err)
                 <-> exists text0, Some text = Some text0 /\ unprintable text0 = true).
    { rewrite ToString_throws. split.
      - intros Hu. now exists text.
      - intros [text0 [Ht Hu]]. inversion Ht; subst. exact Hu. }
    destruct text; try exact Hs.
    split; [intros [err Hf]; discriminate|].
    intros [text0 [Ht Hu]]. inversion Ht; subst. discriminate Hu.
  - split; [intros [err Hf]; discriminate|]. intros [text [Ht _]]. discriminate.
Qed.

Lemma items_throw (items : list JsValue) :
  (exists err, allReturned (map YoutubeRoute.itemText items) = Threw err)
  <-> exists item text,
        In item items /\ property (lit "text") item = Some text /\ unprintable text = true.
Proof.
  rewrite allReturned_Threw. split.
  - intros [err Hin]. apply in_map_iff in Hin. destruct Hin as [item [Hi Hin]].
    assert (Ht : exists e, YoutubeRoute.itemText item = Threw e) by (now exists err).
    apply itemText_throws in Ht. destruct Ht as [text [Hp Hu]]. now exists item, text.
  - intros [item [text [Hin [Hp Hu]]]].
    assert (Ht : exists e, YoutubeRoute.itemText item = Threw e).
    { apply itemText_throws. now exists text. }
    destruct Ht as [err Ht]. exists err. apply in_map_iff. now exists item.
Qed.

End Transcript.

(** C10, as stated, fails: with the network down, the fetcher fails on
    [https://youtu.be/abc], although a video id can be extracted and the
    service gave no response at all, so neither a non-ok one nor one whose
    body is not an array. *)
Lemma transcript_fails_when_fetch_rejects :
  ~ @fails_exactly_as_claimed demoEnv (lit "https://youtu.be/abc") demoWorld.
Proof.
  intros [H _].
  destruct H as [Hn|[id [resp [e' [_ [Hf _]]]]]].
  - eexists _, _. reflexivity.
  - vm_compute in Hn. discriminate Hn.
  - vm_compute in Hf. discriminate Hf.
Qed.

(** C10, amended: the fetcher fails exactly when no video id can be
    extracted from the URL (it holds neither [?v=] or [&v=] followed by a
    code unit other than [&], nor [youtu.be/] followed by one other than
    [?]), the request to the transcript service itself fails, the service
    responds non-ok, the body of the response cannot be read as a JSON
    array, or the [text] of some item of the array cannot be converted by
    [String]; otherwise it returns, joined with single spaces, for each item
    of the array [String] of its [text] field, and the empty string for an
    item that is not an object with a [text] field or whose [text] is null.
    [String] fails exactly on an object with a property [toString] of its
    own and on an array that holds such a value. *)
Theorem transcript_fetcher_outcome :
  forall (E : Env) (url : JsString) (w : World),
    (YoutubeRoute.videoIdOf url = None <-> ~ HasVParam url /\ ~ HasShortPath url)
    /\ ((exists err w',
            YoutubeRoute.fetchTranscriptFromYouTube (JStr url) w = (Threw err, w'))
        <-> (YoutubeRoute.videoIdOf url = None
             \/ exists id,
                 YoutubeRoute.videoIdOf url = Some id
                 /\ match fst (fetch (YoutubeRoute.transcriptUrl id) (ext w)) with
                    | Threw _ => True
                    | Returned resp =>
                        ok resp = false
                        \/ (forall items, resp_json resp <> Returned (JArr items))
                        \/ (exists items item text,
                               resp_json resp = Returned (JArr items)
                               /\ In item items
                               /\ property (lit "text") item = Some text
                               /\ unprintable text = true)
                    end))
    /\ (forall transcript w',
           YoutubeRoute.fetchTranscriptFromYouTube (JStr url) w = (Returned transcript, w') ->
           exists id resp items texts,
             YoutubeRoute.videoIdOf url = Some id
             /\ fst (fetch (YoutubeRoute.transcriptUrl id) (ext w)) = Returned resp
             /\ ok resp = true
             /\ resp_json resp = Returned (JArr items)
             /\ map YoutubeRoute.itemText items = map Returned texts
             /\ transcript = join (lit " ") texts)
    /\ (forall item,
           YoutubeRoute.itemText item
           = match property (lit "text") item with
             | None => Returned []
             | Some JNull => Returned []
             | Some v => ToString v
             end)
    /\ (forall v, (exists err, ToString v = Threw err) <-> unprintable v = true).
Proof.
  intros E url w. split; [apply videoIdOf_none|].
  split; [|split; [|split; [apply itemText_spec|apply ToString_throws]]].
  - rewrite fetchTranscript_spec.
    destruct (YoutubeRoute.videoIdOf url) as [id|] eqn:Hid.
    + destruct (fetch (YoutubeRoute.transcriptUrl id) (ext w)) as [[resp|err] e'] eqn:Hf.
      * split.
        -- intros [err [w' Hthrow]]. right. exists id. split; [reflexivity|].
           rewrite Hf. simpl.
           destruct (ok resp); [|now left]. right.
           destruct (resp_json resp) as [[| | | |items|]|e] eqn:Hj;
             try (left; intros items0 Hi; discriminate Hi).
           right.
           assert (Hitems : exists e, allReturned (map YoutubeRoute.itemText items) = Threw e).
           { destruct (allReturned (map YoutubeRoute.itemText items)) as [texts|e];
               [discriminate Hthrow|now exists e]. }
           apply items_throw in Hitems. destruct Hitems as [item [text [Hin [Hp Hu]]]].
           now exists items, item, text.
        -- intros [Hn|[id' [Hid' Hcause]]]; [discriminate|]. inversion Hid'; subst id'.
           rewrite Hf in Hcause. simpl in Hcause.
           destruct (ok resp); [|eexists _, _; reflexivity].
           destruct Hcause as [Hcause|[Hcause|Hcause]]; [discriminate| |].
           ++ destruct (resp_json resp) as [[| | | |items|]|err];
                try (eexists _, _; reflexivity).
              exfalso. now apply (Hcause items).
           ++ destruct Hcause as [items [item [text [Hj [Hin [Hp Hu]]]]]]. rewrite Hj.
              assert (Hitems : exists e,
                         allReturned (map YoutubeRoute.itemText items) = Threw e).
              { apply items_throw. now exists item, text. }
              destruct Hitems as [e He]. rewrite He. eexists _, _. reflexivity.
      * split; [|intros _; eexists _, _; reflexivity].
        intros _. right. exists id. split; [reflexivity|]. now rewrite Hf.
    + split; [now left|]. intros _. eexists _, _. reflexivity.
  - intros transcript w'. rewrite fetchTranscript_spec.
    destruct (YoutubeRoute.videoIdOf url) as [id|]; [|discriminate].
    destruct (fetch (YoutubeRoute.transcriptUrl id) (ext w)) as [[resp|err] e'] eqn:Hf;
      [|discriminate].
    destruct (ok resp) eqn:Hok; [|discriminate].
    destruct (resp_json resp) as [[| | | |items|]|err] eqn:Hj; try discriminate.
    destruct (allReturned (map YoutubeRoute.itemText items)) as [texts|e] eqn:Ha;
      [|discriminate].
    intros Hr. inversion Hr; subst. exists id, resp, items, texts.
    rewrite Hf. repeat split; auto. now apply allReturned_Returned.
Qed.

(** The text of an item that holds a property [toString] cannot be
    converted: with the service answering [[{ text: { toString: 1 } }]], the
    fetcher throws the engine's [TypeError]. *)
Example transcript_with_unprintable_text :
  let body := JArr [JObj [(lit "text", JObj [(lit "toString", JNum 1%float)])]] in
  let service := {| cap_split := cap_split demoCapabilities;
                    cap_embed := cap_embed demoCapabilities;
                    cap_describe := cap_describe demoCapabilities;
                    cap_fetch := fun _ => Returned {| ok := true; resp_json := Returned body |};
                    cap_numberToString := cap_numberToString demoCapabilities;
                    cap_engineMessage := cap_engineMessage demoCapabilities |} in
  fst (@YoutubeRoute.fetchTranscriptFromYouTube (specEnv service)
         (JStr (lit "https://youtu.be/abc")) (@initialWorld (specEnv service) tt))
  = Threw (JsError (@engineMessage (specEnv service) CannotConvertToPrimitive)).
Proof. reflexivity. Qed.

Example transcript_fetched :
  fst (@YoutubeRoute.fetchTranscriptFromYouTube (specEnv onlineCapabilities)
         (JStr (lit "https://www.youtube.com/watch?v=abc&t=10"))
         (@initialWorld (specEnv onlineCapabilities) tt))
  = Returned (lit "a b  ")
  /\ YoutubeRoute.videoIdOf (lit "https://www.youtube.com/watch?v=abc&t=10")
     = Some (lit "abc").
Proof. split; reflexivity. Qed.

(* ------------------------------------------------------------------ *)
(** ** The order of scores

    Comparisons of binary64 numbers that are not NaN form a total preorder.
    A number is sent to a key in [Z * Z * Z] ordered lexicographically. *)

Lemma SFcompare_Lt (x y : spec_float) :
  x <> S754_nan -> y <> S754_nan ->
  (SFcompare x y = Some Lt <-> keyLt (floatKey x) (floatKey y)).
Proof.
  intros Hx Hy.
  destruct x as [sx|sx| |sx mx ex]; try congruence;
    destruct y as [sy|sy| |sy my ey]; try congruence;
    try destruct sx; try destruct sy; simpl;
    try (split; [intros H; try discriminate H; lia | intros H; try reflexivity; lia]).
  - destruct (Z.compare_spec ex ey) as [He|He|He].
    + subst. change (PosDef.Pos.compare_cont Eq mx my) with (Pos.compare mx my).
      destruct (Pos.compare_spec mx my) as [Hm|Hm|Hm]; simpl;
        (split; [intros H; try discriminate H; lia | intros H; try reflexivity; lia]).
    + split; [intros H; try discriminate H; lia | intros H; try reflexivity; lia].
    + split; [intros H; try discriminate H; lia | intros H; try reflexivity; lia].
  - destruct (Z.compare_spec ex ey) as [He|He|He].
    + subst. change (PosDef.Pos.compare_cont Eq mx my) with (Pos.compare mx my).
      destruct (Pos.compare_spec mx my) as [Hm|Hm|Hm]; simpl;
        (split; [intros H; try discriminate H; lia | intros H; try reflexivity; lia]).
    + split; [intros H; try discriminate H; lia | intros H; try reflexivity; lia].
    + split; [intros H; try discriminate H; lia | intros H; try reflexivity; lia].
Qed.

Lemma SFcompare_Eq (x y : spec_float) :
  x <> S754_nan -> y <> S754_nan ->
  (SFcompare x y = Some Eq <-> floatKey x = floatKey y).
Proof.
  intros Hx Hy.
  destruct x as [sx|sx| |sx mx ex]; try congruence;
    destruct y as [sy|sy| |sy my ey]; try congruence;
    try destruct sx; try destruct sy; simpl;
    try (split; [intros H; try discriminate H; reflexivity
                | intros H; try reflexivity; try discriminate H]).
  - destruct (Z.compare_spec ex ey) as [He|He|He].
    + subst. change (PosDef.Pos.compare_cont Eq mx my) with (Pos.compare mx my).
      destruct (Pos.compare_spec mx my) as [Hm|Hm|Hm]; simpl;
        (split; [intros H; try discriminate H; subst; reflexivity
                | intros H; try reflexivity; inversion H; lia]).
    + split; [intros H; discriminate H | intros H; inversion H; lia].
    + split; [intros H; discriminate H | intros H; inversion H; lia].
  - destruct (Z.compare_spec ex ey) as [He|He|He].
    + subst. change (PosDef.Pos.compare_cont Eq mx my) with (Pos.compare mx my).
      destruct (Pos.compare_spec mx my) as [Hm|Hm|Hm]; simpl;
        (split; [intros H; try discriminate H; subst; reflexivity
                | intros H; try reflexivity; inversion H; lia]).
    + split; [intros H; discriminate H | intros H; inversion H; lia].
    + split; [intros H; discriminate H | intros H; inversion H; lia].
Qed.

Lemma SFeqb_refl (x : spec_float) : SFeqb x x = true <-> x <> S754_nan.
Proof.
  unfold SFeqb. split.
  - intros H Hn. subst x. discriminate H.
  - intros Hn. now rewrite (proj2 (SFcompare_Eq Hn Hn) eq_refl).
Qed.

Lemma is_nan_spec (x : float) : PrimFloat.is_nan x = false <-> Prim2SF x <> S754_nan.
Proof.
  unfold PrimFloat.is_nan. rewrite negb_false_iff, FloatAxioms.eqb_spec.
  apply SFeqb_refl.
Qed.

Section ScoreOrder.

Variables x y : float.
Hypothesis Hx : PrimFloat.is_nan x = false.
Hypothesis Hy : PrimFloat.is_nan y = false.

Lemma ltb_key : PrimFloat.ltb x y = true <-> keyLt (scoreKey x) (scoreKey y).
Proof.
  rewrite FloatAxioms.ltb_spec. unfold SFltb, scoreKey.
  apply is_nan_spec in Hx, Hy. rewrite <- (SFcompare_Lt Hx Hy).
  destruct (SFcompare (Prim2SF x) (Prim2SF y)) as [[| |]|]; split; congruence.
Qed.

Lemma eqb_key : PrimFloat.eqb x y = true <-> scoreKey x = scoreKey y.
Proof.
  rewrite FloatAxioms.eqb_spec. unfold SFeqb, scoreKey.
  apply is_nan_spec in Hx, Hy. rewrite <- (SFcompare_Eq Hx Hy).
  destruct (SFcompare (Prim2SF x) (Prim2SF y)) as [[| |]|]; split; congruence.
Qed.

End ScoreOrder.

Lemma keyLt_trichotomy (a b : Z * Z * Z) : keyLt a b \/ a = b \/ keyLt b a.
Proof.
  destruct a as [[a1 a2] a3], b as [[b1 b2] b3]. unfold keyLt.
  destruct (Z.lt_trichotomy a1 b1) as [H|[H|H]]; [lia| |lia].
  destruct (Z.lt_trichotomy a2 b2) as [H2|[H2|H2]]; [lia| |lia].
  destruct (Z.lt_trichotomy a3 b3) as [H3|[H3|H3]]; [lia| |lia].
  right; left. congruence.
Qed.

Lemma keyLt_trans (a b c : Z * Z * Z) : keyLt a b -> keyLt b c -> keyLt a c.
Proof.
  destruct a as [[a1 a2] a3], b as [[b1 b2] b3], c as [[c1 c2] c3]. unfold keyLt. lia.
Qed.

Lemma keyLt_irrefl (a : Z * Z * Z) : ~ keyLt a a.
Proof. destruct a as [[a1 a2] a3]. unfold keyLt. lia. Qed.

(* ------------------------------------------------------------------ *)
(** ** Ranking in the specification's index *)

Module RankingFacts.

Import VectorIndex Ranking.

Lemma ranksBefore_Before (a b : Entry) :
  wellScored a -> wellScored b -> (ranksBefore a b = true <-> Before a b).
Proof.
  intros Ha Hb. unfold ranksBefore, Before.
  rewrite orb_true_iff, andb_true_iff, (@ltb_key (snd b) (snd a) Hb Ha),
    (@eqb_key (snd a) (snd b) Ha Hb), Nat.ltb_lt.
  reflexivity.
Qed.

Lemma Before_trans (a b c : Entry) : Before a b -> Before b c -> Before a c.
Proof.
  unfold Before. intros [H1|[H1 I1]] [H2|[H2 I2]].
  - left. eapply keyLt_trans; eauto.
  - left. now rewrite <- H2.
  - left. now rewrite H1.
  - right. split; [congruence | lia].
Qed.

Lemma Before_total (a b : Entry) :
  ~ Before a b -> id (fst a) <> id (fst b) -> Before b a.
Proof.
  unfold Before. intros Hn Hid.
  destruct (keyLt_trichotomy (scoreKey (snd a)) (scoreKey (snd b))) as [H|[H|H]].
  - now left.
  - right. split; [congruence|].
    destruct (Nat.lt_trichotomy (id (fst a)) (id (fst b))) as [Hl|[Hl|Hl]]; auto.
    + exfalso. apply Hn. now right.
    + contradiction.
  - exfalso. apply Hn. now left.
Qed.

Lemma insertRanked_In (x y : Entry) (l : list Entry) :
  In y (insertRanked x l) <-> y = x \/ In y l.
Proof.
  induction l as [|z l IH]; simpl.
  - intuition.
  - destruct (ranksBefore z x); simpl; [rewrite IH|]; intuition.
Qed.

Lemma insertRanked_perm (x : Entry) (l : list Entry) :
  Permutation (insertRanked x l) (x :: l).
Proof.
  induction l as [|z l IH]; simpl; [apply Permutation_refl|].
  destruct (ranksBefore z x); [|apply Permutation_refl].
  eapply Permutation_trans; [apply perm_skip, IH | apply perm_swap].
Qed.

Lemma insertRanked_sorted (x : Entry) (l : list Entry) :
  wellScored x -> Forall wellScored l ->
  Forall (fun y => id (fst y) <> id (fst x)) l ->
  StronglySorted Ranked l -> StronglySorted Ranked (insertRanked x l).
Proof.
  intros Hx Hl Hid Hs. induction Hs as [|z l Hs IH Hz]; simpl.
  - constructor; constructor.
  - inversion Hl as [|? ? Hwz Hwl]; subst. inversion Hid as [|? ? Hiz Hil]; subst.
    destruct (ranksBefore z x) eqn:Hzx.
    + constructor; [now apply IH|].
      apply Forall_forall. intros y Hy. apply insertRanked_In in Hy as [->|Hy]; auto.
      now apply (proj1 (Forall_forall _ _) Hz).
    + assert (Hxz : Before x z).
      { apply Before_total; auto. intros Hb.
        apply (ranksBefore_Before Hwz Hx) in Hb. unfold Ranked in *. congruence. }
      constructor; [now constructor|].
      constructor; [now apply ranksBefore_Before|].
      apply Forall_forall. intros y Hy.
      assert (Hwy : wellScored y) by now apply (proj1 (Forall_forall _ _) Hwl).
      apply ranksBefore_Before; auto. apply Before_trans with z; auto.
      apply ranksBefore_Before; auto. now apply (proj1 (Forall_forall _ _) Hz).
Qed.

Section Rank.

Variable q : Vec.

Lemma rank_cons (r : IndexRecord) (idx : t) :
  rank q (r :: idx) = insertRanked (scored q r) (rank q idx).
Proof. reflexivity. Qed.

Lemma rank_perm (idx : t) : Permutation (rank q idx) (map (scored q) idx).
Proof.
  induction idx as [|r idx IH]; [apply Permutation_refl|].
  rewrite rank_cons. simpl.
  eapply Permutation_trans; [apply insertRanked_perm | now apply perm_skip].
Qed.

Lemma rank_In (e : Entry) (idx : t) :
  In e (rank q idx) <-> exists r, In r idx /\ e = scored q r.
Proof.
  split.
  - intros H. apply (Permutation_in _ (rank_perm idx)) in H.
    apply in_map_iff in H as [r [Hr Hi]]. now exists r.
  - intros [r [Hi ->]]. apply (Permutation_in _ (Permutation_sym (rank_perm idx))).
    now apply in_map.
Qed.

Lemma scoresDefined_spec (idx : t) :
  scoresDefined q idx = true <-> Forall (fun r => wellScored (scored q r)) idx.
Proof.
  unfold scoresDefined. rewrite forallb_forall, Forall_forall.
  split; intros H r Hr; specialize (H r Hr); unfold wellScored, scored in *; simpl in *.
  - now apply negb_true_iff.
  - now apply negb_true_iff.
Qed.

Lemma rank_sorted (idx : t) :
  NoDup (map id idx) -> scoresDefined q idx = true -> StronglySorted Ranked (rank q idx).
Proof.
  intros Hnd Hsc. apply scoresDefined_spec in Hsc.
  induction idx as [|r idx IH]; [constructor|].
  inversion Hnd as [|? ? Hnotin Hnd']; subst. inversion Hsc as [|? ? Hr Hsc']; subst.
  rewrite rank_cons. apply insertRanked_sorted; auto.
  - apply Forall_forall. intros e He. apply rank_In in He as [r' [Hi ->]].
    now apply (proj1 (Forall_forall _ _) Hsc').
  - apply Forall_forall. intros e He. apply rank_In in He as [r' [Hi ->]]. simpl.
    intros Heq. apply Hnotin. rewrite <- Heq. now apply in_map.
Qed.

End Rank.

Lemma wellFormed_NoDup (idx : t) : wellFormed idx -> NoDup (map id idx).
Proof. unfold wellFormed. intros ->. apply seq_NoDup. Qed.

Lemma wellFormed_add (v : Vec) (c : Document) (idx idx' : t) :
  wellFormed idx -> add v c idx = inr idx' -> wellFormed idx'.
Proof.
  unfold wellFormed, add. intros Hw H. destruct (fits v idx); [|discriminate].
  inversion H; subst. rewrite map_app, length_app, Hw. simpl.
  now rewrite Nat.add_1_r, seq_S.
Qed.

Lemma StronglySorted_between {A} (R : A -> A -> Prop) (l1 l2 l3 : list A) (a b : A) :
  StronglySorted R (l1 ++ a :: l2 ++ b :: l3) ->
  R a b /\ Forall (fun c => R a c /\ R c b) l2.
Proof.
  induction l1 as [|x l1 IH]; simpl; intros H.
  - inversion H as [|? ? Hs Ha]; subst. apply Forall_app in Ha as [Ha2 Ha3].
    inversion Ha3; subst. split; auto.
    apply Forall_forall. intros c Hc. split.
    + now apply (proj1 (Forall_forall _ _) Ha2).
    + clear Ha2 H. induction l2 as [|y l2 IH2]; [destruct Hc|].
      simpl in Hs. inversion Hs as [|? ? Hs' Hy]; subst. destruct Hc as [->|Hc].
      * apply Forall_app in Hy as [_ Hy]. now inversion Hy.
      * now apply IH2.
  - inversion H; subst. now apply IH.
Qed.

End RankingFacts.

(** C2, as stated, fails: for the query [1, 0] the three records of
    [exampleIndex] all score 1, so they are returned in the order of their
    ids 0, 1, 2; the records 0 and 2 hold identical vectors and the record 1
    stands between them. *)
Lemma identical_vectors_not_adjacent :
  ~ ranking_as_claimed [1%float; 0%float] 3 exampleIndex.
Proof.
  intros [_ H].
  specialize (H ({| VectorIndex.id := 0; VectorIndex.vector := [1%float; 0%float];
                    VectorIndex.chunk := chunkNamed "first" |}, 1%float)
                ({| VectorIndex.id := 2; VectorIndex.vector := [1%float; 0%float];
                    VectorIndex.chunk := chunkNamed "third" |}, 1%float)).
  assert (Hadj : (1 =? 1)%float = true /\ false = true).
  { apply H.
    - left. reflexivity.
    - right. right. left. reflexivity.
    - simpl. discriminate.
    - reflexivity. }
  destruct Hadj as [_ Hadj]. discriminate Hadj.
Qed.

(** C2, amended: whenever [search] returns results for an index whose ids
    are the positions of insertion and a query whose cosine similarity to
    every stored vector is defined (no score is NaN), the results are the
    first [k] entries of a ranking that scores every stored vector by cosine
    similarity and is sorted by descending score, ties broken by ascending
    insertion id; two records holding identical vectors have equal scores,
    the earlier-inserted one comes first, and every record ranked between
    them has that same score (they are adjacent unless a record with an
    equal score has an id between theirs). *)
Theorem search_ranking :
  forall (q : VectorIndex.Vec) (k : nat) (idx : VectorIndex.t)
         (results : list VectorIndex.SearchResult),
    VectorIndex.wellFormed idx ->
    VectorIndex.scoresDefined q idx = true ->
    VectorIndex.search q k idx = inr results ->
    results = map VectorIndex.toResult (firstn k (VectorIndex.rank q idx))
    /\ Permutation (VectorIndex.rank q idx)
                   (map (fun r => (r, VectorIndex.cosineSimilarity q (VectorIndex.vector r))) idx)
    /\ StronglySorted (fun a b => VectorIndex.ranksBefore a b = true) (VectorIndex.rank q idx)
    /\ forall l1 a l2 b l3,
        VectorIndex.rank q idx = l1 ++ a :: l2 ++ b :: l3 ->
        VectorIndex.vector (fst a) = VectorIndex.vector (fst b) ->
        snd a = snd b
        /\ VectorIndex.id (fst a) < VectorIndex.id (fst b)
        /\ Forall (fun c => PrimFloat.eqb (snd c) (snd a) = true) l2.
Proof.
  intros q k idx results Hwf Hsc Hs.
  unfold VectorIndex.search in Hs. destruct (VectorIndex.fits q idx); [|discriminate].
  inversion Hs; subst results; clear Hs.
  pose proof (@RankingFacts.rank_sorted q idx (RankingFacts.wellFormed_NoDup Hwf) Hsc)
    as Hsorted.
  split; [reflexivity|]. split; [apply RankingFacts.rank_perm|]. split; [exact Hsorted|].
  intros l1 a l2 b l3 Hr Hv.
  assert (Hin : forall e, In e (VectorIndex.rank q idx) ->
                  Ranking.wellScored e
                  /\ snd e = VectorIndex.cosineSimilarity q (VectorIndex.vector (fst e))).
  { intros e He. apply RankingFacts.rank_In in He as [r [Hi ->]]. split; [|reflexivity].
    apply RankingFacts.scoresDefined_spec in Hsc.
    now apply (proj1 (Forall_forall _ _) Hsc). }
  assert (Ha : In a (VectorIndex.rank q idx)).
  { rewrite Hr. apply in_or_app. right. now left. }
  assert (Hb : In b (VectorIndex.rank q idx)).
  { rewrite Hr. apply in_or_app. right. right. apply in_or_app. right. now left. }
  destruct (Hin a Ha) as [Hwa Hsa]. destruct (Hin b Hb) as [Hwb Hsb].
  assert (Hab : snd a = snd b) by (rewrite Hsa, Hsb, Hv; reflexivity).
  rewrite Hr in Hsorted.
  destruct (RankingFacts.StronglySorted_between _ _ _ _ _ Hsorted) as [Hab' Hmid].
  apply (RankingFacts.ranksBefore_Before Hwa Hwb) in Hab'.
  split; [exact Hab|]. split.
  - destruct Hab' as [Hlt|[_ Hid]]; [|exact Hid].
    rewrite Hab in Hlt. now apply keyLt_irrefl in Hlt.
  - apply Forall_forall. intros c Hc.
    assert (Hcin : In c (VectorIndex.rank q idx)).
    { rewrite Hr. apply in_or_app. right. right. apply in_or_app. now left. }
    destruct (Hin c Hcin) as [Hwc _].
    destruct (proj1 (Forall_forall _ _) Hmid c Hc) as [Hac Hcb].
    apply (RankingFacts.ranksBefore_Before Hwa Hwc) in Hac.
    apply (RankingFacts.ranksBefore_Before Hwc Hwb) in Hcb.
    apply (@eqb_key (snd c) (snd a) Hwc Hwa).
    unfold Ranking.Before in Hac, Hcb. rewrite <- Hab in Hcb.
    destruct (keyLt_trichotomy (scoreKey (snd c)) (scoreKey (snd a))) as [H|[H|H]]; auto.
    + exfalso. destruct Hcb as [Hcb|[Hcb _]].
      * apply (@keyLt_irrefl (scoreKey (snd a))). eapply keyLt_trans; eauto.
      * rewrite Hcb in H. now apply keyLt_irrefl in H.
    + exfalso. destruct Hac as [Hac|[Hac _]].
      * apply (@keyLt_irrefl (scoreKey (snd a))). eapply keyLt_trans; eauto.
      * rewrite Hac in H. now apply keyLt_irrefl in H.
Qed.

Lemma search_ranking_witness :
  VectorIndex.wellFormed exampleIndex
  /\ VectorIndex.scoresDefined [1%float; 0%float] exampleIndex = true
  /\ VectorIndex.search [1%float; 0%float] 2 exampleIndex
     = inr (map VectorIndex.toResult
                (firstn 2 (VectorIndex.rank [1%float; 0%float] exampleIndex)))
  /\ (map VectorIndex.toResult (firstn 2 (VectorIndex.rank [1%float; 0%float] exampleIndex))
      = map VectorIndex.toResult (firstn 2 (VectorIndex.rank [1%float; 0%float] exampleIndex))
      /\ Permutation (VectorIndex.rank [1%float; 0%float] exampleIndex)
                     (map (fun r => (r, VectorIndex.cosineSimilarity [1%float; 0%float]
                                          (VectorIndex.vector r))) exampleIndex)
      /\ StronglySorted (fun a b => VectorIndex.ranksBefore a b = true)
                        (VectorIndex.rank [1%float; 0%float] exampleIndex)
      /\ forall l1 a l2 b l3,
          VectorIndex.rank [1%float; 0%float] exampleIndex = l1 ++ a :: l2 ++ b :: l3 ->
          VectorIndex.vector (fst a) = VectorIndex.vector (fst b) ->
          snd a = snd b
          /\ VectorIndex.id (fst a) < VectorIndex.id (fst b)
          /\ Forall (fun c => PrimFloat.eqb (snd c) (snd a) = true) l2).
Proof.
  split; [reflexivity|]. split; [reflexivity|]. split; [reflexivity|].
  apply (@search_ranking [1%float; 0%float] 2 exampleIndex); reflexivity.
Defined.

(** The ranking of the example, computed: ids 0, 1, 2, each with score 1. *)
Example exampleIndex_ranking :
  map (fun e => (VectorIndex.id (fst e), snd e))
      (VectorIndex.rank [1%float; 0%float] exampleIndex)
  = [(0, 1%float); (1, 1%float); (2, 1%float)].
Proof. reflexivity. Qed.

Lemma search_nil (q : VectorIndex.Vec) (k : nat) : VectorIndex.search q k [] = inr [].
Proof. unfold VectorIndex.search. simpl. now rewrite firstn_nil. Qed.

Lemma spec_similaritySearch_nil (c : Capabilities) (text : JsString) (v : VectorIndex.Vec) :
  cap_embed c text = Some v ->
  SpecStore.similaritySearch c [] (JStr text) (JNum 4%float) = Returned [].
Proof.
  intros Hv. unfold SpecStore.similaritySearch. rewrite Hv.
  change (SpecStore.toCount (JNum 4%float)) with (Some 4). cbv iota.
  now rewrite search_nil.
Qed.

(** C6. Searching an index that holds zero records returns the empty
    sequence and no error, for every query vector and every [k]; and in a
    process whose index holds no record (not yet created, or created and
    empty) a query whose text the embedder accepts is answered 200 with no
    results. *)
Theorem search_empty_index :
  (forall (q : VectorIndex.Vec) (k : nat), VectorIndex.search q k [] = inr [])
  /\ (forall (c : Capabilities) (w : @World (specEnv c)) (text : JsString) (v : VectorIndex.Vec),
         (@vectorStorePromise (specEnv c) w = None /\ @heap (specEnv c) w = [])
         \/ (@vectorStorePromise (specEnv c) w = Some (Fulfilled 0)
             /\ @heap (specEnv c) w = [[]]) ->
         text <> [] -> cap_embed c text = Some v ->
         fst (@QueryRoute.POST (specEnv c) (queryRequest text) w)
         = json200 (ResultsBody [])).
Proof.
  split; [exact search_nil|].
  intros c w text v Hw Ht Hv.
  rewrite (@QueryRoute_truthy (specEnv c) w (queryRequest text) _ (JStr text) eq_refl);
    [| unfold property, lookup; now rewrite str_eqb_refl
     | destruct text; [congruence|reflexivity] ].
  assert (Hk : nullish (property (lit "k") (JObj [(lit "query", JStr text)])) (JNum 4%float)
               = JNum 4%float) by reflexivity.
  rewrite Hk.
  destruct Hw as [[Hp Hh]|[Hp Hh]].
  - unfold Langchain.similaritySearch, bind.
    rewrite (@getVectorStore_creates (specEnv c) w tt (ext w) [] (ext w) Hp Hh eq_refl eq_refl).
    unfold store_similaritySearch. cbn [heap nth_error ext].
    change (@HNSWLib_similaritySearch (specEnv c) [] (JStr text) (JNum 4%float) (ext w))
      with (SpecStore.similaritySearch c [] (JStr text) (JNum 4%float),
            ([] : VectorIndex.t), ext w).
    rewrite (spec_similaritySearch_nil c text Hv). reflexivity.
  - rewrite (@similaritySearch_on_store (specEnv c) w [] (JStr text) (JNum 4%float) Hp Hh).
    change (@HNSWLib_similaritySearch (specEnv c) [] (JStr text) (JNum 4%float) (ext w))
      with (SpecStore.similaritySearch c [] (JStr text) (JNum 4%float),
            ([] : VectorIndex.t), ext w).
    rewrite (spec_similaritySearch_nil c text Hv). reflexivity.
Qed.

(* ------------------------------------------------------------------ *)
(** ** Ingestion into the specification's index *)

Module IngestionFacts.

Import VectorIndex.

Lemma add_inr (v : Vec) (c : Document) (idx idx' : t) :
  add v c idx = inr idx' ->
  fits v idx = true /\ idx' = idx ++ [{| id := length idx; vector := v; chunk := c |}].
Proof.
  unfold add. destruct (fits v idx); [|discriminate]. intros H. now inversion H.
Qed.

Lemma dimension_app (idx : t) (r : IndexRecord) (d : nat) :
  dimension idx = Some d -> dimension (idx ++ [r]) = Some d.
Proof. destruct idx; simpl; [discriminate|auto]. Qed.

Lemma addBatch_ok (pairs : list (Vec * Document)) (idx idx' : t) :
  addBatch pairs idx = (None, idx') ->
  map chunk idx' = map chunk idx ++ map snd pairs
  /\ length idx' = length idx + length pairs.
Proof.
  revert idx; induction pairs as [|[v c] rest IH]; intros idx H; simpl in H.
  - inversion H; subst. rewrite app_nil_r. simpl. now rewrite Nat.add_0_r.
  - destruct (add v c idx) as [e|idx1] eqn:Ha; [discriminate|].
    apply add_inr in Ha as [_ ->]. apply IH in H as [Hc Hl].
    rewrite Hc, Hl, map_app, length_app, <- app_assoc. simpl. split; [reflexivity|lia].
Qed.

Lemma addBatch_fit (pairs : list (Vec * Document)) (idx idx' : t) (d : nat) :
  dimension idx = Some d -> addBatch pairs idx = (None, idx') ->
  allFit d pairs /\ dimension idx' = Some d.
Proof.
  revert idx; induction pairs as [|[v c] rest IH]; intros idx Hd H; simpl in H.
  - inversion H; subst. split; [constructor|exact Hd].
  - destruct (add v c idx) as [e|idx1] eqn:Ha; [discriminate|].
    apply add_inr in Ha as [Hf ->]. unfold fits in Hf. rewrite Hd in Hf.
    apply Nat.eqb_eq in Hf.
    destruct (IH _ (dimension_app _ _ Hd) H) as [Hrest Hd'].
    split; [constructor; auto|exact Hd'].
Qed.

Lemma addBatch_succeeds (pairs : list (Vec * Document)) (idx : t) (d : nat) :
  dimension idx = Some d -> allFit d pairs -> exists idx', addBatch pairs idx = (None, idx').
Proof.
  revert idx; induction pairs as [|[v c] rest IH]; intros idx Hd Hfit; simpl.
  - now exists idx.
  - apply Forall_cons_iff in Hfit as [Hv Hrest]. simpl in Hv.
    unfold add, fits. rewrite Hd, Hv, Nat.eqb_refl.
    apply IH; auto. now apply dimension_app.
Qed.

(** A batch that was accepted is accepted again: duplicates are not rejected. *)
Lemma addBatch_again (pairs : list (Vec * Document)) (idx idx' : t) :
  addBatch pairs idx = (None, idx') -> exists idx'', addBatch pairs idx' = (None, idx'').
Proof.
  intros H. destruct (dimension idx) as [d|] eqn:Hd.
  - destruct (addBatch_fit _ _ Hd H) as [Hfit Hd'].
    now apply addBatch_succeeds with d.
  - destruct idx as [|r idx]; [|discriminate]. destruct pairs as [|[v c] rest].
    + simpl in H. inversion H; subst. now exists [].
    + simpl in H. unfold add in H. simpl in H.
      assert (Hd1 : dimension [{| id := 0; vector := v; chunk := c |}] = Some (length v))
        by reflexivity.
      destruct (addBatch_fit _ _ Hd1 H) as [Hfit Hd'].
      apply addBatch_succeeds with (length v); auto. constructor; auto.
Qed.

Section Embedding.

Variable embed : JsString -> option Vec.

Lemma embedAll_shift (n m : nat) (docs : list Document) (pairs : list (Vec * Document)) :
  SpecStore.embedAll embed n docs = inr pairs -> SpecStore.embedAll embed m docs = inr pairs.
Proof.
  revert n m pairs; induction docs as [|d docs IH]; intros n m pairs H; simpl in *; auto.
  destruct (embed (pageContent d)) as [v|]; [|discriminate].
  destruct (SpecStore.embedAll embed (S n) docs) as [j|ps] eqn:Hr; [discriminate|].
  now rewrite (IH _ (S m) _ Hr).
Qed.

Lemma embedAll_chunks (n : nat) (docs : list Document) (pairs : list (Vec * Document)) :
  SpecStore.embedAll embed n docs = inr pairs -> map snd pairs = docs.
Proof.
  revert n pairs; induction docs as [|d docs IH]; intros n pairs H; simpl in *.
  - now inversion H.
  - destruct (embed (pageContent d)) as [v|]; [|discriminate].
    destruct (SpecStore.embedAll embed (S n) docs) as [j|ps] eqn:Hr; [discriminate|].
    inversion H; subst. simpl. f_equal. now apply (IH (S n)).
Qed.

(** When some chunk fails to embed, [embedAll] reports the first such chunk. *)
Lemma embedAll_fails (n : nat) (docs : list Document) (d : Document) :
  In d docs -> embed (pageContent d) = None ->
  exists i failed,
    SpecStore.embedAll embed n docs = inl (n + i)
    /\ nth_error docs i = Some failed
    /\ embed (pageContent failed) = None
    /\ forall j dj, j < i -> nth_error docs j = Some dj -> embed (pageContent dj) <> None.
Proof.
  revert n; induction docs as [|d0 docs IH]; intros n Hin Hd; [destruct Hin|].
  simpl. destruct (embed (pageContent d0)) as [v|] eqn:H0.
  - destruct Hin as [->|Hin]; [congruence|].
    destruct (IH (S n) Hin Hd) as [i [failed [He [Hn [Hf Hbefore]]]]].
    exists (S i), failed. rewrite He. split; [f_equal; lia|]. split; [exact Hn|].
    split; [exact Hf|]. intros [|j] dj Hj Hnth; simpl in Hnth.
    + inversion Hnth; subst. congruence.
    + apply (Hbefore j); auto. lia.
  - exists 0, d0. split; [f_equal; lia|]. split; [reflexivity|]. split; [exact H0|].
    intros j dj Hj. lia.
Qed.

End Embedding.

End IngestionFacts.

Section SpecProcess.

Variable c : Capabilities.

(** Every world the process reaches is ready: creating the empty index
    cannot fail. *)
Lemma StoreReady_reachable (ops : list Operation) :
  StoreReady c (@serveAll (specEnv c) ops (@initialWorld (specEnv c) tt)).
Proof.
  pose proof (@reachable_Inv (specEnv c) tt ops) as HI.
  set (w := @serveAll (specEnv c) ops (@initialWorld (specEnv c) tt)) in *.
  pose proof (inv_state HI) as Hst. unfold StoreReady.
  destruct (@vectorStorePromise (specEnv c) w) as [[r|err]|] eqn:Hp.
  - right. destruct (@Inv_store (specEnv c) w r HI Hp) as [-> [s Hs]]. now exists s.
  - destruct Hst as [_ [_ [emb [e1 [e2 Hf]]]]]. simpl in Hf. discriminate Hf.
  - left. now destruct Hst.
Qed.

Lemma spec_addDocumentsToStore (w : @World (specEnv c)) (docs : list Document) :
  StoreReady c w ->
  exists w',
    @Langchain.addDocumentsToStore (specEnv c) docs w = (fst (added w docs), w')
    /\ @vectorStorePromise (specEnv c) w' = Some (Fulfilled 0)
    /\ @heap (specEnv c) w' = [snd (added w docs)].
Proof.
  unfold added, indexRecords. intros [[Hp Hh]|[idx [Hp Hh]]].
  - unfold Langchain.addDocumentsToStore, bind.
    rewrite (@getVectorStore_creates (specEnv c) w tt (ext w) [] (ext w) Hp Hh eq_refl eq_refl).
    unfold store_addDocuments. cbn [heap nth_error ext vectorStorePromise calls].
    change (@HNSWLib_addDocuments (specEnv c) [] docs (@ext (specEnv c) w))
      with (SpecStore.addDocuments c [] docs, @ext (specEnv c) w).
    rewrite Hh. destruct (SpecStore.addDocuments c [] docs) as [o idx'].
    eexists. split; [reflexivity|]. split; reflexivity.
  - rewrite (@addDocumentsToStore_on_store (specEnv c) w idx docs Hp Hh).
    change (@HNSWLib_addDocuments (specEnv c) idx docs (@ext (specEnv c) w))
      with (SpecStore.addDocuments c idx docs, @ext (specEnv c) w).
    rewrite Hh. destruct (SpecStore.addDocuments c idx docs) as [o idx'].
    eexists. split; [reflexivity|]. split; reflexivity.
Qed.

(** The pasted-text route on a text that is not blank. *)
Lemma spec_TextRoute (w : @World (specEnv c)) (text : JsString) :
  StoreReady c w -> trim text <> [] ->
  let docs := cap_split c {| chunkSize := 1000; chunkOverlap := 200 |} [text] in
  exists w',
    @TextRoute.POST (specEnv c) (textRequest text) w
    = (match fst (added w docs) with
       | Returned _ => json200 (AddedBody (length docs))
       | Threw err =>
           jsonStatus (ErrorBody (match err with
                                  | JsError msg => msg
                                  | NonError => lit "Failed to ingest text"
                                  end)) 500
       end, w')
    /\ StoreReady c w'
    /\ indexRecords c w' = snd (added w docs).
Proof.
  intros Hw Ht docs.
  destruct (spec_addDocumentsToStore docs Hw) as [w' [Ha [Hp Hh]]].
  exists w'. split; [|split].
  - unfold TextRoute.POST, tryCatch, bind, textRequest, jsonRequest.
    cbn [request_json await ret].
    rewrite (@destructure_not_null (specEnv c) w _ (lit "text") (lit "text"))
      by discriminate.
    assert (Hprop : property (lit "text") (JObj [(lit "text", JStr text)]) = Some (JStr text)).
    { unfold property, lookup. now rewrite str_eqb_refl. }
    rewrite Hprop.
    assert (Hg : negb (truthy (Some (JStr text))) || negb (isString (Some (JStr text)))
                 || (N.of_nat (length (trim (asString (Some (JStr text))))) =? 0)%N = false).
    { simpl asString. destruct text as [|x text]; [now elim Ht|].
      destruct (trim (x :: text)); [now elim Ht|]. reflexivity. }
    rewrite Hg. cbv iota. unfold Langchain.splitToDocuments, ret.
    change (@createDocuments (specEnv c) {| chunkSize := 1000; chunkOverlap := 200 |} [asString (Some (JStr text))])
      with docs.
    rewrite Ha. destruct (fst (added w docs)) as [u|err]; reflexivity.
  - right. now exists (snd (added w docs)).
  - unfold indexRecords. now rewrite Hh.
Qed.

End SpecProcess.

Lemma spec_addDocuments_ok (c : Capabilities) (idx : VectorIndex.t) (docs : list Document) (u : unit) :
  fst (SpecStore.addDocuments c idx docs) = Returned u ->
  exists pairs,
    SpecStore.embedAll (cap_embed c) 0 docs = inr pairs
    /\ VectorIndex.addBatch pairs idx = (None, snd (SpecStore.addDocuments c idx docs)).
Proof.
  unfold SpecStore.addDocuments.
  destruct (SpecStore.embedAll (cap_embed c) 0 docs) as [i|pairs]; [discriminate|].
  destruct (VectorIndex.addBatch pairs idx) as [[e|] idx'] eqn:Hb; [discriminate|].
  intros _. now exists pairs.
Qed.

Lemma spec_addDocuments_again (c : Capabilities) (idx : VectorIndex.t) (docs : list Document) (u : unit) :
  fst (SpecStore.addDocuments c idx docs) = Returned u ->
  let idx1 := snd (SpecStore.addDocuments c idx docs) in
  fst (SpecStore.addDocuments c idx1 docs) = Returned tt
  /\ map VectorIndex.chunk idx1 = map VectorIndex.chunk idx ++ docs
  /\ length idx1 = length idx + length docs
  /\ map VectorIndex.chunk (snd (SpecStore.addDocuments c idx1 docs))
     = map VectorIndex.chunk idx1 ++ docs
  /\ length (snd (SpecStore.addDocuments c idx1 docs)) = length idx1 + length docs.
Proof.
  intros H idx1. destruct (spec_addDocuments_ok c idx docs H) as [pairs [He Hb]].
  fold idx1 in Hb.
  destruct (IngestionFacts.addBatch_again _ _ Hb) as [idx2 Hb2].
  pose proof (IngestionFacts.embedAll_chunks _ _ _ He) as Hdocs.
  assert (Hlen : length pairs = length docs) by (rewrite <- Hdocs; now rewrite length_map).
  destruct (IngestionFacts.addBatch_ok _ _ Hb) as [Hc1 Hl1].
  destruct (IngestionFacts.addBatch_ok _ _ Hb2) as [Hc2 Hl2].
  assert (Hsecond : SpecStore.addDocuments c idx1 docs = (Returned tt, idx2)).
  { unfold SpecStore.addDocuments. now rewrite He, Hb2. }
  rewrite Hsecond. simpl. rewrite Hdocs in Hc1, Hc2. rewrite Hlen in Hl1, Hl2.
  repeat split; assumption.
Qed.

(** C5. If the embedding step fails for any one chunk of an ingestion call,
    the whole call fails: the pasted-text route answers 500 with the
    embedding failure annotated with the index of the first chunk that
    failed, and the records of the vector index are what they were before
    the call. *)
Theorem embedding_failure_fails_ingestion :
  forall (c : Capabilities) (w : @World (specEnv c)) (text : JsString) (d : Document),
    StoreReady c w -> trim text <> [] ->
    In d (cap_split c {| chunkSize := 1000; chunkOverlap := 200 |} [text]) ->
    cap_embed c (pageContent d) = None ->
    exists i failed,
      nth_error (cap_split c {| chunkSize := 1000; chunkOverlap := 200 |} [text]) i
      = Some failed
      /\ cap_embed c (pageContent failed) = None
      /\ (forall j dj,
             j < i ->
             nth_error (cap_split c {| chunkSize := 1000; chunkOverlap := 200 |} [text]) j
             = Some dj ->
             cap_embed c (pageContent dj) <> None)
      /\ fst (@TextRoute.POST (specEnv c) (textRequest text) w)
         = jsonStatus
             (ErrorBody (cap_describe c (VectorIndex.EmbeddingFailure (Some i)))) 500
      /\ indexRecords c (snd (@TextRoute.POST (specEnv c) (textRequest text) w))
         = indexRecords c w.
Proof.
  intros c w text d Hw Ht Hin Hd.
  set (docs := cap_split c {| chunkSize := 1000; chunkOverlap := 200 |} [text]) in *.
  destruct (IngestionFacts.embedAll_fails (cap_embed c) 0 docs d Hin Hd)
    as [i [failed [He [Hn [Hf Hbefore]]]]].
  exists i, failed. split; [exact Hn|]. split; [exact Hf|]. split; [exact Hbefore|].
  destruct (spec_TextRoute text Hw Ht) as [w' [HP [_ Hrec]]]. fold docs in HP, Hrec.
  assert (Hadd : added w docs
                 = (Threw (JsError (cap_describe c (VectorIndex.EmbeddingFailure (Some i)))),
                    indexRecords c w)).
  { unfold added, SpecStore.addDocuments. now rewrite He. }
  rewrite HP. rewrite Hadd in *. simpl. split; [reflexivity|exact Hrec].
Qed.

Lemma embedding_failure_fails_ingestion_witness :
  StoreReady flakyCapabilities
    (snd (@TextRoute.POST (specEnv flakyCapabilities) (textRequest (lit "kept"))
            (@initialWorld (specEnv flakyCapabilities) tt)))
  /\ trim (lit "good|bad|more") <> []
  /\ In {| pageContent := lit "bad"; metadata := [] |}
        (cap_split flakyCapabilities {| chunkSize := 1000; chunkOverlap := 200 |}
           [lit "good|bad|more"])
  /\ cap_embed flakyCapabilities (lit "bad") = None
  /\ exists i failed,
      nth_error (cap_split flakyCapabilities {| chunkSize := 1000; chunkOverlap := 200 |}
                   [lit "good|bad|more"]) i
      = Some failed
      /\ cap_embed flakyCapabilities (pageContent failed) = None
      /\ (forall j dj,
             j < i ->
             nth_error (cap_split flakyCapabilities
                          {| chunkSize := 1000; chunkOverlap := 200 |}
                          [lit "good|bad|more"]) j
             = Some dj ->
             cap_embed flakyCapabilities (pageContent dj) <> None)
      /\ fst (@TextRoute.POST (specEnv flakyCapabilities) (textRequest (lit "good|bad|more"))
                (snd (@TextRoute.POST (specEnv flakyCapabilities) (textRequest (lit "kept"))
                        (@initialWorld (specEnv flakyCapabilities) tt))))
         = jsonStatus
             (ErrorBody (cap_describe flakyCapabilities
                           (VectorIndex.EmbeddingFailure (Some i)))) 500
      /\ indexRecords flakyCapabilities
           (snd (@TextRoute.POST (specEnv flakyCapabilities)
                   (textRequest (lit "good|bad|more"))
                   (snd (@TextRoute.POST (specEnv flakyCapabilities)
                           (textRequest (lit "kept"))
                           (@initialWorld (specEnv flakyCapabilities) tt)))))
         = indexRecords flakyCapabilities
             (snd (@TextRoute.POST (specEnv flakyCapabilities) (textRequest (lit "kept"))
                     (@initialWorld (specEnv flakyCapabilities) tt))).
Proof.
  assert (Hready : StoreReady flakyCapabilities
            (snd (@TextRoute.POST (specEnv flakyCapabilities) (textRequest (lit "kept"))
                    (@initialWorld (specEnv flakyCapabilities) tt)))).
  { right. eexists. split; reflexivity. }
  assert (Htrim : trim (lit "good|bad|more") <> []) by (vm_compute; discriminate).
  assert (Hin : In {| pageContent := lit "bad"; metadata := [] |}
                   (cap_split flakyCapabilities {| chunkSize := 1000; chunkOverlap := 200 |}
                      [lit "good|bad|more"])).
  { right. left. reflexivity. }
  split; [exact Hready|]. split; [exact Htrim|]. split; [exact Hin|].
  split; [reflexivity|].
  exact (@embedding_failure_fails_ingestion flakyCapabilities _ (lit "good|bad|more")
           {| pageContent := lit "bad"; metadata := [] |} Hready Htrim Hin eq_refl).
Defined.

(** The failed ingestion of the witness, computed: chunk 1 is reported. *)
Example embedding_failure_reported :
  fst (@TextRoute.POST (specEnv flakyCapabilities) (textRequest (lit "good|bad|more"))
         (@initialWorld (specEnv flakyCapabilities) tt))
  = jsonStatus (ErrorBody (lit "EmbeddingFailure at chunk 1")) 500.
Proof. reflexivity. Qed.

(** C8. Nothing is deduplicated: when an ingestion of [text] succeeds, so
    does a second ingestion of the same text; each answers with the same
    number of chunks, each appends that many records, and the index then
    holds the chunks twice, after whatever it held before. *)
Theorem ingesting_twice_adds_twice :
  forall (c : Capabilities) (w : @World (specEnv c)) (text : JsString),
    StoreReady c w ->
    status (fst (@TextRoute.POST (specEnv c) (textRequest text) w)) = 200%N ->
    let docs := cap_split c {| chunkSize := 1000; chunkOverlap := 200 |} [text] in
    let first := @TextRoute.POST (specEnv c) (textRequest text) w in
    let second := @TextRoute.POST (specEnv c) (textRequest text) (snd first) in
    fst first = json200 (AddedBody (length docs))
    /\ fst second = json200 (AddedBody (length docs))
    /\ length (indexRecords c (snd first)) = length (indexRecords c w) + length docs
    /\ length (indexRecords c (snd second))
       = length (indexRecords c (snd first)) + length docs
    /\ map VectorIndex.chunk (indexRecords c (snd second))
       = map VectorIndex.chunk (indexRecords c w) ++ docs ++ docs.
Proof.
  intros c w text Hw Hs docs first second.
  assert (Ht : trim text <> []).
  { intros Hb.
    rewrite (@TextRoute_invalid (specEnv c) w (textRequest text)
               (JObj [(lit "text", JStr text)]) eq_refl) in Hs.
    - discriminate Hs.
    - discriminate.
    - right. unfold property, lookup. rewrite str_eqb_refl. exact Hb. }
  destruct (spec_TextRoute text Hw Ht) as [w1 [HP1 [Hw1 Hrec1]]].
  fold docs in HP1, Hrec1. fold first in HP1, Hs.
  destruct (fst (added w docs)) as [u|err] eqn:Hadd;
    [|rewrite HP1 in Hs; discriminate Hs].
  destruct (spec_addDocuments_again c (indexRecords c w) docs Hadd)
    as [Hagain [Hc1 [Hl1 [Hc2 Hl2]]]].
  assert (Hsnd : snd first = w1) by now rewrite HP1.
  destruct (spec_TextRoute text Hw1 Ht) as [w2 [HP2 [_ Hrec2]]].
  fold docs in HP2, Hrec2.
  assert (Hsecond : second = (json200 (AddedBody (length docs)), w2)).
  { unfold second. rewrite Hsnd, HP2. unfold added. rewrite Hrec1. unfold added.
    now rewrite Hagain. }
  rewrite HP1, Hsecond. cbn [fst snd]. rewrite Hrec2. unfold added. rewrite Hrec1.
  unfold added.
  split; [reflexivity|]. split; [reflexivity|].
  split; [exact Hl1|]. split; [exact Hl2|].
  rewrite Hc2, Hc1, <- app_assoc. reflexivity.
Qed.

Lemma ingesting_twice_adds_twice_witness :
  StoreReady demoCapabilities demoWorldWithHello
  /\ status (fst (@TextRoute.POST demoEnv (textRequest (lit "hello")) demoWorldWithHello))
     = 200%N
  /\ fst (@TextRoute.POST demoEnv (textRequest (lit "hello")) demoWorldWithHello)
     = json200 (AddedBody 1)
  /\ length (indexRecords demoCapabilities
               (snd (@TextRoute.POST demoEnv (textRequest (lit "hello")) demoWorldWithHello)))
     = 2.
Proof.
  assert (Hready : StoreReady demoCapabilities demoWorldWithHello).
  { right. eexists. split; reflexivity. }
  split; [exact Hready|]. split; [reflexivity|].
  pose proof (@ingesting_twice_adds_twice demoCapabilities demoWorldWithHello (lit "hello")
                Hready eq_refl) as H.
  cbv zeta in H. destruct H as [H1 [_ [H3 _]]].
  split; [exact H1|exact H3].
Defined.

(* ------------------------------------------------------------------ *)
(** ** The routes, request by request *)

Section RouteTails.

Context {E : Env}.

(** What each route does once its input has passed validation. *)

Lemma UploadRoute_file (w : World) (request : Request) form (f : File) :
  request_formData request = Returned form ->
  form_get form (lit "file") = Some (FormFile f) ->
  UploadRoute.POST request w = tryCatch (lit "Failed to ingest file") (ingest (file_text f)) w.
Proof.
  intros Hf Hg. unfold UploadRoute.POST, tryCatch, bind at 1. rewrite Hf. simpl await.
  unfold ret at 1. rewrite Hg. reflexivity.
Qed.

Lemma TextRoute_valid (w : World) (request : Request) (json : JsValue) (s : JsString) :
  request_json request = Returned json ->
  property (lit "text") json = Some (JStr s) -> trim s <> [] ->
  TextRoute.POST request w = tryCatch (lit "Failed to ingest text") (ingest s) w.
Proof.
  intros Hj Hp Ht. unfold TextRoute.POST, tryCatch, bind at 1. rewrite Hj. simpl await.
  unfold ret at 1. unfold bind at 1.
  assert (Hn : json <> JNull) by (intros ->; discriminate).
  rewrite (destructure_not_null _ _ _ Hn), Hp.
  assert (Hg : negb (truthy (Some (JStr s))) || negb (isString (Some (JStr s)))
               || (N.of_nat (length (trim (asString (Some (JStr s))))) =? 0)%N = false).
  { simpl. destruct s as [|c s]; [now destruct Ht|]. simpl.
    destruct (trim (c :: s)) eqn:Htr; [now destruct Ht|reflexivity]. }
  rewrite Hg. reflexivity.
Qed.

Lemma YoutubeRoute_truthy (w : World) (request : Request) (json u : JsValue) :
  request_json request = Returned json ->
  property (lit "url") json = Some u -> truthy (Some u) = true ->
  YoutubeRoute.POST request w
  = tryCatch (lit "Failed to ingest YouTube")
      (transcript <- YoutubeRoute.fetchTranscriptFromYouTube u ;; ingest transcript) w.
Proof.
  intros Hj Hp Ht. unfold YoutubeRoute.POST, tryCatch, bind at 1. rewrite Hj. simpl await.
  unfold ret at 1. unfold bind at 1.
  assert (Hn : json <> JNull) by (intros ->; discriminate).
  rewrite (destructure_not_null _ _ _ Hn), Hp, Ht. reflexivity.
Qed.

Lemma YoutubeRoute_falsy (w : World) (request : Request) (json : JsValue) :
  request_json request = Returned json -> json <> JNull ->
  truthy (property (lit "url") json) = false ->
  YoutubeRoute.POST request w = (jsonStatus (ErrorBody (lit "Missing url")) 400, w).
Proof.
  intros Hj Hn Hu. unfold YoutubeRoute.POST, tryCatch, bind. rewrite Hj. simpl await.
  unfold ret at 1. rewrite (destructure_not_null _ _ _ Hn).
  destruct (property (lit "url") json) as [u|]; [|reflexivity].
  rewrite Hu. reflexivity.
Qed.

Lemma QueryRoute_falsy (w : World) (request : Request) (json : JsValue) :
  request_json request = Returned json -> json <> JNull ->
  truthy (property (lit "query") json) = false ->
  QueryRoute.POST request w = (jsonStatus (ErrorBody (lit "Missing query")) 400, w).
Proof.
  intros Hj Hn Hq. unfold QueryRoute.POST, tryCatch, bind. rewrite Hj. simpl await.
  unfold ret at 1. rewrite !(destructure_not_null _ _ _ Hn).
  destruct (property (lit "query") json) as [q|]; [|reflexivity].
  rewrite Hq. reflexivity.
Qed.

Lemma UploadRoute_no_file (w : World) (request : Request) form :
  request_formData request = Returned form ->
  (forall f, form_get form (lit "file") <> Some (FormFile f)) ->
  UploadRoute.POST request w = (jsonStatus (ErrorBody (lit "No file provided")) 400, w).
Proof.
  intros Hf Hg. unfold UploadRoute.POST, tryCatch, bind. rewrite Hf. simpl await.
  unfold ret at 1.
  destruct (form_get form (lit "file")) as [[s|f]|] eqn:Hget; try reflexivity.
  now destruct (Hg f).
Qed.

(** A body that cannot be read, and a body that is [null]. *)

Lemma json_rejected (fallback : JsString) (request : Request) (err : Thrown)
      (k : JsValue -> M Response) (w : World) :
  request_json request = Threw err ->
  tryCatch fallback (json <- await (request_json request) ;; k json) w
  = (jsonStatus (ErrorBody (match err with JsError msg => msg | NonError => fallback end)) 500,
     w).
Proof. intros Hj. unfold tryCatch, bind. rewrite Hj. reflexivity. Qed.

End RouteTails.

(** X1. An upload whose form has no [file] entry, or whose [file] entry is
    a string and not a [File], is answered 400 "No file provided"; nothing
    is read, split or stored: the world is left as it was. *)
Theorem upload_without_file_is_rejected :
  forall (E : Env) (w : World) (request : Request) (form : list (JsString * FormValue)),
    request_formData request = Returned form ->
    (forall f, form_get form (lit "file") <> Some (FormFile f)) ->
    UploadRoute.POST request w = (jsonStatus (ErrorBody (lit "No file provided")) 400, w).
Proof.
  intros E w request form Hf Hg.
  unfold UploadRoute.POST, tryCatch, bind. rewrite Hf. simpl await. unfold ret at 1.
  destruct (form_get form (lit "file")) as [[s|f]|] eqn:Hget; try reflexivity.
  now destruct (Hg f).
Qed.

Lemma upload_without_file_is_rejected_witness :
  let request := {| request_json := Threw NonError;
                    request_formData := Returned [(lit "file", FormString (lit "notes.txt"))] |} in
  request_formData request = Returned [(lit "file", FormString (lit "notes.txt"))]
  /\ (forall f, form_get [(lit "file", FormString (lit "notes.txt"))] (lit "file")
                <> Some (FormFile f))
  /\ @UploadRoute.POST demoEnv request demoWorldWithHello
     = (jsonStatus (ErrorBody (lit "No file provided")) 400, demoWorldWithHello).
Proof.
  cbv zeta. split; [reflexivity|]. split; [intros f; discriminate|].
  apply (@upload_without_file_is_rejected demoEnv demoWorldWithHello _
           [(lit "file", FormString (lit "notes.txt"))]);
    [reflexivity | intros f; discriminate].
Defined.

(** X2. A YouTube ingestion whose [url] is missing or falsy (the empty
    string, [null], [0], [false]) is answered 400 "Missing url"; the
    transcript service is not contacted and the world is left as it was. *)
Theorem missing_url_is_rejected :
  forall (E : Env) (w : World) (request : Request) (json : JsValue),
    request_json request = Returned json -> json <> JNull ->
    truthy (property (lit "url") json) = false ->
    YoutubeRoute.POST request w = (jsonStatus (ErrorBody (lit "Missing url")) 400, w).
Proof.
  intros E w request json Hj Hn Hu.
  unfold YoutubeRoute.POST, tryCatch, bind. rewrite Hj. simpl await.
  unfold ret at 1. rewrite (destructure_not_null _ _ _ Hn).
  destruct (property (lit "url") json) as [u|]; [|reflexivity].
  rewrite Hu. reflexivity.
Qed.

Lemma missing_url_is_rejected_witness :
  request_json (youtubeRequest []) = Returned (JObj [(lit "url", JStr [])])
  /\ JObj [(lit "url", JStr [])] <> JNull
  /\ truthy (property (lit "url") (JObj [(lit "url", JStr [])])) = false
  /\ @YoutubeRoute.POST demoEnv (youtubeRequest []) demoWorld
     = (jsonStatus (ErrorBody (lit "Missing url")) 400, demoWorld).
Proof.
  split; [reflexivity|]. split; [discriminate|]. split; [reflexivity|].
  apply (@missing_url_is_rejected demoEnv demoWorld (youtubeRequest [])
           (JObj [(lit "url", JStr [])])); [reflexivity | discriminate | reflexivity].
Defined.

(** X3. A YouTube ingestion whose [url] is a non-empty string that holds
    neither a [v] parameter nor a [youtu.be/] path is answered 500 (not 400)
    with "Invalid YouTube URL"; the transcript service is not contacted,
    the store is neither created nor called: the world is left as it was. *)
Theorem url_without_video_id_answers_500 :
  forall (E : Env) (w : World) (request : Request) (json : JsValue) (u : JsString),
    request_json request = Returned json ->
    property (lit "url") json = Some (JStr u) -> u <> [] ->
    ~ HasVParam u -> ~ HasShortPath u ->
    YoutubeRoute.POST request w
    = (jsonStatus (ErrorBody (lit "Invalid YouTube URL")) 500, w).
Proof.
  intros E w request json u Hj Hp Hu Hv Hs.
  rewrite (YoutubeRoute_truthy w request Hj Hp).
  - unfold tryCatch, bind. rewrite fetchTranscript_spec.
    now rewrite (proj2 (videoIdOf_none u) (conj Hv Hs)).
  - destruct u; [congruence|reflexivity].
Qed.

Lemma url_without_video_id_answers_500_witness :
  let u := lit "https://www.youtube.com/embed/abc" in
  request_json (youtubeRequest u) = Returned (JObj [(lit "url", JStr u)])
  /\ property (lit "url") (JObj [(lit "url", JStr u)]) = Some (JStr u)
  /\ u <> [] /\ ~ HasVParam u /\ ~ HasShortPath u
  /\ @YoutubeRoute.POST demoEnv (youtubeRequest u) demoWorld
     = (jsonStatus (ErrorBody (lit "Invalid YouTube URL")) 500, demoWorld).
Proof.
  cbv zeta.
  assert (Hn : YoutubeRoute.videoIdOf (lit "https://www.youtube.com/embed/abc") = None)
    by reflexivity.
  apply videoIdOf_none in Hn. destruct Hn as [Hv Hs].
  split; [reflexivity|]. split; [reflexivity|]. split; [discriminate|].
  split; [exact Hv|]. split; [exact Hs|].
  apply (@url_without_video_id_answers_500 demoEnv demoWorld _
           (JObj [(lit "url", JStr (lit "https://www.youtube.com/embed/abc"))])
           (lit "https://www.youtube.com/embed/abc"));
    [reflexivity | reflexivity | discriminate | exact Hv | exact Hs].
Defined.

(** X4. A YouTube ingestion whose [url] is truthy but not a string (a
    number, [true], an array, an object) is answered 500 with the engine's
    [TypeError] for [url.match]: the route does not check the type of
    [url].  The world is left as it was. *)
Theorem non_string_url_answers_500 :
  forall (E : Env) (w : World) (request : Request) (json u : JsValue),
    request_json request = Returned json ->
    property (lit "url") json = Some u ->
    truthy (Some u) = true -> isString (Some u) = false ->
    YoutubeRoute.POST request w
    = (jsonStatus (ErrorBody (engineMessage (NotAFunction (lit "url.match")))) 500, w).
Proof.
  intros E w request json u Hj Hp Ht Hs.
  rewrite (YoutubeRoute_truthy w request Hj Hp Ht).
  destruct u; try discriminate; reflexivity.
Qed.

Lemma non_string_url_answers_500_witness :
  let json := JObj [(lit "url", JArr [JStr (lit "https://youtu.be/abc")])] in
  request_json (jsonRequest json) = Returned json
  /\ property (lit "url") json = Some (JArr [JStr (lit "https://youtu.be/abc")])
  /\ truthy (Some (JArr [JStr (lit "https://youtu.be/abc")])) = true
  /\ isString (Some (JArr [JStr (lit "https://youtu.be/abc")])) = false
  /\ @YoutubeRoute.POST demoEnv (jsonRequest json) demoWorld
     = (jsonStatus (ErrorBody (@engineMessage demoEnv (NotAFunction (lit "url.match")))) 500,
        demoWorld).
Proof.
  cbv zeta. split; [reflexivity|]. split; [reflexivity|]. split; [reflexivity|].
  split; [reflexivity|].
  apply (@non_string_url_answers_500 demoEnv demoWorld _
           (JObj [(lit "url", JArr [JStr (lit "https://youtu.be/abc")])])
           (JArr [JStr (lit "https://youtu.be/abc")])); reflexivity.
Defined.

(** X5. A request whose body cannot be read ([request.json()] or
    [request.formData()] rejects) or whose JSON body is [null] is answered
    500 with the message of the error thrown, or with the route's fallback
    message when what was thrown is not an [Error]; the world is left as it
    was. *)
Theorem unreadable_body_answers_500 :
  forall (E : Env) (op : Operation) (w : World) (err : Thrown),
    bodyFault op = Some err ->
    serve op w = (jsonStatus (ErrorBody (messageOf err (fallbackOf op))) 500, w).
Proof.
  intros E op w err H.
  destruct op as [request|request|request|request]; simpl in H; simpl serve.
  - unfold UploadRoute.POST, tryCatch, bind.
    destruct (request_formData request) as [form|e]; inversion H; subst.
    destruct err; reflexivity.
  - unfold TextRoute.POST, tryCatch, bind.
    destruct (request_json request) as [[| | | | |]|e]; inversion H; subst;
      try (destruct err; reflexivity); reflexivity.
  - unfold YoutubeRoute.POST, tryCatch, bind.
    destruct (request_json request) as [[| | | | |]|e]; inversion H; subst;
      try (destruct err; reflexivity); reflexivity.
  - unfold QueryRoute.POST, tryCatch, bind.
    destruct (request_json request) as [[| | | | |]|e]; inversion H; subst;
      try (destruct err; reflexivity); reflexivity.
Qed.

Lemma unreadable_body_answers_500_witness :
  @bodyFault demoEnv (Query (jsonRequest JNull))
  = Some (JsError (@engineMessage demoEnv (DestructureNull (lit "query"))))
  /\ @serve demoEnv (Query (jsonRequest JNull)) demoWorldWithHello
     = (jsonStatus (ErrorBody (@engineMessage demoEnv (DestructureNull (lit "query")))) 500,
        demoWorldWithHello).
Proof.
  split; [reflexivity|].
  apply (@unreadable_body_answers_500 demoEnv (Query (jsonRequest JNull)) demoWorldWithHello
           (JsError (@engineMessage demoEnv (DestructureNull (lit "query"))))).
  reflexivity.
Defined.

(** *** What a handler answers, whatever its collaborators do *)

Section Answers.

Context {E : Env}.

Lemma hoare_any {A} (m : M A) :
  hoare (fun _ => True) m (fun _ _ => True) (fun _ _ => True).
Proof. intros w _. destruct (m w) as [[a|e] w']; exact I. Qed.

Lemma hoare_then {A B} (m : M A) (k : A -> M B) (Q : B -> World -> Prop) :
  (forall a, hoare (fun _ => True) (k a) Q (fun _ _ => True)) ->
  hoare (fun _ => True) (bind m k) Q (fun _ _ => True).
Proof. intros Hk. eapply hoare_bind; [apply hoare_any|]. intros a. apply Hk. Qed.

Lemma hoare_answer (Good : Response -> Prop) (r : Response) :
  Good r -> hoare (fun _ => True) (ret r) (fun r' _ => Good r') (fun _ _ => True).
Proof. intros H w _. exact H. Qed.

Lemma tryCatch_answer (Good : Response -> Prop) fallback (m : M Response) (w : World) :
  hoare (fun _ => True) m (fun r _ => Good r) (fun _ _ => True) ->
  (forall msg, Good (jsonStatus (ErrorBody msg) 500)) ->
  Good (fst (tryCatch fallback m w)).
Proof.
  intros H H500. unfold tryCatch. specialize (H w I).
  destruct (m w) as [[r|e] w']; simpl; auto.
Qed.

Lemma hoare_ingest_answer (Good : Response -> Prop) (text : JsString) :
  (forall n, Good (json200 (AddedBody n))) ->
  hoare (fun _ => True)
        (docs <- Langchain.splitToDocuments text ;;
         Langchain.addDocumentsToStore docs ;;;
         ret (json200 (AddedBody (length docs))))
        (fun r _ => Good r) (fun _ _ => True).
Proof.
  intros H. apply hoare_then. intros docs. apply hoare_then. intros u.
  apply hoare_answer. apply H.
Qed.

(** The answers of [serve op] are among: a 400 with the route's validation
    message, any 500, a 200 of the route's kind. *)
Lemma serve_answer (Good : Response -> Prop) (op : Operation) (w : World) :
  Good (jsonStatus (ErrorBody (lit (validationMessage op))) 400) ->
  (forall msg, Good (jsonStatus (ErrorBody msg) 500)) ->
  (forall n, (forall request, op <> Query request) -> Good (json200 (AddedBody n))) ->
  (forall docs, (exists request, op = Query request) -> Good (json200 (ResultsBody docs))) ->
  Good (fst (serve op w)).
Proof.
  intros H400 H500 Hadd Hres.
  destruct op as [request|request|request|request]; simpl serve; simpl in H400;
    [unfold UploadRoute.POST | unfold TextRoute.POST
     | unfold YoutubeRoute.POST | unfold QueryRoute.POST];
    (apply tryCatch_answer; [|exact H500]).
  - apply hoare_then. intros form.
    destruct (form_get form (lit "file")) as [[s|f]|];
      try (apply hoare_answer; exact H400).
    apply hoare_ingest_answer. intros n. apply Hadd. discriminate.
  - apply hoare_then. intros json. apply hoare_then. intros text.
    destruct (_ || _); [apply hoare_answer; exact H400|].
    apply hoare_ingest_answer. intros n. apply Hadd. discriminate.
  - apply hoare_then. intros json. apply hoare_then. intros url.
    destruct url as [u|]; [|apply hoare_answer; exact H400].
    destruct (negb _); [apply hoare_answer; exact H400|].
    apply hoare_then. intros tr.
    apply hoare_ingest_answer. intros n. apply Hadd. discriminate.
  - apply hoare_then. intros json. apply hoare_then. intros q. apply hoare_then. intros k.
    destruct q as [q|]; [|apply hoare_answer; exact H400].
    destruct (negb _); [apply hoare_answer; exact H400|].
    apply hoare_then. intros docs. apply hoare_answer. apply Hres. now exists request.
Qed.

End Answers.

(** X6. Every answer of every route has one of three shapes: an [error]
    body with status 400 or 500; [{ ok: true, added }] with status 200, from
    an ingestion route only; [{ results }] with status 200, from the query
    route only.  So [resp.ok] tells the page which fields the body has. *)
Theorem answers_have_three_shapes :
  forall (E : Env) (op : Operation) (w : World), answerShape op (fst (serve op w)).
Proof.
  intros E op w. apply serve_answer; unfold answerShape; simpl; auto.
Qed.

Section Refusals.

Context {E : Env}.

Lemma ingest_tail_not_400 (fallback : JsString) (text : JsString) (w : World) :
  status (fst (tryCatch fallback (ingest text) w)) <> 400%N.
Proof. apply tryCatch_not_400. intros r w'. apply ingest_not_400. Qed.

Lemma isString_inv (v : option JsValue) : isString v = true -> exists s, v = Some (JStr s).
Proof. destruct v as [[| | |s| |]|]; try discriminate. intros _. now exists s. Qed.

Lemma UploadRoute_400 (w : World) (request : Request) :
  status (fst (UploadRoute.POST request w)) = 400%N ->
  refused (IngestUpload request)
  /\ UploadRoute.POST request w = (jsonStatus (ErrorBody (lit "No file provided")) 400, w).
Proof.
  intros H. destruct (request_formData request) as [form|e] eqn:Hf.
  - destruct (form_get form (lit "file")) as [[s|f]|] eqn:Hg.
    + assert (Hno : forall f, form_get form (lit "file") <> Some (FormFile f))
        by (intros f; rewrite Hg; discriminate).
      split; [now exists form|]. now apply UploadRoute_no_file with (form := form).
    + rewrite (UploadRoute_file w request Hf Hg) in H.
      now destruct (ingest_tail_not_400 _ _ _ H).
    + assert (Hno : forall f, form_get form (lit "file") <> Some (FormFile f))
        by (intros f; rewrite Hg; discriminate).
      split; [now exists form|]. now apply UploadRoute_no_file with (form := form).
  - unfold UploadRoute.POST, tryCatch, bind in H. rewrite Hf in H. discriminate H.
Qed.

Lemma TextRoute_400 (w : World) (request : Request) :
  status (fst (TextRoute.POST request w)) = 400%N ->
  refused (IngestText request)
  /\ TextRoute.POST request w = (jsonStatus (ErrorBody (lit "Missing text")) 400, w).
Proof.
  intros H. destruct (request_json request) as [json|e] eqn:Hj.
  - assert (Hn : json <> JNull).
    { intros ->. unfold TextRoute.POST, tryCatch, bind in H. rewrite Hj in H. discriminate H. }
    destruct (isString (property (lit "text") json)) eqn:Hs.
    + destruct (isString_inv _ Hs) as [s Hp].
      destruct (trim s) as [|c t] eqn:Ht.
      * assert (Hc : isString (property (lit "text") json) = false
                     \/ trim (asString (property (lit "text") json)) = [])
          by (right; rewrite Hp; exact Ht).
        split; [now exists json|]. now apply TextRoute_invalid with (json := json).
      * rewrite (TextRoute_valid w request Hj Hp) in H by (rewrite Ht; discriminate).
        now destruct (ingest_tail_not_400 _ _ _ H).
    + split; [exists json; auto|]. apply TextRoute_invalid with (json := json); auto.
  - unfold TextRoute.POST, tryCatch, bind in H. rewrite Hj in H. discriminate H.
Qed.

Lemma YoutubeRoute_400 (w : World) (request : Request) :
  status (fst (YoutubeRoute.POST request w)) = 400%N ->
  refused (IngestYoutube request)
  /\ YoutubeRoute.POST request w = (jsonStatus (ErrorBody (lit "Missing url")) 400, w).
Proof.
  intros H. destruct (request_json request) as [json|e] eqn:Hj.
  - assert (Hn : json <> JNull).
    { intros ->. unfold YoutubeRoute.POST, tryCatch, bind in H. rewrite Hj in H.
      discriminate H. }
    destruct (truthy (property (lit "url") json)) eqn:Ht.
    + destruct (property (lit "url") json) as [u|] eqn:Hp; [|discriminate].
      rewrite (YoutubeRoute_truthy w request Hj Hp Ht) in H.
      exfalso. revert H. apply tryCatch_not_400. intros r w' Hm. unfold bind in Hm.
      destruct (YoutubeRoute.fetchTranscriptFromYouTube u w) as [[tr|e] w1]; [|discriminate].
      now apply ingest_not_400 in Hm.
    + split; [now exists json|]. now apply YoutubeRoute_falsy with (json := json).
  - unfold YoutubeRoute.POST, tryCatch, bind in H. rewrite Hj in H. discriminate H.
Qed.

Lemma QueryRoute_400 (w : World) (request : Request) :
  status (fst (QueryRoute.POST request w)) = 400%N ->
  refused (Query request)
  /\ QueryRoute.POST request w = (jsonStatus (ErrorBody (lit "Missing query")) 400, w).
Proof.
  intros H. destruct (request_json request) as [json|e] eqn:Hj.
  - assert (Hn : json <> JNull).
    { intros ->. unfold QueryRoute.POST, tryCatch, bind in H. rewrite Hj in H.
      discriminate H. }
    destruct (truthy (property (lit "query") json)) eqn:Ht.
    + destruct (property (lit "query") json) as [q|] eqn:Hp; [|discriminate].
      rewrite (QueryRoute_truthy w request Hj Hp Ht) in H.
      destruct (Langchain.similaritySearch q _ w) as [[docs|err] w']; discriminate H.
    + split; [now exists json|]. now apply QueryRoute_falsy with (json := json).
  - unfold QueryRoute.POST, tryCatch, bind in H. rewrite Hj in H. discriminate H.
Qed.

End Refusals.

(** X7. A 400 is always a refusal of the input and has no effect: whenever
    a route answers 400, its input was one it refuses (no [File] under
    [file]; a [text] that is not a string or is blank; a falsy [url]; a falsy
    [query]), the body carries the route's validation message, and the
    world is left as it was.  Failures of the splitter, the store, the
    embedder or the transcript service never surface as 400. *)
Theorem a_400_is_a_refusal_without_effect :
  forall (E : Env) (op : Operation) (w : World),
    status (fst (serve op w)) = 400%N ->
    refused op
    /\ serve op w = (jsonStatus (ErrorBody (lit (validationMessage op))) 400, w).
Proof.
  intros E op w H. destruct op as [request|request|request|request]; simpl in *.
  - now apply UploadRoute_400.
  - now apply TextRoute_400.
  - now apply YoutubeRoute_400.
  - now apply QueryRoute_400.
Qed.

Lemma a_400_is_a_refusal_without_effect_witness :
  status (fst (@serve demoEnv (IngestText (textRequest (lit "   "))) demoWorldWithHello))
  = 400%N
  /\ refused (IngestText (textRequest (lit "   ")))
  /\ @serve demoEnv (IngestText (textRequest (lit "   "))) demoWorldWithHello
     = (jsonStatus (ErrorBody (lit "Missing text")) 400, demoWorldWithHello).
Proof.
  split; [reflexivity|].
  apply (@a_400_is_a_refusal_without_effect demoEnv (IngestText (textRequest (lit "   ")))
           demoWorldWithHello).
  reflexivity.
Defined.

(* ------------------------------------------------------------------ *)
(** ** When the store cannot be created *)

Section Creation.

Context {E : Env}.

Lemma ingest_rejected (w : World) (err : Thrown) (text : JsString) :
  vectorStorePromise w = Some (Rejected err) -> ingest text w = (Threw err, w).
Proof.
  intros Hp. unfold ingest, Langchain.splitToDocuments, bind at 1. unfold ret at 1.
  unfold bind at 1. unfold Langchain.addDocumentsToStore, bind at 1.
  now rewrite (getVectorStore_cached _ Hp).
Qed.

Lemma similaritySearch_rejected (w : World) (err : Thrown) (q : JsValue) k :
  vectorStorePromise w = Some (Rejected err) ->
  Langchain.similaritySearch q k w = (Threw err, w).
Proof.
  intros Hp. unfold Langchain.similaritySearch, bind.
  now rewrite (getVectorStore_cached _ Hp).
Qed.

Lemma getVectorStore_no_embeddings (w : World) (err : Thrown) e1 :
  vectorStorePromise w = None ->
  newOpenAIEmbeddings (ext w) = (Threw err, e1) ->
  Langchain.getVectorStore w
  = (Threw err, {| vectorStorePromise := None; heap := heap w; ext := e1; calls := calls w |}).
Proof.
  intros Hp He.
  unfold Langchain.getVectorStore, bind, read_vectorStorePromise, new_OpenAIEmbeddings.
  rewrite Hp. cbv beta. rewrite He, Hp. reflexivity.
Qed.

Lemma textRequest_valid (w : World) (text : JsString) :
  trim text <> [] ->
  TextRoute.POST (textRequest text) w = tryCatch (lit "Failed to ingest text") (ingest text) w.
Proof.
  intros Ht. apply TextRoute_valid with (json := JObj [(lit "text", JStr text)]); auto.
Qed.

Lemma uploadRequest_valid (w : World) (text : JsString) :
  UploadRoute.POST (uploadRequest text) w
  = tryCatch (lit "Failed to ingest file") (ingest text) w.
Proof.
  now apply UploadRoute_file
    with (form := [(lit "file", FormFile {| file_text := text |})])
         (f := {| file_text := text |}).
Qed.

Lemma queryRequest_valid (w : World) (text : JsString) :
  text <> [] ->
  QueryRoute.POST (queryRequest text) w
  = match Langchain.similaritySearch (JStr text) (Some (JNum 4%float)) w with
    | (Returned docs, w') => (json200 (ResultsBody docs), w')
    | (Threw err, w') =>
        (jsonStatus (ErrorBody (messageOf err "Failed to query store")) 500, w')
    end.
Proof.
  intros Ht.
  rewrite (@QueryRoute_truthy _ w (queryRequest text) _ (JStr text) eq_refl).
  - reflexivity.
  - reflexivity.
  - destruct text; [congruence|reflexivity].
Qed.

End Creation.

(** X8. A failed creation of the store is never retried: once
    [HNSWLib.fromDocuments] has rejected, the rejected promise stays in the
    module variable, and after any further requests every pasted text, every
    uploaded file and every query is answered 500 with the message of that
    first rejection (or the route's fallback), without a new attempt to
    create the store and without any other effect.  Only a restart of the
    process recovers. *)
Theorem failed_creation_is_never_retried :
  forall (E : Env) (e : Ext) (before : list Operation) (err : Thrown),
    vectorStorePromise (serveAll before (initialWorld e)) = Some (Rejected err) ->
    forall (after : list Operation) (text : JsString),
      trim text <> [] ->
      let w := serveAll after (serveAll before (initialWorld e)) in
      creations w = 1
      /\ TextRoute.POST (textRequest text) w
         = (jsonStatus (ErrorBody (messageOf err "Failed to ingest text")) 500, w)
      /\ UploadRoute.POST (uploadRequest text) w
         = (jsonStatus (ErrorBody (messageOf err "Failed to ingest file")) 500, w)
      /\ QueryRoute.POST (queryRequest text) w
         = (jsonStatus (ErrorBody (messageOf err "Failed to query store")) 500, w).
Proof.
  intros E e before err Hp after text Ht w.
  assert (HI : Inv' (Some (Rejected err)) w).
  { apply serveAll_Inv'. split; [apply reachable_Inv|].
    intros p Hq. inversion Hq; subst. exact Hp. }
  destruct HI as [HI Hk]. specialize (Hk _ eq_refl).
  pose proof (inv_state HI) as Hst. rewrite Hk in Hst. destruct Hst as [_ [Hcr _]].
  split; [exact Hcr|]. split; [|split].
  - rewrite (@textRequest_valid _ w text Ht). unfold tryCatch.
    rewrite (ingest_rejected _ text Hk). destruct err; reflexivity.
  - rewrite (@uploadRequest_valid _ w text). unfold tryCatch.
    rewrite (ingest_rejected _ text Hk). destruct err; reflexivity.
  - assert (Hne : text <> []) by (intros ->; now destruct Ht).
    rewrite (@queryRequest_valid _ w text Hne).
    now rewrite (similaritySearch_rejected _ _ _ Hk).
Qed.

Lemma failed_creation_is_never_retried_witness :
  let before := [IngestText (textRequest (lit "hello"))] in
  let after := [Query (queryRequest (lit "hello")); IngestUpload (uploadRequest (lit "notes"))] in
  let w := @serveAll noIndexEnv after (@serveAll noIndexEnv before (@initialWorld noIndexEnv tt)) in
  @vectorStorePromise noIndexEnv (@serveAll noIndexEnv before (@initialWorld noIndexEnv tt))
  = Some (Rejected (JsError (lit "Could not import hnswlib-node")))
  /\ trim (lit "again") <> []
  /\ @creations noIndexEnv w = 1
  /\ @TextRoute.POST noIndexEnv (textRequest (lit "again")) w
     = (jsonStatus (ErrorBody (lit "Could not import hnswlib-node")) 500, w).
Proof.
  cbv zeta. split; [reflexivity|]. split; [discriminate|].
  pose proof (@failed_creation_is_never_retried noIndexEnv tt
                [IngestText (textRequest (lit "hello"))]
                (JsError (lit "Could not import hnswlib-node")) eq_refl
                [Query (queryRequest (lit "hello")); IngestUpload (uploadRequest (lit "notes"))]
                (lit "again")) as H.
  cbv zeta in H. destruct H as [H1 [H2 _]]; [discriminate|].
  split; [exact H1|exact H2].
Defined.

(** X9. A failure of [new OpenAIEmbeddings()] (the constructor throws when
    no API key is configured) is not stored: the request is answered 500
    with the constructor's message, [HNSWLib.fromDocuments] is not called,
    and the module variable stays [null], so the next request constructs
    the embedder again. *)
Theorem failed_embedder_is_retried :
  forall (E : Env) (w : World) (err : Thrown) (e1 : Ext) (text : JsString),
    vectorStorePromise w = None ->
    newOpenAIEmbeddings (ext w) = (Threw err, e1) ->
    trim text <> [] ->
    let w' := {| vectorStorePromise := None; heap := heap w; ext := e1; calls := calls w |} in
    TextRoute.POST (textRequest text) w
    = (jsonStatus (ErrorBody (messageOf err "Failed to ingest text")) 500, w')
    /\ UploadRoute.POST (uploadRequest text) w
       = (jsonStatus (ErrorBody (messageOf err "Failed to ingest file")) 500, w')
    /\ QueryRoute.POST (queryRequest text) w
       = (jsonStatus (ErrorBody (messageOf err "Failed to query store")) 500, w').
Proof.
  intros E w err e1 text Hp He Ht w'.
  assert (Hi : ingest text w = (Threw err, w')).
  { unfold ingest, Langchain.splitToDocuments, bind at 1. unfold ret at 1.
    unfold bind at 1. unfold Langchain.addDocumentsToStore, bind at 1.
    now rewrite (getVectorStore_no_embeddings _ Hp He). }
  split; [|split].
  - rewrite (@textRequest_valid _ w text Ht). unfold tryCatch. rewrite Hi. destruct err; reflexivity.
  - rewrite (@uploadRequest_valid _ w text). unfold tryCatch. rewrite Hi. destruct err; reflexivity.
  - assert (Hne : text <> []) by (intros ->; now destruct Ht).
    rewrite (@queryRequest_valid _ w text Hne).
    unfold Langchain.similaritySearch, bind.
    now rewrite (getVectorStore_no_embeddings _ Hp He).
Qed.

Lemma failed_embedder_is_retried_witness :
  let w := @initialWorld noKeyEnv tt in
  @vectorStorePromise noKeyEnv w = None
  /\ @newOpenAIEmbeddings noKeyEnv (@ext noKeyEnv w)
     = (Threw (JsError (lit "OpenAI API key not found")), tt)
  /\ trim (lit "hello") <> []
  /\ @TextRoute.POST noKeyEnv (textRequest (lit "hello")) w
     = (jsonStatus (ErrorBody (lit "OpenAI API key not found")) 500, w).
Proof.
  cbv zeta. split; [reflexivity|]. split; [reflexivity|]. split; [discriminate|].
  pose proof (@failed_embedder_is_retried noKeyEnv (@initialWorld noKeyEnv tt)
                (JsError (lit "OpenAI API key not found")) tt (lit "hello")
                eq_refl eq_refl) as H.
  cbv zeta in H. destruct H as [H _]; [discriminate|]. exact H.
Defined.

(* ------------------------------------------------------------------ *)
(** ** What the query route hands to the store *)

(** X10. The query route hands [query] and [k] to the store unchecked: any
    truthy [query] (a string or not) is searched for, and the store is asked
    for [k] results as given, be it 0, negative, fractional or a string;
    only a missing or [null] [k] becomes 4.  The answer is the store's:
    200 with its documents, or 500 with its error. *)
Theorem query_asks_for_k_or_four :
  forall (E : Env) (w : World) (request : Request) (json q : JsValue) (s : HNSWLib),
    request_json request = Returned json ->
    property (lit "query") json = Some q -> truthy (Some q) = true ->
    vectorStorePromise w = Some (Fulfilled 0) -> heap w = [s] ->
    let k := match property (lit "k") json with
             | None => JNum 4%float
             | Some JNull => JNum 4%float
             | Some given => given
             end in
    QueryRoute.POST request w
    = (let '(o, s', e') := HNSWLib_similaritySearch s q k (ext w) in
       (match o with
        | Returned docs => json200 (ResultsBody docs)
        | Threw err => jsonStatus (ErrorBody (messageOf err "Failed to query store")) 500
        end,
        {| vectorStorePromise := Some (Fulfilled 0); heap := [s']; ext := e';
           calls := CallSimilaritySearch 0 q k :: calls w |})).
Proof.
  intros E w request json q s Hj Hp Ht Hv Hh k.
  rewrite (QueryRoute_truthy w request Hj Hp Ht).
  assert (Hk : nullish (property (lit "k") json) (JNum 4%float) = k).
  { unfold k. destruct (property (lit "k") json) as [[| | | | |]|]; reflexivity. }
  rewrite Hk, (@similaritySearch_on_store _ w s q k Hv Hh).
  destruct (HNSWLib_similaritySearch s q k (ext w)) as [[[docs|err] s'] e']; reflexivity.
Qed.

Lemma query_asks_for_k_or_four_witness :
  let json := JObj [(lit "query", JStr (lit "hello")); (lit "k", JNum 1%float)] in
  let s := indexRecords demoCapabilities demoWorldWithHello in
  request_json (jsonRequest json) = Returned json
  /\ property (lit "query") json = Some (JStr (lit "hello"))
  /\ truthy (Some (JStr (lit "hello"))) = true
  /\ @vectorStorePromise demoEnv demoWorldWithHello = Some (Fulfilled 0)
  /\ @heap demoEnv demoWorldWithHello = [s]
  /\ @calls demoEnv (snd (@QueryRoute.POST demoEnv (jsonRequest json) demoWorldWithHello))
     = CallSimilaritySearch 0 (JStr (lit "hello")) (JNum 1%float)
         :: @calls demoEnv demoWorldWithHello.
Proof.
  cbv zeta. split; [reflexivity|]. split; [reflexivity|]. split; [reflexivity|].
  split; [reflexivity|]. split; [reflexivity|].
  rewrite (@query_asks_for_k_or_four demoEnv demoWorldWithHello
             (jsonRequest (JObj [(lit "query", JStr (lit "hello")); (lit "k", JNum 1%float)]))
             (JObj [(lit "query", JStr (lit "hello")); (lit "k", JNum 1%float)])
             (JStr (lit "hello")) (indexRecords demoCapabilities demoWorldWithHello)
             eq_refl eq_refl eq_refl eq_refl eq_refl).
  reflexivity.
Defined.

(* ------------------------------------------------------------------ *)
(** ** The video id of a URL *)

Lemma takeWhile_app (p : N -> bool) (a b : JsString) :
  Forall (fun x => p x = true) a ->
  (b = [] \/ exists x t, b = x :: t /\ p x = false) ->
  takeWhile p (a ++ b) = a.
Proof.
  intros Ha Hb. induction Ha as [|x a Hx Ha IH]; simpl.
  - destruct Hb as [->|[x [t [-> Hx]]]]; simpl; [reflexivity|now rewrite Hx].
  - now rewrite Hx, IH.
Qed.

Lemma takeWhile_dropWhile (p : N -> bool) (s : JsString) :
  s = takeWhile p s ++ dropWhile (fun x => p x) s.
Proof.
  induction s as [|c s IH]; simpl; [reflexivity|].
  destruct (p c); simpl; [now f_equal|reflexivity].
Qed.

Lemma takeWhile_all (p : N -> bool) (s : JsString) :
  Forall (fun x => p x = true) (takeWhile p s).
Proof.
  induction s as [|c s IH]; simpl; [constructor|].
  destruct (p c) eqn:Hp; constructor; auto.
Qed.

Lemma dropWhile_stops (p : N -> bool) (s : JsString) :
  dropWhile p s = [] \/ exists x t, dropWhile p s = x :: t /\ p x = false.
Proof.
  induction s as [|c s IH]; simpl; [now left|].
  destruct (p c) eqn:Hp; [exact IH|]. right. now exists c, s.
Qed.

Lemma v_param_at_here (sep : N) (id tail : JsString) :
  sep = ch "?" \/ sep = ch "&" -> id <> [] -> ~ In (ch "&") id ->
  (tail = [] \/ exists t, tail = ch "&" :: t) ->
  YoutubeRoute.v_param_at (sep :: lit "v=" ++ id ++ tail) = Some id.
Proof.
  intros Hsep Hid Hno Htail. unfold YoutubeRoute.v_param_at.
  assert (Hc : ((sep =? ch "?") || (sep =? ch "&"))%N = true).
  { destruct Hsep as [->| ->]; reflexivity. }
  rewrite Hc.
  rewrite (proj2 (stripPrefix_spec (lit "v=") (lit "v=" ++ id ++ tail) (id ++ tail)) eq_refl).
  rewrite takeWhile_app.
  - destruct id; [congruence|reflexivity].
  - apply Forall_forall. intros x Hx. apply negb_true_iff, N.eqb_neq.
    intros ->. now apply Hno.
  - destruct Htail as [->|[t ->]]; [now left|right].
    exists (ch "&"), t. split; reflexivity.
Qed.

Lemma v_param_at_inv (s id : JsString) :
  YoutubeRoute.v_param_at s = Some id ->
  exists sep tail,
    s = sep :: lit "v=" ++ id ++ tail
    /\ (sep = ch "?" \/ sep = ch "&")
    /\ id <> [] /\ ~ In (ch "&") id
    /\ (tail = [] \/ exists t, tail = ch "&" :: t).
Proof.
  unfold YoutubeRoute.v_param_at. destruct s as [|c rest]; [discriminate|].
  destruct ((c =? ch "?") || (c =? ch "&"))%N eqn:Hc; [|discriminate].
  destruct (stripPrefix (lit "v=") rest) as [after|] eqn:Hs; [|discriminate].
  apply stripPrefix_spec in Hs. subst rest.
  set (p := fun x => negb (x =? ch "&")%N).
  pose proof (takeWhile_dropWhile p after) as Hsplit.
  pose proof (takeWhile_all p after) as Hall.
  pose proof (dropWhile_stops p after) as Hstop.
  destruct (takeWhile p after) as [|x r] eqn:Ht; [discriminate|].
  intros Hid. inversion Hid; subst id.
  exists c, (dropWhile (fun x => p x) after). split; [rewrite Hsplit at 1; reflexivity|].
  split.
  { apply orb_prop in Hc. destruct Hc as [Hc|Hc]; apply N.eqb_eq in Hc; auto. }
  split; [discriminate|]. split.
  - intros Hin. rewrite Forall_forall in Hall. specialize (Hall _ Hin). discriminate Hall.
  - destruct Hstop as [Hstop|[y [t [Hstop Hy]]]]; [now left|right].
    exists t. change (dropWhile (fun x => p x) after) with (dropWhile p after).
    rewrite Hstop. unfold p in Hy. apply negb_false_iff, N.eqb_eq in Hy. now subst y.
Qed.

Lemma short_path_at_here (id tail : JsString) :
  id <> [] -> ~ In (ch "?") id ->
  (tail = [] \/ exists t, tail = ch "?" :: t) ->
  YoutubeRoute.short_path_at (lit "youtu.be/" ++ id ++ tail) = Some id.
Proof.
  intros Hid Hno Htail. unfold YoutubeRoute.short_path_at.
  rewrite (proj2 (stripPrefix_spec (lit "youtu.be/") (lit "youtu.be/" ++ id ++ tail)
                    (id ++ tail)) eq_refl).
  rewrite takeWhile_app.
  - destruct id; [congruence|reflexivity].
  - apply Forall_forall. intros x Hx. apply negb_true_iff, N.eqb_neq.
    intros ->. now apply Hno.
  - destruct Htail as [->|[t ->]]; [now left|right].
    exists (ch "?"), t. split; reflexivity.
Qed.

Lemma short_path_at_inv (s id : JsString) :
  YoutubeRoute.short_path_at s = Some id ->
  exists tail,
    s = lit "youtu.be/" ++ id ++ tail
    /\ id <> [] /\ ~ In (ch "?") id
    /\ (tail = [] \/ exists t, tail = ch "?" :: t).
Proof.
  unfold YoutubeRoute.short_path_at.
  destruct (stripPrefix (lit "youtu.be/") s) as [after|] eqn:Hs; [|discriminate].
  apply stripPrefix_spec in Hs. subst s.
  set (p := fun x => negb (x =? ch "?")%N).
  pose proof (takeWhile_dropWhile p after) as Hsplit.
  pose proof (takeWhile_all p after) as Hall.
  pose proof (dropWhile_stops p after) as Hstop.
  destruct (takeWhile p after) as [|x r] eqn:Ht; [discriminate|].
  intros Hid. inversion Hid; subst id.
  exists (dropWhile (fun x => p x) after). split; [rewrite Hsplit at 1; reflexivity|].
  split; [discriminate|]. split.
  - intros Hin. rewrite Forall_forall in Hall. specialize (Hall _ Hin). discriminate Hall.
  - destruct Hstop as [Hstop|[y [t [Hstop Hy]]]]; [now left|right].
    exists t. change (dropWhile (fun x => p x) after) with (dropWhile p after).
    rewrite Hstop. unfold p in Hy. apply negb_false_iff, N.eqb_eq in Hy. now subst y.
Qed.

(** *** The leftmost match *)

Lemma noEarlier_nil (here : JsString -> Prop) (rest : JsString) : noEarlier here [] rest.
Proof. intros a b _ Hlt. simpl in Hlt. lia. Qed.

Lemma noEarlier_cons (here : JsString -> Prop) (c : N) (pre rest : JsString) :
  noEarlier here (c :: pre) rest <-> ~ here (c :: pre ++ rest) /\ noEarlier here pre rest.
Proof.
  split.
  - intros Hn. split.
    + apply (Hn [] (c :: pre ++ rest)); [reflexivity|simpl; lia].
    + intros a b Hab Hlt. apply (Hn (c :: a) b); [simpl; now rewrite Hab|simpl; lia].
  - intros [Hhere Hn] a b Hab Hlt. destruct a as [|x a].
    + simpl in Hab. now subst b.
    + simpl in Hab. inversion Hab; subst x. apply (Hn a b); [assumption|simpl in Hlt; lia].
Qed.

Lemma match_v_param_first (pre rest : JsString) :
  noEarlier v_param_here pre rest ->
  YoutubeRoute.match_v_param (pre ++ rest) = YoutubeRoute.match_v_param rest.
Proof.
  induction pre as [|c pre IH]; intros Hn; [reflexivity|].
  apply noEarlier_cons in Hn. destruct Hn as [Hhere Hn].
  change ((c :: pre) ++ rest) with (c :: (pre ++ rest)). rewrite match_v_param_cons.
  destruct (YoutubeRoute.v_param_at (c :: pre ++ rest)) as [g|] eqn:Hat.
  - exfalso. apply Hhere. apply v_param_at_spec. rewrite Hat. discriminate.
  - now apply IH.
Qed.

Lemma match_youtu_be_first (pre rest : JsString) :
  noEarlier short_path_here pre rest ->
  YoutubeRoute.match_youtu_be (pre ++ rest) = YoutubeRoute.match_youtu_be rest.
Proof.
  induction pre as [|c pre IH]; intros Hn; [reflexivity|].
  apply noEarlier_cons in Hn. destruct Hn as [Hhere Hn].
  change ((c :: pre) ++ rest) with (c :: (pre ++ rest)). rewrite match_youtu_be_cons.
  destruct (YoutubeRoute.short_path_at (c :: pre ++ rest)) as [g|] eqn:Hat.
  - exfalso. apply Hhere. apply short_path_at_spec. rewrite Hat. discriminate.
  - now apply IH.
Qed.

Lemma match_v_param_FirstVParam (url id : JsString) :
  YoutubeRoute.match_v_param url = Some id <-> FirstVParam url id.
Proof.
  split.
  - induction url as [|c rest IH]; [discriminate|]. rewrite match_v_param_cons.
    destruct (YoutubeRoute.v_param_at (c :: rest)) as [g|] eqn:Hat.
    + intros Hg. inversion Hg; subst g.
      destruct (v_param_at_inv _ Hat) as [sep [tail [Hu [Hsep [Hid [Hno Htail]]]]]].
      exists [], sep, tail. simpl. repeat split; auto. apply noEarlier_nil.
    + intros Hm. destruct (IH Hm) as [pre [sep [tail [Hu [Hsep [Hid [Hno [Htail Hn]]]]]]]].
      exists (c :: pre), sep, tail. split; [simpl; now rewrite Hu|].
      repeat split; auto. apply noEarlier_cons. split; [|exact Hn].
      rewrite <- Hu. intros Hhere. apply v_param_at_spec in Hhere. congruence.
  - intros [pre [sep [tail [Hu [Hsep [Hid [Hno [Htail Hn]]]]]]]]. subst url.
    rewrite (match_v_param_first Hn).
    change (sep :: lit "v=" ++ id ++ tail) with (sep :: (lit "v=" ++ id ++ tail)).
    rewrite match_v_param_cons.
    change (sep :: (lit "v=" ++ id ++ tail)) with (sep :: lit "v=" ++ id ++ tail).
    now rewrite (v_param_at_here Hsep Hid Hno Htail).
Qed.

Lemma match_youtu_be_FirstShortPath (url id : JsString) :
  YoutubeRoute.match_youtu_be url = Some id <-> FirstShortPath url id.
Proof.
  split.
  - induction url as [|c rest IH]; [discriminate|]. rewrite match_youtu_be_cons.
    destruct (YoutubeRoute.short_path_at (c :: rest)) as [g|] eqn:Hat.
    + intros Hg. inversion Hg; subst g.
      destruct (short_path_at_inv _ Hat) as [tail [Hu [Hid [Hno Htail]]]].
      exists [], tail. simpl. repeat split; auto. apply noEarlier_nil.
    + intros Hm. destruct (IH Hm) as [pre [tail [Hu [Hid [Hno [Htail Hn]]]]]].
      exists (c :: pre), tail. split; [simpl; now rewrite Hu|].
      repeat split; auto. apply noEarlier_cons. split; [|exact Hn].
      rewrite <- Hu. intros Hhere. apply short_path_at_spec in Hhere. congruence.
  - intros [pre [tail [Hu [Hid [Hno [Htail Hn]]]]]]. subst url.
    rewrite (match_youtu_be_first Hn).
    change (lit "youtu.be/" ++ id ++ tail) with (ch "y" :: (lit "outu.be/" ++ id ++ tail)).
    rewrite match_youtu_be_cons.
    change (ch "y" :: (lit "outu.be/" ++ id ++ tail)) with (lit "youtu.be/" ++ id ++ tail).
    now rewrite (short_path_at_here Hid Hno Htail).
Qed.

(** X11. For a URL with a [v] parameter (a [?v=] or [&v=] followed by a
    code unit other than [&]) a video id is found, and it is exactly the
    text after the first such [?v=] or [&v=], up to the next [&] or the end
    of the URL; this holds wherever in the URL the parameter stands and on
    every host, also on a [youtu.be] link, where the parameter wins over the
    path. *)
Theorem video_id_of_v_parameter :
  forall (url : JsString),
    (HasVParam url -> exists id, YoutubeRoute.videoIdOf url = Some id)
    /\ forall id,
        HasVParam url /\ YoutubeRoute.videoIdOf url = Some id <-> FirstVParam url id.
Proof.
  intros url. unfold YoutubeRoute.videoIdOf. split.
  - intros Hv. apply match_v_param_spec in Hv.
    destruct (YoutubeRoute.match_v_param url) as [g|]; [now exists g|congruence].
  - intros id. split.
    + intros [Hv Hid]. apply match_v_param_spec in Hv. apply match_v_param_FirstVParam.
      destruct (YoutubeRoute.match_v_param url) as [g|]; [exact Hid|congruence].
    + intros Hfirst. apply match_v_param_FirstVParam in Hfirst.
      split; [apply match_v_param_spec; congruence|]. now rewrite Hfirst.
Qed.

Lemma video_id_of_v_parameter_witness :
  FirstVParam (lit "https://www.youtube.com/watch?feature=share&v=abc&t=1") (lit "abc")
  /\ FirstVParam (lit "https://youtu.be/abc?v=xyz") (lit "xyz")
  /\ YoutubeRoute.videoIdOf (lit "https://www.youtube.com/watch?feature=share&v=abc&t=1")
     = Some (lit "abc")
  /\ YoutubeRoute.videoIdOf (lit "https://youtu.be/abc?v=xyz") = Some (lit "xyz").
Proof.
  assert (H1 : FirstVParam (lit "https://www.youtube.com/watch?feature=share&v=abc&t=1")
                 (lit "abc")).
  { exists (lit "https://www.youtube.com/watch?feature=share"), (ch "&"), (lit "&t=1").
    split; [reflexivity|]. split; [now right|]. split; [discriminate|]. split.
    - simpl. intros [Hc|[Hc|[Hc|[]]]]; discriminate Hc.
    - split; [right; exists (lit "t=1"); reflexivity|].
      assert (Hall : forall k, k < 43 ->
                 YoutubeRoute.v_param_at
                   (skipn k (lit "https://www.youtube.com/watch?feature=share&v=abc&t=1"))
                 = None).
      { intros k Hk.
        do 43 (destruct k as [|k]; [reflexivity|]). lia. }
      intros a b Hab Hlt Hhere. apply v_param_at_spec in Hhere.
      assert (Hb : b = skipn (length a)
                         (lit "https://www.youtube.com/watch?feature=share&v=abc&t=1")).
      { change (lit "https://www.youtube.com/watch?feature=share&v=abc&t=1")
          with (lit "https://www.youtube.com/watch?feature=share"
                ++ ch "&" :: lit "v=" ++ lit "abc" ++ lit "&t=1").
        rewrite Hab. rewrite skipn_app, skipn_all, Nat.sub_diag. reflexivity. }
      apply Hhere. rewrite Hb. apply Hall. exact Hlt. }
  assert (H2 : FirstVParam (lit "https://youtu.be/abc?v=xyz") (lit "xyz"))
    by (apply match_v_param_FirstVParam; reflexivity).
  split; [exact H1|]. split; [exact H2|].
  split.
  - apply (proj2 (proj2 (@video_id_of_v_parameter
                           (lit "https://www.youtube.com/watch?feature=share&v=abc&t=1"))
                    (lit "abc")) H1).
  - apply (proj2 (proj2 (@video_id_of_v_parameter (lit "https://youtu.be/abc?v=xyz"))
                    (lit "xyz")) H2).
Defined.

(** X12. For a URL without a [v] parameter, the video id is exactly the
    text after the first [youtu.be/] that is followed by a code unit other
    than [?], up to the next [?] or the end of the URL; an [&] does not end
    it.  Such a URL has a video id whenever it holds such a [youtu.be/]. *)
Theorem video_id_of_short_link :
  forall (url : JsString),
    ~ HasVParam url ->
    (HasShortPath url -> exists id, YoutubeRoute.videoIdOf url = Some id)
    /\ forall id, YoutubeRoute.videoIdOf url = Some id <-> FirstShortPath url id.
Proof.
  intros url Hv. unfold YoutubeRoute.videoIdOf.
  assert (Hnone : YoutubeRoute.match_v_param url = None).
  { destruct (YoutubeRoute.match_v_param url) as [g|] eqn:Hm; [|reflexivity].
    exfalso. apply Hv. apply match_v_param_spec. congruence. }
  rewrite Hnone. split.
  - intros Hs. apply match_youtu_be_spec in Hs.
    destruct (YoutubeRoute.match_youtu_be url) as [g|]; [now exists g|congruence].
  - intros id. apply match_youtu_be_FirstShortPath.
Qed.

Lemma video_id_of_short_link_witness :
  ~ HasVParam (lit "http://my.site/to/youtu.be/abc&t=10?si=1")
  /\ FirstShortPath (lit "http://my.site/to/youtu.be/abc&t=10?si=1") (lit "abc&t=10")
  /\ YoutubeRoute.videoIdOf (lit "http://my.site/to/youtu.be/abc&t=10?si=1")
     = Some (lit "abc&t=10").
Proof.
  assert (Hv : ~ HasVParam (lit "http://my.site/to/youtu.be/abc&t=10?si=1")).
  { intros Hv. apply match_v_param_spec in Hv. apply Hv. reflexivity. }
  assert (Hs : FirstShortPath (lit "http://my.site/to/youtu.be/abc&t=10?si=1")
                 (lit "abc&t=10"))
    by (apply match_youtu_be_FirstShortPath; reflexivity).
  split; [exact Hv|]. split; [exact Hs|].
  apply (proj2 (proj2 (@video_id_of_short_link
                         (lit "http://my.site/to/youtu.be/abc&t=10?si=1") Hv)
                  (lit "abc&t=10")) Hs).
Defined.

(** A video id is a piece of the URL it was taken from. *)

Lemma v_param_at_piece (s g : JsString) :
  YoutubeRoute.v_param_at s = Some g -> exists pre post, s = pre ++ g ++ post.
Proof.
  unfold YoutubeRoute.v_param_at. destruct s as [|c rest]; [discriminate|].
  destruct ((c =? ch "?") || (c =? ch "&"))%N; [|discriminate].
  destruct (stripPrefix (lit "v=") rest) as [tail|] eqn:Hs; [|discriminate].
  apply stripPrefix_spec in Hs. subst rest.
  pose proof (takeWhile_dropWhile (fun x => negb (x =? ch "&")%N) tail) as Hsplit.
  destruct (takeWhile (fun x => negb (x =? ch "&")%N) tail) as [|x r] eqn:Ht; [discriminate|].
  intros H. inversion H; subst g.
  exists (c :: lit "v="), (dropWhile (fun x => negb (x =? ch "&")%N) tail).
  rewrite Hsplit at 1. reflexivity.
Qed.

Lemma short_path_at_piece (s g : JsString) :
  YoutubeRoute.short_path_at s = Some g -> exists pre post, s = pre ++ g ++ post.
Proof.
  unfold YoutubeRoute.short_path_at.
  destruct (stripPrefix (lit "youtu.be/") s) as [tail|] eqn:Hs; [|discriminate].
  apply stripPrefix_spec in Hs. subst s.
  pose proof (takeWhile_dropWhile (fun x => negb (x =? ch "?")%N) tail) as Hsplit.
  destruct (takeWhile (fun x => negb (x =? ch "?")%N) tail) as [|x r] eqn:Ht; [discriminate|].
  intros H. inversion H; subst g.
  exists (lit "youtu.be/"), (dropWhile (fun x => negb (x =? ch "?")%N) tail).
  rewrite Hsplit at 1. reflexivity.
Qed.

Lemma videoIdOf_piece (url id : JsString) :
  YoutubeRoute.videoIdOf url = Some id -> exists pre post, url = pre ++ id ++ post.
Proof.
  assert (Hv : forall u, YoutubeRoute.match_v_param u = Some id ->
                         exists pre post, u = pre ++ id ++ post).
  { induction u as [|c rest IH]; [discriminate|]. rewrite match_v_param_cons.
    destruct (YoutubeRoute.v_param_at (c :: rest)) as [g|] eqn:Hat.
    - intros H. inversion H; subst g. now apply v_param_at_piece.
    - intros H. destruct (IH H) as [pre [post ->]]. now exists (c :: pre), post. }
  assert (Hs : forall u, YoutubeRoute.match_youtu_be u = Some id ->
                         exists pre post, u = pre ++ id ++ post).
  { induction u as [|c rest IH]; [discriminate|]. rewrite match_youtu_be_cons.
    destruct (YoutubeRoute.short_path_at (c :: rest)) as [g|] eqn:Hat.
    - intros H. inversion H; subst g. now apply short_path_at_piece.
    - intros H. destruct (IH H) as [pre [post ->]]. now exists (c :: pre), post. }
  unfold YoutubeRoute.videoIdOf.
  destruct (YoutubeRoute.match_v_param url) as [g|] eqn:Hm.
  - intros H. inversion H; subst g. now apply Hv.
  - apply Hs.
Qed.

(** X13. The transcript fetcher contacts the transcript service and nothing
    else: it makes at most one [fetch]; the address is the fixed address of
    the service followed by the video id, which is a non-empty piece of the
    given URL, copied as it stands (not encoded); the fetcher leaves the
    module variable and the store alone. *)
Theorem fetcher_contacts_only_the_transcript_service :
  forall (E : Env) (url : JsValue) (w : World),
    let w' := snd (YoutubeRoute.fetchTranscriptFromYouTube url w) in
    vectorStorePromise w' = vectorStorePromise w /\ heap w' = heap w
    /\ (calls w' = calls w
        \/ exists u pre id post,
            url = JStr u /\ u = pre ++ id ++ post /\ id <> []
            /\ calls w'
               = CallFetch (lit "https://youtubetranscriptdata.sumanjay.workers.dev/?video_id="
                            ++ id) :: calls w).
Proof.
  intros E url w.
  destruct url as [| | |u| |]; try (cbv zeta; simpl; now auto).
  cbv zeta. rewrite fetchTranscript_spec.
  destruct (YoutubeRoute.videoIdOf u) as [id|] eqn:Hid; [|simpl; auto].
  destruct (fetch (YoutubeRoute.transcriptUrl id) (ext w)) as [o e']. simpl.
  split; [reflexivity|]. split; [reflexivity|]. right.
  destruct (videoIdOf_piece _ Hid) as [pre [post Hu]].
  exists u, pre, id, post. split; [reflexivity|]. split; [exact Hu|].
  split; [|reflexivity]. intros ->. now apply (videoIdOf_nonempty u).
Qed.

(* ------------------------------------------------------------------ *)
(** ** The calls of a request *)

Section CallLog.

Context {E : Env}.

Variable w0 : World.

Lemma Logged_weaken (S S' : list Call -> Prop) (w : World) :
  (forall new, S new -> S' new) -> Logged w0 S w -> Logged w0 S' w.
Proof. intros H [new [Hc Hs]]. exists new. auto. Qed.

Lemma Logged_same (S : list Call -> Prop) (w w' : World) :
  calls w' = calls w -> Logged w0 S w -> Logged w0 S w'.
Proof. intros Hc [new [Hn Hs]]. exists new. split; [congruence|exact Hs]. Qed.

Lemma Logged_call (p : Call -> bool) (S : list Call -> Prop) (w w' : World) (c : Call) :
  calls w' = c :: calls w -> p c = true -> Logged w0 S w -> Logged w0 (andThen p S) w'.
Proof.
  intros Hc Hp [new [Hn Hs]]. exists (c :: new). split.
  - rewrite Hc, Hn. reflexivity.
  - right. now exists c, new.
Qed.

Lemma Logged_skip (p : Call -> bool) (S : list Call -> Prop) (w w' : World) :
  calls w' = calls w -> Logged w0 S w -> Logged w0 (andThen p S) w'.
Proof.
  intros Hc H. apply Logged_same with (w := w); auto.
  revert H. apply Logged_weaken. intros new Hs. now left.
Qed.

Lemma hoare_log_pure {A} (S : list Call -> Prop) (m : M A) :
  (forall w, calls (snd (m w)) = calls w) ->
  hoare (Logged w0 S) m (fun _ => Logged w0 S) (fun _ => Logged w0 S).
Proof.
  intros Hm w Hw. specialize (Hm w).
  destruct (m w) as [[a|e] w']; simpl in Hm; now apply Logged_same with (w := w).
Qed.

Lemma hoare_log_getVectorStore (S : list Call -> Prop) :
  hoare (Logged w0 S) Langchain.getVectorStore
        (fun _ => Logged w0 (andThen isEmptyCreation S))
        (fun _ => Logged w0 (andThen isEmptyCreation S)).
Proof.
  intros w Hw. unfold Langchain.getVectorStore, bind, read_vectorStorePromise.
  destruct (vectorStorePromise w) as [[r|e]|]; simpl.
  - now apply Logged_skip with (w := w).
  - now apply Logged_skip with (w := w).
  - unfold new_OpenAIEmbeddings.
    destruct (newOpenAIEmbeddings (ext w)) as [[emb|e] e1]; simpl.
    + unfold call_fromDocuments; simpl.
      destruct (HNSWLib_fromDocuments [] emb e1) as [[s|e] e2]; simpl;
        now apply Logged_call with (w := w) (c := CallFromDocuments []).
    + now apply Logged_skip with (w := w).
Qed.

Lemma hoare_log_addDocuments (S : list Call -> Prop) (op : Operation) (r : nat) docs :
  (forall request, op <> Query request) ->
  hoare (Logged w0 S) (store_addDocuments r docs)
        (fun _ => Logged w0 (andThen (isLastCall op) S))
        (fun _ => Logged w0 (andThen (isLastCall op) S)).
Proof.
  intros Hop w Hw. unfold store_addDocuments.
  destruct (nth_error (heap w) r) as [s|]; [|now apply Logged_skip with (w := w)].
  destruct (HNSWLib_addDocuments s docs (ext w)) as [[[u|e] s'] e'];
    (apply Logged_call with (w := w) (c := CallAddDocuments r docs); auto;
     destruct op; try reflexivity; now destruct (Hop request)).
Qed.

Lemma hoare_log_similaritySearch (S : list Call -> Prop) (request : Request) (r : nat) q k :
  hoare (Logged w0 S) (store_similaritySearch r q k)
        (fun _ => Logged w0 (andThen (isLastCall (Query request)) S))
        (fun _ => Logged w0 (andThen (isLastCall (Query request)) S)).
Proof.
  intros w Hw. unfold store_similaritySearch.
  destruct (nth_error (heap w) r) as [s|]; [|now apply Logged_skip with (w := w)].
  destruct (HNSWLib_similaritySearch s q k (ext w)) as [[[u|e] s'] e'];
    now apply Logged_call with (w := w) (c := CallSimilaritySearch r q k).
Qed.

Lemma hoare_log_ingest (S : list Call -> Prop) (op : Operation) (text : JsString) :
  (forall request, op <> Query request) ->
  hoare (Logged w0 S)
        (docs <- Langchain.splitToDocuments text ;;
         Langchain.addDocumentsToStore docs ;;;
         ret (json200 (AddedBody (length docs))))
        (fun _ => Logged w0 (andThen (isLastCall op) (andThen isEmptyCreation S)))
        (fun _ => Logged w0 (andThen (isLastCall op) (andThen isEmptyCreation S))).
Proof.
  intros Hop.
  assert (Hup : forall w, Logged w0 S w ->
                          Logged w0 (andThen (isLastCall op) (andThen isEmptyCreation S)) w).
  { intros w. apply Logged_weaken. intros new Hs. left. now left. }
  assert (Hup1 : forall w, Logged w0 (andThen isEmptyCreation S) w ->
                           Logged w0 (andThen (isLastCall op) (andThen isEmptyCreation S)) w).
  { intros w. apply Logged_weaken. intros new Hs. now left. }
  apply hoare_bind with (Q := fun _ => Logged w0 S).
  - eapply hoare_weaken; [apply (hoare_splitToDocuments (Logged w0 S))| | |]; simpl; auto.
  - intros docs.
    apply hoare_bind
      with (Q := fun _ => Logged w0 (andThen (isLastCall op) (andThen isEmptyCreation S))).
    + unfold Langchain.addDocumentsToStore.
      apply hoare_bind with (Q := fun _ => Logged w0 (andThen isEmptyCreation S)).
      * eapply hoare_weaken; [apply (hoare_log_getVectorStore (S := S))| | |]; simpl; auto.
      * intros r. now apply hoare_log_addDocuments.
    + intros u. apply hoare_ret. auto.
Qed.

Lemma hoare_log_fetchTranscript (request : Request) (url : JsValue) :
  hoare (Logged w0 (eq [])) (YoutubeRoute.fetchTranscriptFromYouTube url)
        (fun _ => Logged w0 (andThen (isTranscriptFetch (IngestYoutube request)) (eq [])))
        (fun _ => Logged w0 (andThen (isTranscriptFetch (IngestYoutube request)) (eq []))).
Proof.
  intros w Hw.
  destruct url as [| | |u| |]; try (simpl; now apply Logged_skip with (w := w)).
  rewrite fetchTranscript_spec.
  destruct (YoutubeRoute.videoIdOf u) as [id|] eqn:Hid;
    [|now apply Logged_skip with (w := w)].
  assert (Hfetch : isTranscriptFetch (IngestYoutube request)
                     (CallFetch (YoutubeRoute.transcriptUrl id)) = true).
  { unfold isTranscriptFetch, YoutubeRoute.transcriptUrl.
    rewrite (proj2 (stripPrefix_spec _ _ id) eq_refl).
    destruct id; [|reflexivity]. now destruct (videoIdOf_nonempty u). }
  destruct (fetch (YoutubeRoute.transcriptUrl id) (ext w)) as [[resp|err] e'].
  - destruct (ok resp);
      [destruct (resp_json resp) as [[| | | |items|]|err];
       try destruct (allReturned (map YoutubeRoute.itemText items))|];
      now apply Logged_call with (w := w) (c := CallFetch (YoutubeRoute.transcriptUrl id)).
  - now apply Logged_call with (w := w) (c := CallFetch (YoutubeRoute.transcriptUrl id)).
Qed.

End CallLog.

Lemma andThen_in_order (op : Operation) (new : list Call) :
  andThen (isLastCall op)
    (andThen isEmptyCreation (andThen (isTranscriptFetch op) (eq []))) new ->
  callsInOrder op new = true.
Proof.
  unfold andThen, callsInOrder.
  intros [[[<-|[c1 [o1 [-> [H1 <-]]]]]
          |[c2 [o2 [-> [H2 [<-|[c1 [o1 [-> [H1 <-]]]]]]]]]]
         |[c3 [o3 [-> [H3 [[<-|[c1 [o1 [-> [H1 <-]]]]]
                          |[c2 [o2 [-> [H2 [<-|[c1 [o1 [-> [H1 <-]]]]]]]]]]]]]]];
    try reflexivity;
    repeat match goal with
           | c : Call |- _ => destruct c as [[|? ?]|? ?|? ? ?|?]
           end;
    destruct op; simpl in *; try discriminate;
    repeat match goal with
           | H : match ?x with _ => _ end = true |- _ => destruct x; try discriminate
           end;
    try reflexivity.
Qed.

(** X14. Of the four calls [fetch] (by a route itself),
    [HNSWLib.fromDocuments], [addDocuments] and [similaritySearch], a
    request makes at most three, in a fixed order: for a YouTube ingestion,
    at most one [fetch], of the transcript service with a non-empty video
    id; then at most one [HNSWLib.fromDocuments], with no documents; then at
    most one [addDocuments] (an ingestion) or one [similaritySearch] (a
    query).  Among these four calls, a query never calls [addDocuments], an
    ingestion never calls [similaritySearch], and no route but the YouTube
    one calls [fetch].  The statement is about these four calls only: it
    says nothing of the calls of the splitter and of the embedder's
    constructor, nor of what the store and the embedder do inside their
    calls. *)
Theorem routes_call_in_order :
  forall (E : Env) (op : Operation) (w : World),
    exists new, calls (snd (serve op w)) = new ++ calls w /\ callsInOrder op new = true.
Proof.
  intros E op w.
  assert (H0 : Logged w (eq []) w) by (exists []; split; reflexivity).
  assert (Hup : forall (p q : Call -> bool) w',
             Logged w (andThen q (eq [])) w' ->
             Logged w (andThen p (andThen isEmptyCreation (andThen q (eq [])))) w').
  { intros p q w'. apply Logged_weaken. intros new Hs. left. now left. }
  assert (Hup0 : forall (p q : Call -> bool) w',
             Logged w (eq []) w' ->
             Logged w (andThen p (andThen isEmptyCreation (andThen q (eq [])))) w').
  { intros p q w' Hl. apply Hup. revert Hl. apply Logged_weaken. intros new Hs. now left. }
  assert (Hup2 : forall (p q : Call -> bool) w',
             Logged w (andThen p (andThen isEmptyCreation (eq []))) w' ->
             Logged w (andThen p (andThen isEmptyCreation (andThen q (eq [])))) w').
  { intros p q w'. apply Logged_weaken.
    intros new [[Hs|[c [old [-> [Hc Hs]]]]]|[c [old [-> [Hc [Hs|[c' [old' [-> [Hc' Hs]]]]]]]]]].
    - left. left. now left.
    - left. right. exists c, old. repeat split; auto. now left.
    - right. exists c, old. repeat split; auto. left. now left.
    - right. exists c, (c' :: old'). repeat split; auto. right. exists c', old'.
      repeat split; auto. now left. }
  assert (HL : Logged w (andThen (isLastCall op)
                           (andThen isEmptyCreation (andThen (isTranscriptFetch op) (eq []))))
                      (snd (serve op w))).
  { destruct op as [request|request|request|request]; unfold serve;
      [unfold UploadRoute.POST | unfold TextRoute.POST
       | unfold YoutubeRoute.POST | unfold QueryRoute.POST];
      (match goal with
       | |- Logged w ?S _ =>
           apply (hoare_tryCatch (P := Logged w (eq [])) (I := Logged w S)); [|exact H0]
       end).
    - apply hoare_bind with (Q := fun _ => Logged w (eq [])).
      { eapply hoare_weaken; [apply (hoare_await (Logged w (eq [])))| | |]; simpl; auto. }
      intros form.
      destruct (form_get form (lit "file")) as [[s|f]|];
        try (apply hoare_ret; intros w'; apply Hup0).
      eapply hoare_weaken;
        [apply (hoare_log_ingest (w0 := w) (S := eq []) (op := IngestUpload request));
         discriminate | | |]; simpl; auto; intros a w'; apply Hup2.
    - apply hoare_bind with (Q := fun _ => Logged w (eq [])).
      { eapply hoare_weaken; [apply (hoare_await (Logged w (eq [])))| | |]; simpl; auto. }
      intros json.
      apply hoare_bind with (Q := fun _ => Logged w (eq [])).
      { eapply hoare_weaken; [apply (hoare_destructure (Logged w (eq [])))| | |]; simpl; auto. }
      intros text.
      destruct (_ || _); [apply hoare_ret; intros w'; apply Hup0|].
      eapply hoare_weaken;
        [apply (hoare_log_ingest (w0 := w) (S := eq []) (op := IngestText request));
         discriminate | | |]; simpl; auto; intros a w'; apply Hup2.
    - apply hoare_bind with (Q := fun _ => Logged w (eq [])).
      { eapply hoare_weaken; [apply (hoare_await (Logged w (eq [])))| | |]; simpl; auto. }
      intros json.
      apply hoare_bind with (Q := fun _ => Logged w (eq [])).
      { eapply hoare_weaken; [apply (hoare_destructure (Logged w (eq [])))| | |]; simpl; auto. }
      intros url.
      destruct url as [u|]; [|apply hoare_ret; intros w'; apply Hup0].
      destruct (negb _); [apply hoare_ret; intros w'; apply Hup0|].
      apply hoare_bind
        with (Q := fun _ => Logged w (andThen (isTranscriptFetch (IngestYoutube request))
                                        (eq []))).
      + eapply hoare_weaken; [apply (hoare_log_fetchTranscript (w0 := w) request u)| | |];
          simpl; auto.
      + intros tr.
        apply (hoare_log_ingest (w0 := w)
                 (S := andThen (isTranscriptFetch (IngestYoutube request)) (eq []))
                 (op := IngestYoutube request)).
        discriminate.
    - apply hoare_bind with (Q := fun _ => Logged w (eq [])).
      { eapply hoare_weaken; [apply (hoare_await (Logged w (eq [])))| | |]; simpl; auto. }
      intros json.
      apply hoare_bind with (Q := fun _ => Logged w (eq [])).
      { eapply hoare_weaken; [apply (hoare_destructure (Logged w (eq [])))| | |]; simpl; auto. }
      intros q.
      apply hoare_bind with (Q := fun _ => Logged w (eq [])).
      { eapply hoare_weaken; [apply (hoare_destructure (Logged w (eq [])))| | |]; simpl; auto. }
      intros k.
      destruct q as [q|]; [|apply hoare_ret; intros w'; apply Hup0].
      destruct (negb _); [apply hoare_ret; intros w'; apply Hup0|].
      apply hoare_bind
        with (Q := fun _ => Logged w (andThen (isLastCall (Query request))
                                        (andThen isEmptyCreation
                                           (andThen (isTranscriptFetch (Query request))
                                              (eq []))))).
      + unfold Langchain.similaritySearch.
        apply hoare_bind with (Q := fun _ => Logged w (andThen isEmptyCreation (eq []))).
        * eapply hoare_weaken; [apply (hoare_log_getVectorStore (w0 := w) (S := eq []))| | |];
            simpl; auto.
          intros e w' Hw'. apply Hup2. revert Hw'. apply Logged_weaken.
          intros new Hs. now left.
        * intros r.
          eapply hoare_weaken;
            [apply (hoare_log_similaritySearch (w0 := w) (S := andThen isEmptyCreation (eq []))
                      request r q _)| | |]; simpl; auto; intros a w'; apply Hup2.
      + intros docs. apply hoare_ret. auto. }
  destruct HL as [new [Hc Hs]]. exists new. split; [exact Hc|].
  now apply andThen_in_order.
Qed.

(* ------------------------------------------------------------------ *)
(** ** The token route *)

(** X15. Without both keys no token is requested: when [HUME_API_KEY] or
    [HUME_SECRET_KEY] is unset or empty, the token route answers 500 with
    "Missing HUME_API_KEY or HUME_SECRET_KEY environment variables" and
    [fetchAccessToken] is not called: the world is left as it was. *)
Theorem token_needs_both_keys :
  forall (E : Env) (H : HumeSdk) (w : World),
    unset "HUME_API_KEY" \/ unset "HUME_SECRET_KEY" ->
    Hume.GET w
    = ({| json_status := 500;
          json_body :=
            JObj [(lit "error",
                   JStr (lit "Missing HUME_API_KEY or HUME_SECRET_KEY environment variables"))] |},
       w).
Proof.
  intros E H w Hu. unfold Hume.GET, Hume.getHumeAccessToken, unset in *.
  destruct Hu as [[Hk|Hk]|[Hk|Hk]]; rewrite Hk; simpl;
    try reflexivity;
    destruct (process_env (lit "HUME_API_KEY")) as [[|c a]|]; reflexivity.
Qed.

Lemma token_needs_both_keys_witness :
  (@unset demoEnv noKeysHume "HUME_API_KEY" \/ @unset demoEnv noKeysHume "HUME_SECRET_KEY")
  /\ @Hume.GET demoEnv noKeysHume demoWorldWithHello
     = ({| json_status := 500;
           json_body :=
             JObj [(lit "error",
                    JStr (lit "Missing HUME_API_KEY or HUME_SECRET_KEY environment variables"))] |},
        demoWorldWithHello).
Proof.
  split; [left; left; reflexivity|].
  apply (@token_needs_both_keys demoEnv noKeysHume demoWorldWithHello).
  left. left. reflexivity.
Defined.

(** X16. With both keys set and not empty, the token route calls
    [fetchAccessToken] once, with these two keys, and answers 200 with the
    token it yields, or 500 with the message of its error ("Failed to get
    token" for a thrown value that is not an [Error]); the module variable,
    the store and the log of the retrieval routes are left as they were. *)
Theorem token_is_fetched_with_both_keys :
  forall (E : Env) (H : HumeSdk) (w : World) (apiKey secretKey : JsString),
    process_env (lit "HUME_API_KEY") = Some apiKey -> apiKey <> [] ->
    process_env (lit "HUME_SECRET_KEY") = Some secretKey -> secretKey <> [] ->
    Hume.GET w
    = (let '(o, e') := fetchAccessToken apiKey secretKey (ext w) in
       (match o with
        | Returned token =>
            {| json_status := 200; json_body := JObj [(lit "token", JStr token)] |}
        | Threw err =>
            {| json_status := 500;
               json_body := JObj [(lit "error", JStr (messageOf err "Failed to get token"))] |}
        end,
        {| vectorStorePromise := vectorStorePromise w; heap := heap w; ext := e';
           calls := calls w |})).
Proof.
  intros E H w apiKey secretKey Ha Hna Hs Hns.
  unfold Hume.GET, Hume.getHumeAccessToken. rewrite Ha, Hs.
  destruct apiKey as [|a apiKey]; [congruence|].
  destruct secretKey as [|s secretKey]; [congruence|].
  simpl. unfold bind, Hume.call_fetchAccessToken.
  destruct (fetchAccessToken (a :: apiKey) (s :: secretKey) (ext w)) as [[token|err] e'];
    [reflexivity|destruct err; reflexivity].
Qed.

Lemma token_is_fetched_with_both_keys_witness :
  @process_env demoEnv demoHume (lit "HUME_API_KEY") = Some (lit "key")
  /\ lit "key" <> []
  /\ @process_env demoEnv demoHume (lit "HUME_SECRET_KEY") = Some (lit "secret")
  /\ lit "secret" <> []
  /\ @Hume.GET demoEnv demoHume demoWorldWithHello
     = ({| json_status := 200; json_body := JObj [(lit "token", JStr (lit "key:secret"))] |},
        demoWorldWithHello).
Proof.
  split; [reflexivity|]. split; [discriminate|]. split; [reflexivity|].
  split; [discriminate|].
  rewrite (@token_is_fetched_with_both_keys demoEnv demoHume demoWorldWithHello
             (lit "key") (lit "secret")); [reflexivity | reflexivity | discriminate
                                          | reflexivity | discriminate].
Defined.

(* ------------------------------------------------------------------ *)
(** ** The page *)

(** Running a handler of the page by cases on what the outside answers. *)
Ltac page_simpl :=
  cbn [component net requests connections console_error fst snd
       KnowledgeUploader.file KnowledgeUploader.youtubeUrl KnowledgeUploader.pastedText
       KnowledgeUploader.query KnowledgeUploader.results KnowledgeUploader.status
       truthy negb length N.of_nat N.eqb Pos.of_succ_nat Pos.succ].

Ltac run_click :=
  unfold KnowledgeUploader.onClick, KnowledgeUploader.uploadFile,
    KnowledgeUploader.addYouTube, KnowledgeUploader.addText, KnowledgeUploader.runQuery,
    KnowledgeUploader.addedOrError, KnowledgeUploader.setStatus,
    KnowledgeUploader.setResults, KnowledgeUploader.setPastedText,
    Client.bind, Client.getState, Client.setState, Client.fetch, Client.await,
    Client.get, Client.ret, Client.throw;
  page_simpl.

(** The outcomes of the request of a click. *)
Ltac by_outcome n :=
  let resp := fresh "resp" in
  let e := fresh "e" in
  let n' := fresh "n'" in
  match goal with
  | |- context [window_fetch ?url ?init n] =>
      destruct (window_fetch url init n) as [[resp|e] n'] eqn:Hw; page_simpl;
      [destruct (resp_json resp) as [[| | | | |]|?] eqn:Hj; destruct (ok resp) eqn:Hok;
       page_simpl;
       try match goal with
           | |- context [templateString ?v] =>
               destruct (templateString v) eqn:Hcount; page_simpl
           end|]
  end.

(** X17. A click sends at most one request, and none on empty input: with
    no file chosen, an empty URL, a pasted text that is blank, or an empty
    query, the handler returns at once and the page is left as it was;
    otherwise it sends exactly one POST, to the endpoint of its button, that
    carries the input as it stands. *)
Theorem click_sends_at_most_one_request :
  forall (E : Env) (B : Browser) (b : KnowledgeUploader.Button)
         (page : Page KnowledgeUploader.State),
    match requestOfClick b (component page) with
    | None => KnowledgeUploader.onClick b page = (Returned tt, page)
    | Some rq => requests (snd (KnowledgeUploader.onClick b page)) = rq :: requests page
    end.
Proof.
  intros E B b [st n rqs cns errs].
  destruct b; unfold requestOfClick; run_click.
  - destruct (KnowledgeUploader.file st) as [f|]; [|reflexivity].
    page_simpl. by_outcome n; reflexivity.
  - destruct (KnowledgeUploader.youtubeUrl st) as [|c url]; [reflexivity|].
    page_simpl. by_outcome n; reflexivity.
  - destruct (trim (KnowledgeUploader.pastedText st)) as [|c t]; [reflexivity|].
    page_simpl. by_outcome n; reflexivity.
  - destruct (KnowledgeUploader.query st) as [|c q]; [reflexivity|].
    page_simpl. by_outcome n; reflexivity.
Qed.

(** X18. The handlers of the uploader catch nothing: when the request of a
    click fails ([fetch] rejects, the body of the response is not JSON, or
    it is [null]), the handler itself throws, and the page is left showing
    the progress message of the button ("Uploading...", "Fetching
    transcript...", "Adding text...", "Searching..."); its inputs and its
    results are as before. *)
Theorem failed_request_leaves_the_progress_message :
  forall (E : Env) (B : Browser) (b : KnowledgeUploader.Button)
         (page : Page KnowledgeUploader.State) (rq : JsString * RequestInit),
    requestOfClick b (component page) = Some rq ->
    requestFails rq (net page) ->
    (exists e, fst (KnowledgeUploader.onClick b page) = Threw e)
    /\ component (snd (KnowledgeUploader.onClick b page))
       = withStatus (component page) (progress b).
Proof.
  intros E B b [st n rqs cns errs] rq Hrq Hf. cbn [net component] in *.
  destruct b; unfold requestOfClick in Hrq; run_click;
    [destruct (KnowledgeUploader.file st) as [f|]; [|discriminate]
    |destruct (KnowledgeUploader.youtubeUrl st) as [|c url] eqn:Hu; [discriminate|]
    |destruct (trim (KnowledgeUploader.pastedText st)) as [|c t] eqn:Ht; [discriminate|]
    |destruct (KnowledgeUploader.query st) as [|c q] eqn:Hq; [discriminate|]];
    inversion Hrq; subst rq; clear Hrq; page_simpl;
    match goal with
    | |- context [window_fetch ?u ?i n] => change (requestFails (u, i) n) in Hf
    end;
    unfold requestFails in Hf; cbn [fst snd] in Hf;
    by_outcome n; try rewrite Hw in Hf; cbn [fst] in Hf; try rewrite Hj in Hf;
    try contradiction; split; eauto.
Qed.

Lemma failed_request_leaves_the_progress_message_witness :
  let st := {| KnowledgeUploader.file := Some {| file_text := lit "notes" |};
               KnowledgeUploader.youtubeUrl := [];
               KnowledgeUploader.pastedText := [];
               KnowledgeUploader.query := lit "old question";
               KnowledgeUploader.results := JArr [];
               KnowledgeUploader.status := JStr [] |} in
  let rq := (lit "/api/ingest/upload",
             postForm [(lit "file", FormFile {| file_text := lit "notes" |})]) in
  requestOfClick KnowledgeUploader.Upload (component (@mount offlineBrowser _ st tt)) = Some rq
  /\ @requestFails offlineBrowser rq (net (@mount offlineBrowser _ st tt))
  /\ (exists e,
         fst (@KnowledgeUploader.onClick demoEnv offlineBrowser KnowledgeUploader.Upload
                (@mount offlineBrowser _ st tt)) = Threw e)
  /\ component (snd (@KnowledgeUploader.onClick demoEnv offlineBrowser KnowledgeUploader.Upload
                       (@mount offlineBrowser _ st tt)))
     = withStatus st (JStr (lit "Uploading...")).
Proof.
  cbv zeta. split; [reflexivity|]. split; [exact I|].
  apply (@failed_request_leaves_the_progress_message demoEnv offlineBrowser
           KnowledgeUploader.Upload
           (@mount offlineBrowser _
              {| KnowledgeUploader.file := Some {| file_text := lit "notes" |};
                 KnowledgeUploader.youtubeUrl := [];
                 KnowledgeUploader.pastedText := [];
                 KnowledgeUploader.query := lit "old question";
                 KnowledgeUploader.results := JArr [];
                 KnowledgeUploader.status := JStr [] |} tt)
           (lit "/api/ingest/upload",
            postForm [(lit "file", FormFile {| file_text := lit "notes" |})]));
    [reflexivity | exact I].
Defined.

(** X19. No handler of the uploader touches the chosen file, the URL or
    the query, whatever the outside answers.  The text area changes in one
    case only: Add Text empties it once a response with [ok] arrived and
    its body was read.  The results change only by Search, and only on a
    response with [ok]: after a failed search the results of the previous
    one are still shown, next to the error. *)
Theorem handlers_keep_the_inputs :
  forall (E : Env) (B : Browser) (b : KnowledgeUploader.Button)
         (page : Page KnowledgeUploader.State),
    let st := component page in
    let st' := component (snd (KnowledgeUploader.onClick b page)) in
    let answeredOk :=
      exists rq resp n',
        requestOfClick b st = Some rq
        /\ window_fetch (fst rq) (snd rq) (net page) = (Returned resp, n')
        /\ ok resp = true in
    KnowledgeUploader.file st' = KnowledgeUploader.file st
    /\ KnowledgeUploader.youtubeUrl st' = KnowledgeUploader.youtubeUrl st
    /\ KnowledgeUploader.query st' = KnowledgeUploader.query st
    /\ (KnowledgeUploader.pastedText st' = KnowledgeUploader.pastedText st
        \/ b = KnowledgeUploader.AddText /\ KnowledgeUploader.pastedText st' = []
           /\ answeredOk)
    /\ (KnowledgeUploader.results st' = KnowledgeUploader.results st
        \/ b = KnowledgeUploader.Search /\ answeredOk).
Proof.
  intros E B b [st n rqs cns errs]. cbv zeta. cbn [net component].
  destruct b; unfold requestOfClick; run_click;
    [destruct (KnowledgeUploader.file st) as [f|] eqn:Hfile
    |destruct (KnowledgeUploader.youtubeUrl st) as [|c url] eqn:Hu
    |destruct (trim (KnowledgeUploader.pastedText st)) as [|c t] eqn:Ht
    |destruct (KnowledgeUploader.query st) as [|c q] eqn:Hq];
    page_simpl; try (repeat split; auto; fail);
    by_outcome n; repeat split; auto;
    right; repeat split; auto; eexists _, _, _; (split; [reflexivity|]);
    cbn [fst snd]; split; eauto.
Qed.

(* ------------------------------------------------------------------ *)
(** ** The page against the server *)

Section SameOrigin.

Context {E : Env} {H : HumeSdk}.

Variable d : Device.

Lemma sameOrigin_fetch (url : JsString) (init : RequestInit) (op : Operation)
      (n : @Net (sameOrigin d)) :
  operationOf url init = Some op ->
  @window_fetch (sameOrigin d) url init n
  = (Returned (delivered (fst (serve op (fst n)))), (snd (serve op (fst n)), snd n)).
Proof.
  intros Hop. unfold window_fetch, sameOrigin, answer. rewrite Hop.
  destruct (serve op (fst n)) as [r w']. reflexivity.
Qed.

Lemma sameOrigin_token (n : @Net (sameOrigin d)) :
  @window_fetch (sameOrigin d) (lit "/api/hume/token") noInit n
  = (Returned (deliveredJson (fst (Hume.GET (fst n)))), (snd (Hume.GET (fst n)), snd n)).
Proof.
  unfold window_fetch, sameOrigin, answer.
  change (operationOf (lit "/api/hume/token") noInit) with (@None Operation).
  cbn [method noInit].
  change (str_eqb (lit "/api/hume/token") (lit "/api/hume/token")) with true.
  cbv iota. destruct (Hume.GET (fst n)) as [r w']. reflexivity.
Qed.

(** The answers of a route, one by one. *)
Lemma serve_cases (op : Operation) (w : World) :
  let r := fst (serve op w) in
  r = jsonStatus (ErrorBody (lit (validationMessage op))) 400
  \/ (exists msg, r = jsonStatus (ErrorBody msg) 500)
  \/ (exists n, r = json200 (AddedBody n) /\ forall request, op <> Query request)
  \/ (exists docs, r = json200 (ResultsBody docs) /\ exists request, op = Query request).
Proof.
  cbv zeta. apply serve_answer; eauto 6.
Qed.

Lemma serve_400_refused (op : Operation) (w : World) :
  status (fst (serve op w)) = 400%N -> refused op.
Proof.
  intros H400. destruct op as [request|request|request|request]; simpl in H400.
  - now apply UploadRoute_400 in H400.
  - now apply TextRoute_400 in H400.
  - now apply YoutubeRoute_400 in H400.
  - now apply QueryRoute_400 in H400.
Qed.

(** The request of a click is one its route does not refuse. *)
Lemma click_not_refused (b : KnowledgeUploader.Button) (st : KnowledgeUploader.State)
      (url : JsString) (init : RequestInit) :
  requestOfClick b st = Some (url, init) ->
  exists op, operationOf url init = Some op /\ ~ refused op
             /\ ((exists request, op = Query request) <-> b = KnowledgeUploader.Search).
Proof.
  destruct b; unfold requestOfClick.
  - destruct (KnowledgeUploader.file st) as [f|]; [|discriminate].
    intros Hrq. inversion Hrq; subst. eexists. split; [reflexivity|]. split.
    + intros [form [Hf Hno]]. inversion Hf; subst. now apply (Hno f).
    + split; [intros [request Hq]; discriminate|discriminate].
  - destruct (KnowledgeUploader.youtubeUrl st) as [|c u]; [discriminate|].
    intros Hrq. inversion Hrq; subst. eexists. split; [reflexivity|]. split.
    + intros [json [Hj [_ Ht]]]. inversion Hj; subst. discriminate Ht.
    + split; [intros [request Hq]; discriminate|discriminate].
  - destruct (trim (KnowledgeUploader.pastedText st)) as [|c t] eqn:Ht; [discriminate|].
    intros Hrq. inversion Hrq; subst. eexists. split; [reflexivity|]. split.
    + intros [json [Hj [_ [Hs|Hb]]]]; inversion Hj; subst; [discriminate Hs|].
      simpl in Hb. rewrite Ht in Hb. discriminate Hb.
    + split; [intros [request Hq]; discriminate|discriminate].
  - destruct (KnowledgeUploader.query st) as [|c q]; [discriminate|].
    intros Hrq. inversion Hrq; subst. eexists. split; [reflexivity|]. split.
    + intros [json [Hj [_ Hq]]]. inversion Hj; subst. discriminate Hq.
    + split; [intros _; reflexivity|intros _; eexists; reflexivity].
Qed.

(** A click whose request the route does not answer with 400. *)
Lemma click_served (b : KnowledgeUploader.Button)
      (page : @Page (sameOrigin d) KnowledgeUploader.State)
      (url : JsString) (init : RequestInit) (op : Operation) :
  requestOfClick b (component page) = Some (url, init) ->
  operationOf url init = Some op ->
  ((exists request, op = Query request) <-> b = KnowledgeUploader.Search) ->
  status (fst (serve op (fst (net page)))) <> 400%N ->
  @KnowledgeUploader.onClick E (sameOrigin d) b page
  = (Returned tt,
     {| component := afterClick b (fst (serve op (fst (net page)))) (component page);
        net := ((snd (serve op (fst (net page))), snd (net page)) : @Net (sameOrigin d));
        requests := (url, init) :: requests page;
        connections := connections page;
        console_error := console_error page |}).
Proof.
  destruct page as [st n rqs cns errs]. cbn [component net requests connections
    console_error]. intros Hrq Hop Hq H400.
  pose proof (serve_cases op (fst n)) as Hcases. cbv zeta in Hcases.
  destruct b; unfold requestOfClick in Hrq; run_click;
    [destruct (KnowledgeUploader.file st) as [f|] eqn:Hfile; [|discriminate]
    |destruct (KnowledgeUploader.youtubeUrl st) as [|c u] eqn:Hu; [discriminate|]
    |destruct (trim (KnowledgeUploader.pastedText st)) as [|c t] eqn:Ht; [discriminate|]
    |destruct (KnowledgeUploader.query st) as [|c q] eqn:Hqu; [discriminate|]];
    inversion Hrq; subst url init; clear Hrq; page_simpl;
    match goal with
    | |- context [@window_fetch ?B ?u ?i n] =>
        rewrite (@sameOrigin_fetch u i op n Hop)
    end;
    page_simpl;
    (destruct Hcases as [Hr|[[msg Hr]|[[k [Hr Hk]]|[docs [Hr [request Hk]]]]]];
     [ rewrite Hr in H400; now destruct H400
     | rewrite Hr; unfold afterClick, shown;
       cbn [delivered ok resp_json body status jsonStatus json200 isOk received];
       page_simpl; destruct msg; reflexivity
     | try (exfalso; assert (Hs : KnowledgeUploader.Search = KnowledgeUploader.Search)
              by reflexivity; apply Hq in Hs; destruct Hs as [rq Hs]; now apply (Hk rq));
       rewrite Hr; unfold afterClick, shown;
       cbn [delivered ok resp_json body status jsonStatus json200 isOk received];
       page_simpl; reflexivity
     | try (assert (Hb : exists rq, op = Query rq) by (now exists request);
            apply Hq in Hb; discriminate Hb);
       rewrite Hr; unfold afterClick, shown;
       cbn [delivered ok resp_json body status jsonStatus json200 isOk received];
       page_simpl; reflexivity ]).
Qed.

End SameOrigin.

(** X20. End to end, a click on the page shows what its route answered.
    With the page and the routes in one deployment, a click with non-empty
    input is served by the route of its button; the route never answers it
    with 400 (the checks of the page are at least as strict as those of the
    routes); the handler returns; and the page then shows "Added N chunks"
    for the number N the route reported, the message of the route's error, or
    the fallback of the button when that message is empty.  A successful Add
    Text empties the text area; a successful Search replaces the results by
    the documents found, as their JSON, and clears the status. *)
Theorem page_shows_the_answer_of_the_route :
  forall (E : Env) (H : HumeSdk) (d : Device) (b : KnowledgeUploader.Button)
         (page : @Page (sameOrigin d) KnowledgeUploader.State)
         (url : JsString) (init : RequestInit),
    requestOfClick b (component page) = Some (url, init) ->
    exists op,
      operationOf url init = Some op
      /\ status (fst (serve op (fst (net page)))) <> 400%N
      /\ @KnowledgeUploader.onClick E (sameOrigin d) b page
         = (Returned tt,
            {| component := afterClick b (fst (serve op (fst (net page)))) (component page);
               net := ((snd (serve op (fst (net page))), snd (net page))
                       : @Net (sameOrigin d));
               requests := (url, init) :: requests page;
               connections := connections page;
               console_error := console_error page |}).
Proof.
  intros E H d b page url init Hrq.
  destruct (click_not_refused _ _ Hrq) as [op [Hop [Hnr Hq]]].
  exists op. split; [exact Hop|].
  assert (H400 : status (fst (serve op (fst (net page)))) <> 400%N).
  { intros H4. apply Hnr. now apply serve_400_refused in H4. }
  split; [exact H400|].
  now apply click_served.
Qed.

Lemma page_shows_the_answer_of_the_route_witness :
  let st := {| KnowledgeUploader.file := None;
               KnowledgeUploader.youtubeUrl := [];
               KnowledgeUploader.pastedText := lit "hello";
               KnowledgeUploader.query := [];
               KnowledgeUploader.results := JArr [];
               KnowledgeUploader.status := JStr [] |} in
  let page := @mount (@sameOrigin demoEnv demoHume demoDevice) _ st (demoWorld, tt) in
  requestOfClick KnowledgeUploader.AddText (component page)
  = Some (lit "/api/ingest/text", postJson [(lit "text", lit "hello")])
  /\ exists op,
      operationOf (lit "/api/ingest/text") (postJson [(lit "text", lit "hello")]) = Some op
      /\ status (fst (@serve demoEnv op (fst (net page)))) <> 400%N
      /\ @KnowledgeUploader.onClick demoEnv (@sameOrigin demoEnv demoHume demoDevice)
           KnowledgeUploader.AddText page
         = (Returned tt,
            {| component := @afterClick demoEnv KnowledgeUploader.AddText
                              (fst (@serve demoEnv op (fst (net page)))) (component page);
               net := ((snd (@serve demoEnv op (fst (net page))), snd (net page))
                       : @Net (@sameOrigin demoEnv demoHume demoDevice));
               requests := (lit "/api/ingest/text", postJson [(lit "text", lit "hello")])
                           :: requests page;
               connections := connections page;
               console_error := console_error page |}).
Proof.
  cbv zeta. split; [reflexivity|].
  apply (@page_shows_the_answer_of_the_route demoEnv demoHume demoDevice
           KnowledgeUploader.AddText
           (@mount (@sameOrigin demoEnv demoHume demoDevice) _
              {| KnowledgeUploader.file := None;
                 KnowledgeUploader.youtubeUrl := [];
                 KnowledgeUploader.pastedText := lit "hello";
                 KnowledgeUploader.query := [];
                 KnowledgeUploader.results := JArr [];
                 KnowledgeUploader.status := JStr [] |} (demoWorld, tt))
           (lit "/api/ingest/text") (postJson [(lit "text", lit "hello")])).
  reflexivity.
Defined.

(** The page of the demonstration after ["hello"] was pasted and added:
    the text area is empty again, and the process holds one chunk. *)
Example page_adds_hello :
  let st := {| KnowledgeUploader.file := None;
               KnowledgeUploader.youtubeUrl := [];
               KnowledgeUploader.pastedText := lit "hello";
               KnowledgeUploader.query := [];
               KnowledgeUploader.results := JArr [];
               KnowledgeUploader.status := JStr [] |} in
  let page' :=
    snd (@KnowledgeUploader.onClick demoEnv (@sameOrigin demoEnv demoHume demoDevice)
           KnowledgeUploader.AddText
           (@mount (@sameOrigin demoEnv demoHume demoDevice) _ st (demoWorld, tt))) in
  KnowledgeUploader.pastedText (component page') = []
  /\ fst (net page') = demoWorldWithHello
  /\ KnowledgeUploader.status (component page')
     = JStr (lit "Added " ++ @Number_toString demoEnv (lengthNumber 1) ++ lit " chunks").
Proof. cbv zeta. split; [reflexivity|]. split; reflexivity. Qed.

(* ------------------------------------------------------------------ *)
(** ** The voice session *)

Ltac voice_simpl :=
  cbn [component net requests connections console_error fst snd VoiceChat.loading
       truthy negb length N.of_nat N.eqb Pos.of_succ_nat Pos.succ].

Ltac run_start :=
  unfold VoiceChat.start, VoiceChat.setLoading, Client.tryCatchFinally,
    Client.bind, Client.getState, Client.setState, Client.fetch, Client.await,
    Client.get, Client.ret, Client.throw, Client.connect, Client.consoleError;
  voice_simpl.

(** The outcome in which nothing was connected and one error was logged. *)
Ltac logged_once :=
  split; [reflexivity|]; split; [reflexivity|]; split; [reflexivity|];
  left; split; [reflexivity|]; eexists; reflexivity.

(** X21. [start] always finishes: whatever the token route and the voice
    service do, the handler returns (every error is caught and logged with
    [console.error]), [loading] is [false] again, and exactly one request
    was sent, a GET of [/api/hume/token].  [connect] is called at most once,
    and only after a response with [ok] whose body is not [null], with the
    [token] of that body; every other outcome logs exactly one error. *)
Theorem start_always_finishes :
  forall (E : Env) (B : Browser) (page : Page VoiceChat.State),
    let page' := snd (VoiceChat.start page) in
    fst (VoiceChat.start page) = Returned tt
    /\ VoiceChat.loading (component page') = false
    /\ requests page' = (lit "/api/hume/token", noInit) :: requests page
    /\ ((connections page' = connections page
         /\ exists e, console_error page' = e :: console_error page)
        \/ exists resp n1 json,
            window_fetch (lit "/api/hume/token") noInit (net page) = (Returned resp, n1)
            /\ ok resp = true /\ resp_json resp = Returned json /\ json <> JNull
            /\ connections page' = property (lit "token") json :: connections page
            /\ match fst (voice_connect (property (lit "token") json) n1) with
               | Returned _ => console_error page' = console_error page
               | Threw e => console_error page' = e :: console_error page
               end).
Proof.
  intros E B [st n rqs cns errs]. cbv zeta. run_start.
  destruct (window_fetch (lit "/api/hume/token") noInit n) as [[resp|e] n1] eqn:Hw;
    voice_simpl; [|logged_once].
  destruct (resp_json resp) as [json|e] eqn:Hj; voice_simpl; [|logged_once].
  destruct (ok resp) eqn:Hok; voice_simpl.
  - destruct json; voice_simpl; try logged_once;
      match goal with
      | |- context [voice_connect ?t n1] =>
          destruct (voice_connect t n1) as [[[]|e] n2] eqn:Hc; voice_simpl;
          (split; [reflexivity|]; split; [reflexivity|]; split; [reflexivity|];
           right; exists resp, n1; eexists;
           split; [first [reflexivity|eassumption]|];
           split; [first [reflexivity|eassumption]|];
           split; [first [reflexivity|eassumption]|];
           split; [discriminate|]; split; [reflexivity|];
           rewrite Hc; reflexivity)
      end.
  - destruct json; voice_simpl;
      try match goal with
          | |- context [ToString ?v] => destruct (ToString v); voice_simpl
          end;
      logged_once.
Qed.

Section VoiceAgainstTheRoute.

Context {E : Env} {H : HumeSdk}.

Lemma getHumeAccessToken_unset (w : World) :
  unset "HUME_API_KEY" \/ unset "HUME_SECRET_KEY" ->
  Hume.getHumeAccessToken w
  = (Threw (JsError (lit "Missing HUME_API_KEY or HUME_SECRET_KEY environment variables")), w).
Proof.
  intros Hu. unfold Hume.getHumeAccessToken, unset in *.
  destruct Hu as [[Hk|Hk]|[Hk|Hk]]; rewrite Hk; simpl;
    try reflexivity;
    destruct (process_env (lit "HUME_API_KEY")) as [[|c a]|]; reflexivity.
Qed.

Lemma getHumeAccessToken_set (w : World) (apiKey secretKey : JsString) :
  process_env (lit "HUME_API_KEY") = Some apiKey -> apiKey <> [] ->
  process_env (lit "HUME_SECRET_KEY") = Some secretKey -> secretKey <> [] ->
  Hume.getHumeAccessToken w = Hume.call_fetchAccessToken apiKey secretKey w.
Proof.
  intros Ha Hna Hs Hns. unfold Hume.getHumeAccessToken. rewrite Ha, Hs.
  destruct apiKey as [|a apiKey]; [congruence|].
  destruct secretKey as [|s secretKey]; [congruence|].
  simpl. unfold bind.
  destruct (Hume.call_fetchAccessToken (a :: apiKey) (s :: secretKey) w) as [[token|err] w'];
    reflexivity.
Qed.

End VoiceAgainstTheRoute.

(** X22. Without both keys a voice session never starts: with the page and
    the token route in one deployment and [HUME_API_KEY] or
    [HUME_SECRET_KEY] unset or empty, [start] sends its one request, logs
    the error "Missing HUME_API_KEY or HUME_SECRET_KEY environment
    variables", does not call [connect], and leaves [loading] false; the
    server and the voice service are as before. *)
Theorem start_without_keys_never_connects :
  forall (E : Env) (H : HumeSdk) (d : Device) (page : @Page (sameOrigin d) VoiceChat.State),
    unset "HUME_API_KEY" \/ unset "HUME_SECRET_KEY" ->
    @VoiceChat.start E (sameOrigin d) page
    = (Returned tt,
       {| component := {| VoiceChat.loading := false |};
          net := net page;
          requests := (lit "/api/hume/token", noInit) :: requests page;
          connections := connections page;
          console_error :=
            JsError (lit "Missing HUME_API_KEY or HUME_SECRET_KEY environment variables")
            :: console_error page |}).
Proof.
  intros E H d [st [w v] rqs cns errs] Hu. run_start.
  rewrite (@sameOrigin_token E H d (w, v)). voice_simpl.
  unfold Hume.GET. rewrite (getHumeAccessToken_unset w Hu). reflexivity.
Qed.

Lemma start_without_keys_never_connects_witness :
  (@unset demoEnv noKeysHume "HUME_API_KEY" \/ @unset demoEnv noKeysHume "HUME_SECRET_KEY")
  /\ @VoiceChat.start demoEnv (@sameOrigin demoEnv noKeysHume demoDevice)
       (@mount (@sameOrigin demoEnv noKeysHume demoDevice) _
          {| VoiceChat.loading := false |} (demoWorld, tt))
     = (Returned tt,
        {| component := {| VoiceChat.loading := false |};
           net := ((demoWorld, tt) : @Net (@sameOrigin demoEnv noKeysHume demoDevice));
           requests := [(lit "/api/hume/token", noInit)];
           connections := [];
           console_error :=
             [JsError (lit "Missing HUME_API_KEY or HUME_SECRET_KEY environment variables")] |}).
Proof.
  split; [left; left; reflexivity|].
  apply (@start_without_keys_never_connects demoEnv noKeysHume demoDevice
           (@mount (@sameOrigin demoEnv noKeysHume demoDevice) _
              {| VoiceChat.loading := false |} (demoWorld, tt))).
  left. left. reflexivity.
Defined.

(** X23. With both keys set, the token that [fetchAccessToken] yields is
    the value [start] hands to [connect]: the page sends its one request,
    the route fetches a token with the two keys, and [connect] is called
    once, with that token; [loading] is false afterwards, whether [connect]
    succeeds or not. *)
Theorem start_hands_the_token_to_connect :
  forall (E : Env) (H : HumeSdk) (d : Device) (page : @Page (sameOrigin d) VoiceChat.State)
         (apiKey secretKey token : JsString) (e' : Ext),
    process_env (lit "HUME_API_KEY") = Some apiKey -> apiKey <> [] ->
    process_env (lit "HUME_SECRET_KEY") = Some secretKey -> secretKey <> [] ->
    fetchAccessToken apiKey secretKey (ext (fst (net page))) = (Returned token, e') ->
    let page' := snd (@VoiceChat.start E (sameOrigin d) page) in
    fst (@VoiceChat.start E (sameOrigin d) page) = Returned tt
    /\ connections page' = Some (JStr token) :: connections page
    /\ requests page' = (lit "/api/hume/token", noInit) :: requests page
    /\ VoiceChat.loading (component page') = false.
Proof.
  intros E H d [st [w v] rqs cns errs] apiKey secretKey token e' Ha Hna Hs Hns Hf.
  cbn [net fst] in Hf. cbv zeta. run_start.
  rewrite (@sameOrigin_token E H d (w, v)). voice_simpl.
  unfold Hume.GET. rewrite (getHumeAccessToken_set w Ha Hna Hs Hns).
  unfold Hume.call_fetchAccessToken. rewrite Hf.
  cbn [deliveredJson ok resp_json json_status json_body fst snd].
  change (isOk 200) with true.
  voice_simpl. unfold voice_connect, sameOrigin. cbn [fst snd].
  match goal with
  | |- context [device_connect d ?t ?x] =>
      destruct (device_connect d t x) as [[[]|e] v']; voice_simpl; repeat split; reflexivity
  end.
Qed.

Lemma start_hands_the_token_to_connect_witness :
  let page := @mount (@sameOrigin demoEnv demoHume demoDevice) _
                {| VoiceChat.loading := false |} (demoWorld, tt) in
  @process_env demoEnv demoHume (lit "HUME_API_KEY") = Some (lit "key")
  /\ lit "key" <> []
  /\ @process_env demoEnv demoHume (lit "HUME_SECRET_KEY") = Some (lit "secret")
  /\ lit "secret" <> []
  /\ @fetchAccessToken demoEnv demoHume (lit "key") (lit "secret")
       (@ext demoEnv (fst (net page))) = (Returned (lit "key:secret"), tt)
  /\ connections (snd (@VoiceChat.start demoEnv (@sameOrigin demoEnv demoHume demoDevice) page))
     = [Some (JStr (lit "key:secret"))].
Proof.
  cbv zeta. split; [reflexivity|]. split; [discriminate|]. split; [reflexivity|].
  split; [discriminate|]. split; [reflexivity|].
  pose proof (@start_hands_the_token_to_connect demoEnv demoHume demoDevice
                (@mount (@sameOrigin demoEnv demoHume demoDevice) _
                   {| VoiceChat.loading := false |} (demoWorld, tt))
                (lit "key") (lit "secret") (lit "key:secret") tt eq_refl) as Hstart.
  cbv zeta in Hstart.
  destruct Hstart as [_ [Hc _]]; [discriminate | reflexivity | discriminate | reflexivity |].
  exact Hc.
Defined.

(* ------------------------------------------------------------------ *)
(** ** What an ingestion hands to the store *)

Section IngestionOnTheStore.

Context {E : Env}.

Lemma ingest_on_store (w : World) (s : HNSWLib) (text : JsString) :
  vectorStorePromise w = Some (Fulfilled 0) -> heap w = [s] ->
  ingest text w
  = (let docs := createDocuments {| chunkSize := 1000; chunkOverlap := 200 |} [text] in
     let '(o, s', e') := HNSWLib_addDocuments s docs (ext w) in
     (match o with
      | Returned _ => Returned (json200 (AddedBody (length docs)))
      | Threw err => Threw err
      end,
      {| vectorStorePromise := Some (Fulfilled 0); heap := [s']; ext := e';
         calls := CallAddDocuments 0 docs :: calls w |})).
Proof.
  intros Hp Hh. unfold ingest, Langchain.splitToDocuments, bind at 1. unfold ret at 1.
  unfold bind at 1. rewrite (@addDocumentsToStore_on_store E w s _ Hp Hh). cbv zeta.
  destruct (HNSWLib_addDocuments s _ (ext w)) as [[[u|err] s'] e']; reflexivity.
Qed.

End IngestionOnTheStore.

(** X24. An ingestion is one [addDocuments] call with all the chunks of the
    text, and it is not undone: with the store in place, a pasted text or an
    uploaded file is split as it stands (surrounding whitespace included)
    and its chunks are handed to the store in a single call; the route
    answers 200 with their number if the store accepts them, and 500 with
    the store's error otherwise, and in both cases whatever state the store
    is left in is the state later requests see. *)
Theorem ingestion_is_one_call_and_is_not_undone :
  forall (E : Env) (w : World) (s : HNSWLib) (text : JsString),
    vectorStorePromise w = Some (Fulfilled 0) -> heap w = [s] ->
    let docs := createDocuments {| chunkSize := 1000; chunkOverlap := 200 |} [text] in
    let answer (fallback : string) :=
      let '(o, s', e') := HNSWLib_addDocuments s docs (ext w) in
      (match o with
       | Returned _ => json200 (AddedBody (length docs))
       | Threw err => jsonStatus (ErrorBody (messageOf err fallback)) 500
       end,
       {| vectorStorePromise := Some (Fulfilled 0); heap := [s']; ext := e';
          calls := CallAddDocuments 0 docs :: calls w |}) in
    UploadRoute.POST (uploadRequest text) w = answer "Failed to ingest file"%string
    /\ (trim text <> [] ->
        TextRoute.POST (textRequest text) w = answer "Failed to ingest text"%string).
Proof.
  intros E w s text Hp Hh docs answer. split.
  - rewrite (@uploadRequest_valid E w text). unfold tryCatch, answer, docs.
    rewrite (@ingest_on_store E w s text Hp Hh). cbv zeta.
    destruct (HNSWLib_addDocuments s _ (ext w)) as [[[u|err] s'] e'];
      [reflexivity|destruct err; reflexivity].
  - intros Ht. rewrite (@textRequest_valid E w text Ht). unfold tryCatch, answer, docs.
    rewrite (@ingest_on_store E w s text Hp Hh). cbv zeta.
    destruct (HNSWLib_addDocuments s _ (ext w)) as [[[u|err] s'] e'];
      [reflexivity|destruct err; reflexivity].
Qed.

Lemma ingestion_is_one_call_and_is_not_undone_witness :
  let w := demoWorldWithHello in
  let s := indexRecords demoCapabilities w in
  @vectorStorePromise demoEnv w = Some (Fulfilled 0)
  /\ @heap demoEnv w = [s]
  /\ @UploadRoute.POST demoEnv (uploadRequest (lit " notes ")) w
     = (json200 (AddedBody 1),
        {| vectorStorePromise := Some (Fulfilled 0);
           heap := [snd (fst (@HNSWLib_addDocuments demoEnv s
                                [{| pageContent := lit " notes "; metadata := [] |}] tt))];
           ext := tt;
           calls := CallAddDocuments 0 [{| pageContent := lit " notes "; metadata := [] |}]
                    :: @calls demoEnv w |}).
Proof.
  cbv zeta. split; [reflexivity|]. split; [reflexivity|].
  destruct (@ingestion_is_one_call_and_is_not_undone demoEnv demoWorldWithHello
              (indexRecords demoCapabilities demoWorldWithHello) (lit " notes ")
              eq_refl eq_refl) as [Hupload _].
  rewrite Hupload. reflexivity.
Defined.

(* ------------------------------------------------------------------ *)
(** ** When the transcript cannot be had *)

(** X25. When the transcript of a video cannot be had, the YouTube route
    answers 500 and the store is not touched: the message is "Transcript
    not available" for a response that is not ok, "Unexpected transcript
    format" for a body that is not an array, and the error's own message
    when [fetch] or [resp.json()] rejects.  One [fetch] was made; the store
    is neither created nor called. *)
Theorem transcript_failure_answers_500 :
  forall (E : Env) (w : World) (request : Request) (json : JsValue)
         (u id : JsString) (err : Thrown),
    request_json request = Returned json ->
    property (lit "url") json = Some (JStr u) ->
    YoutubeRoute.videoIdOf u = Some id ->
    transcriptFailure (fst (fetch (YoutubeRoute.transcriptUrl id) (ext w))) = Some err ->
    YoutubeRoute.POST request w
    = (jsonStatus (ErrorBody (messageOf err "Failed to ingest YouTube")) 500,
       {| vectorStorePromise := vectorStorePromise w; heap := heap w;
          ext := snd (fetch (YoutubeRoute.transcriptUrl id) (ext w));
          calls := CallFetch (YoutubeRoute.transcriptUrl id) :: calls w |}).
Proof.
  intros E w request json u id err Hj Hp Hid Hfail.
  assert (Ht : truthy (Some (JStr u)) = true).
  { destruct u; [discriminate Hid|reflexivity]. }
  rewrite (YoutubeRoute_truthy w request Hj Hp Ht).
  unfold tryCatch, bind. rewrite fetchTranscript_spec, Hid.
  unfold transcriptFailure in Hfail.
  destruct (fetch (YoutubeRoute.transcriptUrl id) (ext w)) as [[resp|e] e'];
    cbn [fst snd] in *.
  - destruct (ok resp).
    + destruct (resp_json resp) as [[| | | |items|]|e]; inversion Hfail; subst;
        try reflexivity; destruct err; reflexivity.
    + inversion Hfail; subst. reflexivity.
  - inversion Hfail; subst. destruct err; reflexivity.
Qed.

Lemma transcript_failure_answers_500_witness :
  let u := lit "https://youtu.be/abc" in
  request_json (youtubeRequest u) = Returned (JObj [(lit "url", JStr u)])
  /\ property (lit "url") (JObj [(lit "url", JStr u)]) = Some (JStr u)
  /\ YoutubeRoute.videoIdOf u = Some (lit "abc")
  /\ transcriptFailure
       (fst (@fetch demoEnv (YoutubeRoute.transcriptUrl (lit "abc")) (@ext demoEnv demoWorld)))
     = Some (JsError (lit "fetch failed"))
  /\ @YoutubeRoute.POST demoEnv (youtubeRequest u) demoWorld
     = (jsonStatus (ErrorBody (lit "fetch failed")) 500,
        @Build_World demoEnv None [] tt
          [CallFetch (YoutubeRoute.transcriptUrl (lit "abc"))]).
Proof.
  cbv zeta. split; [reflexivity|]. split; [reflexivity|]. split; [reflexivity|].
  split; [reflexivity|].
  rewrite (@transcript_failure_answers_500 demoEnv demoWorld
             (youtubeRequest (lit "https://youtu.be/abc"))
             (JObj [(lit "url", JStr (lit "https://youtu.be/abc"))])
             (lit "https://youtu.be/abc") (lit "abc") (JsError (lit "fetch failed"))
             eq_refl eq_refl eq_refl eq_refl).
  reflexivity.
Defined.

(* ------------------------------------------------------------------ *)
(** ** A search from the page *)

(** X26. A search from the page always asks the store for four results:
    [runQuery] sends the query alone, without [k], so with the page and the
    routes in one deployment and the store in place, a click on Search with
    a non-empty query makes exactly one call to the store,
    [similaritySearch(query, 4)], with the query as typed. *)
Theorem page_always_asks_for_four_results :
  forall (E : Env) (H : HumeSdk) (d : Device)
         (page : @Page (sameOrigin d) KnowledgeUploader.State) (s : HNSWLib),
    KnowledgeUploader.query (component page) <> [] ->
    vectorStorePromise (fst (net page)) = Some (Fulfilled 0) ->
    heap (fst (net page)) = [s] ->
    calls (fst (net (snd (@KnowledgeUploader.onClick E (sameOrigin d)
                            KnowledgeUploader.Search page))))
    = CallSimilaritySearch 0 (JStr (KnowledgeUploader.query (component page))) (JNum 4%float)
        :: calls (fst (net page)).
Proof.
  intros E H d page s Hq Hp Hh.
  assert (Hrq : requestOfClick KnowledgeUploader.Search (component page)
                = Some (lit "/api/query",
                        postJson [(lit "query", KnowledgeUploader.query (component page))])).
  { unfold requestOfClick.
    destruct (KnowledgeUploader.query (component page)); [congruence|reflexivity]. }
  destruct (click_not_refused _ _ Hrq) as [op [Hop [Hnr Hiff]]].
  assert (H400 : status (fst (serve op (fst (net page)))) <> 400%N).
  { intros H4. apply Hnr. now apply serve_400_refused in H4. }
  rewrite (@click_served E H d _ page _ _ op Hrq Hop Hiff H400). cbn [snd net fst].
  inversion Hop; subst op.
  change (serve (Query (arriving (postJson [(lit "query",
                                            KnowledgeUploader.query (component page))])))
                (fst (net page)))
    with (QueryRoute.POST (queryRequest (KnowledgeUploader.query (component page)))
                          (fst (net page))).
  rewrite (@queryRequest_valid E (fst (net page)) _ Hq).
  rewrite (@similaritySearch_on_store E (fst (net page)) s _ _ Hp Hh).
  destruct (HNSWLib_similaritySearch s _ _ (ext (fst (net page)))) as [[[docs|err] s'] e'];
    reflexivity.
Qed.

Lemma page_always_asks_for_four_results_witness :
  let st := {| KnowledgeUploader.file := None;
               KnowledgeUploader.youtubeUrl := [];
               KnowledgeUploader.pastedText := [];
               KnowledgeUploader.query := lit "hello";
               KnowledgeUploader.results := JArr [];
               KnowledgeUploader.status := JStr [] |} in
  let page := @mount (@sameOrigin demoEnv demoHume demoDevice) _ st (demoWorldWithHello, tt) in
  KnowledgeUploader.query (component page) <> []
  /\ @vectorStorePromise demoEnv (fst (net page)) = Some (Fulfilled 0)
  /\ @heap demoEnv (fst (net page)) = [indexRecords demoCapabilities demoWorldWithHello]
  /\ @calls demoEnv
       (fst (net (snd (@KnowledgeUploader.onClick demoEnv
                         (@sameOrigin demoEnv demoHume demoDevice)
                         KnowledgeUploader.Search page))))
     = CallSimilaritySearch 0 (JStr (lit "hello")) (JNum 4%float)
         :: @calls demoEnv demoWorldWithHello.
Proof.
  cbv zeta. split; [discriminate|]. split; [reflexivity|]. split; [reflexivity|].
  apply (@page_always_asks_for_four_results demoEnv demoHume demoDevice
           (@mount (@sameOrigin demoEnv demoHume demoDevice) _
              {| KnowledgeUploader.file := None;
                 KnowledgeUploader.youtubeUrl := [];
                 KnowledgeUploader.pastedText := [];
                 KnowledgeUploader.query := lit "hello";
                 KnowledgeUploader.results := JArr [];
                 KnowledgeUploader.status := JStr [] |} (demoWorldWithHello, tt))
           (indexRecords demoCapabilities demoWorldWithHello));
    [discriminate | reflexivity | reflexivity].
Defined.
